(** * kinda-lang: the line transformer and the direct-execution semantics

    A shallow embedding of [kinda/langs/python/transformer.py] and
    [kinda/langs/python/semantics.py].

    Python [str] values are [string]s (characters are code points below 256),
    the module-level set [used_helpers] is a [gset string] threaded through
    every function that mutates it, exceptions are values of [exn], and the
    interpreter environment [env] is a [gmap string pyval]. *)

From Stdlib Require Import Ascii String ZArith Lia Floats.
From stdpp Require Import base tactics option list gmap sets strings sorting.

Local Open Scope string_scope.

(** ** Python string operations used by the transformer *)

Module PyStr.

(** [str.isspace] on one character, for code points below 256. *)
Definition isspace (c : ascii) : bool :=
  let n := nat_of_ascii c in
  (((9 <=? n) && (n <=? 13)) || ((28 <=? n) && (n <=? 32))
   || (n =? 133) || (n =? 160))%nat.

Fixpoint lstrip (s : string) : string :=
  match s with
  | EmptyString => EmptyString
  | String c s' => if isspace c then lstrip s' else s
  end.

Fixpoint rstrip (s : string) : string :=
  match s with
  | EmptyString => EmptyString
  | String c s' =>
      match rstrip s' with
      | EmptyString => if isspace c then EmptyString else String c EmptyString
      | r => String c r
      end
  end.

Definition strip (s : string) : string := rstrip (lstrip s).

Definition len (s : string) : nat := String.length s.

(** [s.startswith(p)] *)
Definition startswith (p s : string) : bool := String.prefix p s.

(** [s[:n]] and [s[n:]] for a non-negative [n] (slices clamp). *)
Fixpoint slice_to (n : nat) (s : string) : string :=
  match n, s with
  | S k, String c s' => String c (slice_to k s')
  | _, _ => EmptyString
  end.

Fixpoint slice_from (n : nat) (s : string) : string :=
  match n, s with
  | S k, String _ s' => slice_from k s'
  | _, _ => s
  end.

(** [s.endswith(p)] *)
Definition endswith (p s : string) : bool :=
  (len p <=? len s)%nat && String.eqb (slice_from (len s - len p) s) p.

(** [sub in s] *)
Fixpoint str_in (sub s : string) : bool :=
  String.prefix sub s
  || match s with
     | EmptyString => false
     | String _ s' => str_in sub s'
     end.

(** [any(op in s for op in ops)] *)
Definition any_in (ops : list string) (s : string) : bool :=
  existsb (fun op => str_in op s) ops.

(** [s.replace(old, new)]: every non-overlapping occurrence, left to
    right.  [skip] counts the characters of an occurrence still to drop. *)
Fixpoint replace_from (old new : string) (skip : nat) (s : string) : string :=
  match s with
  | EmptyString => EmptyString
  | String c s' =>
      match skip with
      | S k => replace_from old new k s'
      | O =>
          if String.prefix old s
          then new +:+ replace_from old new (len old - 1) s'
          else String c (replace_from old new 0 s')
      end
  end.

Fixpoint interleave (new s : string) : string :=
  match s with
  | EmptyString => new
  | String c s' => new +:+ String c (interleave new s')
  end.

Definition replace (old new s : string) : string :=
  match old with
  | EmptyString => interleave new s
  | _ => replace_from old new 0 s
  end.

(** [s.split(d)] for a one-character separator. *)
Fixpoint split (d : ascii) (s : string) : list string :=
  match s with
  | EmptyString => [EmptyString]
  | String c s' =>
      if Ascii.eqb c d then EmptyString :: split d s'
      else match split d s' with
           | h :: t => String c h :: t
           | [] => [String c EmptyString]
           end
  end.

(** [s.split(d, 1)] *)
Fixpoint split1 (d : ascii) (s : string) : list string :=
  match s with
  | EmptyString => [EmptyString]
  | String c s' =>
      if Ascii.eqb c d then [EmptyString; s']
      else match split1 d s' with
           | h :: t => String c h :: t
           | [] => [String c EmptyString]
           end
  end.

(** [l[-1]] of a list of strings ([split] never returns an empty list). *)
Definition last_part (l : list string) : string := List.last l EmptyString.

(** [sep.join(l)] *)
Definition join (sep : string) (l : list string) : string := String.concat sep l.

(** [content.splitlines()]: the line boundaries among the code points
    below 256 are LF, CR, CRLF, VT, FF, FS, GS, RS and NEL. *)
Definition is_linebreak (c : ascii) : bool :=
  let n := nat_of_ascii c in
  (((10 <=? n) && (n <=? 13)) || ((28 <=? n) && (n <=? 30)) || (n =? 133))%nat.

Fixpoint splitlines_acc (cur : string) (s : string) : list string :=
  match s with
  | EmptyString => match cur with EmptyString => [] | _ => [cur] end
  | String c s' =>
      if is_linebreak c then
        match s' with
        | String c' s'' =>
            if ((nat_of_ascii c =? 13) && (nat_of_ascii c' =? 10))%nat
            then cur :: splitlines_acc EmptyString s''
            else cur :: splitlines_acc EmptyString s'
        | EmptyString => [cur]
        end
      else splitlines_acc (cur +:+ String c EmptyString) s'
  end.

Definition splitlines (s : string) : list string := splitlines_acc EmptyString s.

(** [sorted(l)] on strings: code-point lexicographic order. *)
Definition sorted (l : list string) : list string := merge_sort String.le l.

(** Every character is white space (so [strip] leaves nothing). *)
Fixpoint blank (s : string) : bool :=
  match s with
  | EmptyString => true
  | String c s' => isspace c && blank s'
  end.

(** [len(line) - len(line.lstrip())] *)
Definition indent_of (line : string) : nat := len line - len (lstrip line).

(** The white space around the stripped text of a line. *)
Definition leading (line : string) : string := slice_to (indent_of line) line.

Definition trailing (line : string) : string :=
  slice_from (len (strip line)) (lstrip line).

End PyStr.

Import PyStr.

(** ** Regular expressions of the transformer

    [_transform_ish_constructs] builds the pattern
    [^\s*{re.escape(left)}\s*~ish\s+{re.escape(right)}\s*$] and asks [re.match]
    whether the stripped line matches it.  Only the yes/no answer is used,
    so the pattern is a regular language and matching is membership, decided
    here with Brzozowski derivatives. *)

Module Re.

Inductive re : Type :=
| Void
| Eps
| Chr (p : ascii -> bool)
| Cat (r1 r2 : re)
| Alt (r1 r2 : re)
| Star (r : re).

Fixpoint nullable (r : re) : bool :=
  match r with
  | Void => false
  | Eps => true
  | Chr _ => false
  | Cat r1 r2 => nullable r1 && nullable r2
  | Alt r1 r2 => nullable r1 || nullable r2
  | Star _ => true
  end.

Fixpoint deriv (c : ascii) (r : re) : re :=
  match r with
  | Void => Void
  | Eps => Void
  | Chr p => if p c then Eps else Void
  | Cat r1 r2 =>
      if nullable r1
      then Alt (Cat (deriv c r1) r2) (deriv c r2)
      else Cat (deriv c r1) r2
  | Alt r1 r2 => Alt (deriv c r1) (deriv c r2)
  | Star r1 => Cat (deriv c r1) (Star r1)
  end.

(** The whole string is in the language of [r]. *)
Fixpoint fullmatch (r : re) (s : string) : bool :=
  match s with
  | EmptyString => nullable r
  | String c s' => fullmatch (deriv c r) s'
  end.

(** [re.escape(s)]: the literal text [s]. *)
Fixpoint lit (s : string) : re :=
  match s with
  | EmptyString => Eps
  | String c s' => Cat (Chr (Ascii.eqb c)) (lit s')
  end.

(** [\s], [\s*] and [\s+] *)
Definition ws : re := Chr isspace.
Definition ws_star : re := Star ws.
Definition ws_plus : re := Cat ws (Star ws).

(** The language of a pattern, as a relation. *)
Inductive lang : re -> string -> Prop :=
| lang_eps : lang Eps EmptyString
| lang_chr p c : p c = true -> lang (Chr p) (String c EmptyString)
| lang_cat r1 r2 s1 s2 : lang r1 s1 -> lang r2 s2 -> lang (Cat r1 r2) (s1 +:+ s2)
| lang_alt_l r1 r2 s : lang r1 s -> lang (Alt r1 r2) s
| lang_alt_r r1 r2 s : lang r2 s -> lang (Alt r1 r2) s
| lang_star_nil r : lang (Star r) EmptyString
| lang_star_cons r s1 s2 : lang r s1 -> lang (Star r) s2 -> lang (Star r) (s1 +:+ s2).

End Re.

(** ** What the matchers module returns

    [kinda/grammar/python/matchers.py] is an input of the transformer: the
    transformer calls [match_python_construct], [find_ish_constructs] and
    [find_welp_constructs] and works on what they return.  The development
    is parametric in these three functions. *)

(** One entry [(construct_type, match, start_pos, end_pos)] of
    [find_ish_constructs] / [find_welp_constructs].  A match object is
    represented by the texts of its groups; the inline patterns of
    constructs.py have no optional group. *)
Record construct : Type := Construct {
  construct_type : string;
  match_groups : list string;
  start_pos : nat;
  end_pos : nat
}.

(** [match.group(k)] for [k >= 1]; [None] stands for the [IndexError] the
    transformer catches. *)
Definition group (c : construct) (k : nat) : option string :=
  match_groups c !! (k - 1).

(** [(key, groups)] of [match_python_construct]; [None] is [(None, None)]. *)
Definition header : Type := option (string * list (option string)).

(** ** Exceptions *)

(** [AttributeError] is what a method call on [None] raises.  The message
    of a [KindaParseError] is either a fixed text or [f"{prefix}{str(e)}"]
    for the exception [e] being wrapped. *)
Inductive exn : Type :=
| AttributeError (on : string)
| KindaParseError (message : message) (line_number : nat) (line_content : string)
with message : Type :=
| Text (text : string)
| Because (prefix : string) (e : exn).

(** ** The used-helper set and the monad that threads it *)

Definition helpers : Type := gset string.

(** How a call ends: it returns, it raises, or the bound on the number of
    loop rounds that the model gives to the [while] loops was too small
    (the loops of the source always end, see [transform_file_sat]). *)
Inductive outcome (A : Type) : Type :=
| Returned (a : A)
| Raised (e : exn)
| OutOfFuel.

Arguments Returned {A} a.
Arguments Raised {A} e.
Arguments OutOfFuel {A}.

Definition M (A : Type) : Type := helpers -> outcome A * helpers.

Definition ret {A} (a : A) : M A := fun uh => (Returned a, uh).

Definition raise {A} (e : exn) : M A := fun uh => (Raised e, uh).

Definition out_of_fuel {A} : M A := fun uh => (OutOfFuel, uh).

Definition bind {A B} (m : M A) (k : A -> M B) : M B :=
  fun uh =>
    match m uh with
    | (Returned a, uh') => k a uh'
    | (Raised e, uh') => (Raised e, uh')
    | (OutOfFuel, uh') => (OutOfFuel, uh')
    end.

(** [used_helpers.add(name)] *)
Definition add (name : string) (uh : helpers) : helpers := {[ name ]} ∪ uh.

Definition use (name : string) : M unit := fun uh => (Returned tt, add name uh).

(** A computation that only updates [used_helpers]. *)
Definition lift {A} (f : helpers -> A * helpers) : M A :=
  fun uh => let '(a, uh') := f uh in (Returned a, uh').

(** [try: body except Exception as e: raise handler(e)] *)
Definition try_with {A} (m : M A) (handler : exn -> exn) : M A :=
  fun uh =>
    match m uh with
    | (Raised e, uh') => (Raised (handler e), uh')
    | r => r
    end.

Declare Scope kinda_scope.
Delimit Scope kinda_scope with kinda.
Notation "x <- c ;; k" := (bind c (fun x => k))
  (at level 100, c at next level, right associativity) : kinda_scope.
Notation "c ;;; k" := (bind c (fun _ => k))
  (at level 100, right associativity) : kinda_scope.

(** [sat m P]: from every helper set, [m] keeps the helpers it was given,
    does not run out of rounds, and returns only values that satisfy [P]. *)
Definition sat {A} (m : M A) (P : A -> Prop) : Prop :=
  forall uh,
    uh ⊆ (m uh).2
    /\ match (m uh).1 with
     | Returned a => P a
     | Raised _ => True
     | OutOfFuel => False
     end.


(** [f"{x}"] of a value that may be [None] *)
Definition fmt (o : option string) : string := default "None" o.

(** Truth value of an optional group: [None] and the empty string are
    false. *)
Definition truthy (o : option string) : bool :=
  match o with
  | Some g => negb (String.eqb g EmptyString)
  | None => false
  end.

(** ** transformer.py *)

Section Transformer.

Variable match_python_construct : string -> header.
Variable find_ish_constructs : string -> list construct.
Variable find_welp_constructs : string -> list construct.

(** *** [_transform_ish_constructs] *)

Definition assignment_ops : list string :=
  ["+"; "-"; "*"; "/"; "="; "("; ")"; "["; "]"; ","].

Definition comparison_ops : list string :=
  ["+"; "-"; "*"; "/"; "=="; "!="; "<"; ">"; "<="; ">="].

(** [^\s*{left}\s*~ish\s+{right}\s*$] *)
Definition assignment_pattern (left_val right_val : string) : Re.re :=
  Re.Cat Re.ws_star
    (Re.Cat (Re.lit left_val)
       (Re.Cat Re.ws_star
          (Re.Cat (Re.lit "~ish")
             (Re.Cat Re.ws_plus
                (Re.Cat (Re.lit right_val) Re.ws_star))))).

Definition is_standalone_assignment (left_val right_val stripped_line : string) : bool :=
  negb (any_in assignment_ops stripped_line)
  || Re.fullmatch (assignment_pattern left_val right_val) stripped_line.

Definition is_in_conditional (stripped_line : string) : bool :=
  startswith "if " stripped_line
  || startswith "elif " stripped_line
  || startswith "while " stripped_line
  || str_in " if " stripped_line
  || str_in " and " stripped_line
  || str_in " or " stripped_line
  || any_in comparison_ops stripped_line.

Definition assignment_form (left_val right_val : string) : string :=
  left_val +:+ " = ish_value(" +:+ left_val +:+ ", " +:+ right_val +:+ ")".

Definition comparison_form (left_val right_val : string) : string :=
  "ish_comparison(" +:+ left_val +:+ ", " +:+ right_val +:+ ")".

(** The body of the loop up to [continue]: the replacement text, if the
    construct is not skipped, and the helpers registered on the way. *)
Definition ish_replacement (line : string) (c : construct) (uh : helpers)
  : option string * helpers :=
  if String.eqb (construct_type c) "ish_value" then
    let uh := add "ish_value" uh in
    match group c 1 with
    | Some value => (Some ("ish_value(" +:+ value +:+ ")"), uh)
    | None => (None, uh)
    end
  else if String.eqb (construct_type c) "ish_comparison" then
    match group c 1, group c 2 with
    | Some left_val, Some right_val =>
        let stripped_line := strip line in
        if is_standalone_assignment left_val right_val stripped_line
           && negb (is_in_conditional stripped_line)
        then (Some (assignment_form left_val right_val), add "ish_value" uh)
        else (Some (comparison_form left_val right_val), add "ish_comparison" uh)
    | _, _ => (None, uh)
    end
  else if String.eqb (construct_type c) "ish_comparison_with_ish_value" then
    let uh := add "ish_value" (add "ish_comparison" uh) in
    match group c 1, group c 2 with
    | Some left_val, Some right_val =>
        (Some ("ish_comparison(" +:+ left_val +:+ ", ish_value(" +:+ right_val +:+ "))"), uh)
    | _, _ => (None, uh)
    end
  else (None, uh).

(** [transformed_line[:start_pos] + replacement + transformed_line[end_pos:]] *)
Definition splice (transformed_line : string) (c : construct) (replacement : string) : string :=
  slice_to (start_pos c) transformed_line +:+ replacement
  +:+ slice_from (end_pos c) transformed_line.

Definition ish_step (line : string) (acc : string * helpers) (c : construct)
  : string * helpers :=
  let '(transformed_line, uh) := acc in
  match ish_replacement line c uh with
  | (Some replacement, uh') => (splice transformed_line c replacement, uh')
  | (None, uh') => (transformed_line, uh')
  end.

Definition _transform_ish_constructs (line : string) (uh : helpers) : string * helpers :=
  let ish_constructs := find_ish_constructs line in
  match ish_constructs with
  | [] => (line, uh)
  | _ => fold_left (ish_step line) (rev ish_constructs) (line, uh)
  end.

(** *** [_transform_welp_constructs] *)

Definition welp_step (acc : string * helpers) (c : construct) : string * helpers :=
  let '(transformed_line, uh) := acc in
  if String.eqb (construct_type c) "welp" then
    let uh := add "welp_fallback" uh in
    match group c 1, group c 2 with
    | Some g1, Some g2 =>
        let '(primary_expr, uh) := _transform_ish_constructs (strip g1) uh in
        let '(fallback_value, uh) := _transform_ish_constructs (strip g2) uh in
        let replacement :=
          "welp_fallback(lambda: " +:+ primary_expr +:+ ", " +:+ fallback_value +:+ ")" in
        (splice transformed_line c replacement, uh)
    | _, _ => (transformed_line, uh)
    end
  else (transformed_line, uh).

Definition _transform_welp_constructs (line : string) (uh : helpers) : string * helpers :=
  let welp_constructs := find_welp_constructs line in
  match welp_constructs with
  | [] => (line, uh)
  | _ => fold_left welp_step (rev welp_constructs) (line, uh)
  end.

(** *** [transform_line] *)

Definition complex_ops : list string :=
  ["("; ")"; "+"; "-"; "*"; "/"; "="; "["; "]"].

Definition inline_keywords : list string :=
  ["if"; "elif"; "while"; "for"; "return"; "yield"; "assert"; "del"].

(** [groups[k].strip()] when [groups[k]] exists and is true, else the
    empty string *)
Definition stripped_group (groups : list (option string)) (k : nat) : string :=
  match groups !! k with
  | Some (Some g) => strip g
  | _ => EmptyString
  end.

(** The test that sends a line matching the welp header to inline
    parsing. *)
Definition prefers_inline (groups : list (option string)) : bool :=
  let primary_expr := stripped_group groups 0 in
  let fallback_expr := stripped_group groups 1 in
  let is_complex_expr := any_in complex_ops primary_expr in
  let is_complex_fallback := any_in complex_ops fallback_expr in
  let starts_with_keyword :=
    existsb (fun kw => startswith (kw +:+ " ") (strip primary_expr)) inline_keywords in
  let ends_with_colon := endswith ":" (strip fallback_expr) in
  is_complex_expr || is_complex_fallback || starts_with_keyword || ends_with_colon.

(** [key, groups] after the welp check; [if key:] also sends an empty key
    to the inline branch. *)
Definition main_construct (h : header) : header :=
  match h with
  | Some (key, groups) =>
      if String.eqb key "welp" && prefers_inline groups then None
      else if String.eqb key EmptyString then None
      else Some (key, groups)
  | None => None
  end.

Definition is_import (key : string) : bool :=
  String.eqb key "kinda_import" || String.eqb key "maybe_import".

(** One round of [for group in groups]. *)
Definition process_group (key : string)
    (acc : list (option string) * helpers) (g : option string)
  : list (option string) * helpers :=
  let '(processed_groups, uh) := acc in
  match g with
  | Some text =>
      if String.eqb key "welp" then
        if Nat.eqb (length processed_groups) 1 then
          let '(group_transformed, uh) := _transform_ish_constructs text uh in
          ((processed_groups ++ [Some group_transformed])%list, uh)
        else ((processed_groups ++ [g])%list, uh)
      else
        let '(group_ish_transformed, uh) := _transform_ish_constructs text uh in
        let '(group_fully_transformed, uh) :=
          _transform_welp_constructs group_ish_transformed uh in
        ((processed_groups ++ [Some group_fully_transformed])%list, uh)
  | None => ((processed_groups ++ [g])%list, uh)
  end.

Definition process_groups (key : string) (groups : list (option string)) (uh : helpers)
  : list (option string) * helpers :=
  if is_import key then (groups, uh)
  else fold_left (process_group key) groups ([], uh).

(** [g.strip()], which raises on [None] *)
Definition strip_of (what : string) (g : option string) : M string :=
  match g with
  | Some text => ret (strip text)
  | None => raise (AttributeError what)
  end.

(** [module_name.split(".")[-1]] *)
Definition simple_name (module_name : option string) : M string :=
  match module_name with
  | Some text => ret (last_part (split "." text))
  | None => raise (AttributeError "split")
  end.

(** The chain [if key == ... elif ...] computing [transformed_code]. *)
Definition transformed_code (key : string) (groups : list (option string))
    (stripped : string) : M string :=
  (if String.eqb key "kinda_int" then
     match groups with
     | var :: val :: _ =>
         use "kinda_int" ;;;
         ret (fmt var +:+ " = kinda_int(" +:+ fmt val +:+ ")")
     | _ => ret stripped
     end
   else if String.eqb key "kinda_binary" then
     match groups with
     | var :: rest =>
         use "kinda_binary" ;;;
         if truthy (mjoin (rest !! 0))
         then ret (fmt var +:+ " = kinda_binary(" +:+ fmt (mjoin (rest !! 0)) +:+ ")")
         else ret (fmt var +:+ " = kinda_binary()")
     | [] => ret stripped
     end
   else if String.eqb key "sorta_print" then
     match groups with
     | expr :: _ =>
         use "sorta_print" ;;;
         ret ("sorta_print(" +:+ fmt expr +:+ ")")
     | [] => ret stripped
     end
   else if String.eqb key "sometimes" then
     use "sometimes" ;;;
     let cond := stripped_group groups 0 in
     ret (if String.eqb cond EmptyString then "if sometimes():"
          else "if sometimes(" +:+ cond +:+ "):")
   else if String.eqb key "maybe" then
     use "maybe" ;;;
     let cond := stripped_group groups 0 in
     ret (if String.eqb cond EmptyString then "if maybe():"
          else "if maybe(" +:+ cond +:+ "):")
   else if String.eqb key "fuzzy_reassign" then
     match groups with
     | var :: val :: _ =>
         use "fuzzy_assign" ;;;
         ret (fmt var +:+ " = fuzzy_assign('" +:+ fmt var +:+ "', " +:+ fmt val +:+ ")")
     | _ => ret stripped
     end
   else if String.eqb key "kinda_import" then
     match groups with
     | module_name :: rest =>
         if truthy (mjoin (rest !! 0)) then
           let alias := mjoin (rest !! 0) in
           use "kinda_import" ;;;
           ret (fmt alias +:+ " = kinda_import('" +:+ fmt module_name
                +:+ "', alias='" +:+ fmt alias +:+ "')")
         else
           var_name <- simple_name module_name ;;
           use "kinda_import" ;;;
           ret (var_name +:+ " = kinda_import('" +:+ fmt module_name +:+ "')")
     | [] => ret stripped
     end
   else if String.eqb key "maybe_import" then
     match groups with
     | module_name :: rest =>
         let alias := if truthy (mjoin (rest !! 0)) then mjoin (rest !! 0) else None in
         let fallback := if truthy (mjoin (rest !! 1)) then mjoin (rest !! 1) else None in
         use "maybe_import" ;;;
         match alias with
         | Some a =>
             match fallback with
             | Some f =>
                 ret (a +:+ " = maybe_import('" +:+ fmt module_name +:+ "', alias='" +:+ a
                      +:+ "', fallback_module='" +:+ strip f +:+ "')")
             | None =>
                 ret (a +:+ " = maybe_import('" +:+ fmt module_name +:+ "', alias='" +:+ a
                      +:+ "')")
             end
         | None =>
             var_name <- simple_name module_name ;;
             match fallback with
             | Some f =>
                 ret (var_name +:+ " = maybe_import('" +:+ fmt module_name
                      +:+ "', fallback_module='" +:+ strip f +:+ "')")
             | None =>
                 ret (var_name +:+ " = maybe_import('" +:+ fmt module_name +:+ "')")
             end
         end
     | [] => ret stripped
     end
   else if String.eqb key "welp" then
     match groups with
     | g0 :: g1 :: _ =>
         primary_expr <- strip_of "strip" g0 ;;
         fallback_value <- strip_of "strip" g1 ;;
         use "welp_fallback" ;;;
         if str_in "=" primary_expr && negb (startswith "=" (strip primary_expr)) then
           match split1 "=" primary_expr with
           | [part0; part1] =>
               ret (strip part0 +:+ " = welp_fallback(lambda: " +:+ strip part1
                    +:+ ", " +:+ fallback_value +:+ ")")
           | _ =>
               ret ("welp_fallback(lambda: " +:+ primary_expr +:+ ", "
                    +:+ fallback_value +:+ ")")
           end
         else
           ret ("welp_fallback(lambda: " +:+ primary_expr +:+ ", "
                +:+ fallback_value +:+ ")")
     | _ => ret stripped
     end
   else ret stripped)%kinda.

Definition transform_line (line : string) : M (list string) :=
  (let original_line := line in
   let stripped := strip line in
   if String.eqb stripped EmptyString then ret [EmptyString]
   else if startswith "#" stripped then ret [original_line]
   else
     match main_construct (match_python_construct stripped) with
     | Some (key, groups) =>
         groups <- lift (process_groups key groups) ;;
         code <- transformed_code key groups stripped ;;
         ret [replace stripped code original_line]
     | None =>
         ish_transformed_line <- lift (_transform_ish_constructs line) ;;
         welp_transformed_line <- lift (_transform_welp_constructs ish_transformed_line) ;;
         if negb (String.eqb welp_transformed_line line)
         then ret [welp_transformed_line]
         else ret [original_line]
     end)%kinda.

(** *** [_validate_conditional_syntax]

    Returns [True] or raises; the file path only decorates the error and
    is left out. *)
Definition _validate_conditional_syntax (line : string) (line_number : nat) : M bool :=
  if startswith "~sometimes" line then
    if negb (startswith "~sometimes(" line) && negb (str_in "(" line) then
      raise (KindaParseError
               (Text "~sometimes needs parentheses. Try: ~sometimes() or ~sometimes(condition)")
               line_number line)
    else ret true
  else if startswith "~maybe" line then
    if negb (startswith "~maybe import" line) && negb (str_in "(" line) then
      raise (KindaParseError
               (Text "~maybe needs parentheses. Try: ~maybe() or ~maybe(condition)")
               line_number line)
    else ret true
  else ret true.

Definition is_conditional_header (stripped : string) : bool :=
  startswith "~sometimes" stripped || startswith "~maybe" stripped.

(** *** [_process_python_indented_block]

    The loop [while i < len(lines)] reads [lines[i]] and only moves [i]
    forward by one, so it runs over the suffix [lines[i:]]; [rest] is that
    suffix.  The result is the returned index with the new contents of
    [output_lines].  [_warn_about_line] only prints and is left out. *)
Fixpoint python_block_loop (base_indent : nat) (rest : list string)
    (i : nat) (output_lines : list string) : M (nat * list string) :=
  match rest with
  | [] => ret (i, output_lines)
  | line :: rest' =>
      let stripped := strip line in
      let line_number := i + 1 in
      if String.eqb stripped EmptyString then
        python_block_loop base_indent rest' (i + 1) (output_lines ++ [line])%list
      else
        let line_indent := indent_of line in
        if (line_indent <=? base_indent)%nat then ret (i, output_lines)
        else
          (transformed <-
             try_with (transform_line line)
               (fun e => KindaParseError
                           (Because "Error in Python indented block: " e)
                           line_number line) ;;
           python_block_loop base_indent rest' (i + 1)
             (output_lines ++ transformed)%list)%kinda
  end.

Definition _process_python_indented_block (lines : list string) (start_index : nat)
    (output_lines : list string) (conditional_line : string) : M (nat * list string) :=
  let base_indent := indent_of conditional_line in
  python_block_loop base_indent (drop start_index lines) start_index output_lines.

(** *** [_process_conditional_block]

    The loop continues from the index a nested call returns, so it is not
    a recursion on the suffix: [fuel] bounds the number of rounds. *)
Fixpoint conditional_block_loop (fuel : nat) (lines : list string) (indent : string)
    (i : nat) (brace_count : Z) (output_lines : list string) : M (nat * list string) :=
  match fuel with
  | O => out_of_fuel
  | S fuel' =>
      match lines !! i with
      | None => ret (i, output_lines)
      | Some line =>
          let stripped := strip line in
          let line_number := i + 1 in
          let closing := String.eqb stripped "}" in
          let brace_count := if closing then (brace_count - 1)%Z else brace_count in
          if closing && (brace_count =? 0)%Z then ret (i + 1, output_lines)
          else if String.eqb stripped EmptyString || startswith "#" stripped then
            conditional_block_loop fuel' lines indent (i + 1) brace_count
              (output_lines ++ [indent +:+ line])%list
          else
            (round <-
               try_with
                 (if is_conditional_header stripped then
                    valid <- _validate_conditional_syntax stripped line_number ;;
                    if negb valid then ret (i + 1, brace_count, output_lines)
                    else
                      transformed_nested <- transform_line line ;;
                      nested <-
                        conditional_block_loop fuel' lines (indent +:+ "    ") (i + 1) 1
                          (output_lines ++ map (String.append indent) transformed_nested)%list ;;
                      ret (nested.1, brace_count, nested.2)
                  else
                    let brace_count :=
                      if endswith "{" stripped then (brace_count + 1)%Z else brace_count in
                    transformed_block <- transform_line line ;;
                    ret (i + 1, brace_count,
                         (output_lines ++ map (String.append indent) transformed_block)%list))
                 (fun e => KindaParseError (Because "Error in conditional block: " e)
                             line_number line) ;;
             let '(i', brace_count', output_lines') := round in
             conditional_block_loop fuel' lines indent i' brace_count' output_lines')%kinda
      end
  end.

Definition _process_conditional_block (fuel : nat) (lines : list string) (start_index : nat)
    (output_lines : list string) (indent : string) : M (nat * list string) :=
  conditional_block_loop fuel lines indent start_index 1 output_lines.

(** *** [transform_file] *)

Definition newline : string := String (ascii_of_nat 10) EmptyString.

(** The main loop of [transform_file]. *)
Fixpoint transform_lines (fuel : nat) (lines : list string) (i : nat)
    (output_lines : list string) : M (list string) :=
  match fuel with
  | O => out_of_fuel
  | S fuel' =>
      match lines !! i with
      | None => ret output_lines
      | Some line =>
          let stripped := strip line in
          let line_number := i + 1 in
          (round <-
             try_with
               (if is_conditional_header stripped then
                  valid <- _validate_conditional_syntax stripped line_number ;;
                  if negb valid then ret (i + 1, output_lines)
                  else
                    transformed <- transform_line line ;;
                    let output_lines := (output_lines ++ transformed)%list in
                    if endswith "{" stripped then
                      _process_conditional_block fuel' lines (i + 1) output_lines "    "
                    else
                      _process_python_indented_block lines (i + 1) output_lines line
                else
                  transformed <- transform_line line ;;
                  ret (i + 1, (output_lines ++ transformed)%list))
               (fun e => KindaParseError (Because "Transform failed: " e) line_number line) ;;
           transform_lines fuel' lines round.1 round.2)%kinda
      end
  end.

(** The import header, read from [used_helpers] when the loop is over. *)
Definition import_header (target_language : string) (uh : helpers) : string :=
  if decide (uh = ∅) then EmptyString
  else "from kinda.langs." +:+ target_language +:+ ".runtime.fuzzy import "
       +:+ join ", " (sorted (elements uh)) +:+ newline +:+ newline.

(** [transform_file], from the text [safe_read_file] returned. *)
Definition transform_file (content : string) (target_language : string) : M string :=
  (let lines := splitlines content in
   output_lines <- transform_lines (S (length lines)) lines 0 [] ;;
   fun uh =>
     (Returned (import_header target_language uh +:+ join newline output_lines), uh))%kinda.

(** *** Vocabulary of the statements *)

(** The text [s] is [left_val], [~ish] and [right_val], with optional
    blanks around and at least one blank after [~ish]. *)
Definition assignment_shaped (left_val right_val s : string) : Prop :=
  exists w1 w2 w3 w4,
    s = w1 +:+ left_val +:+ w2 +:+ "~ish" +:+ w3 +:+ right_val +:+ w4
    /\ blank w1 = true /\ blank w2 = true
    /\ (blank w3 = true /\ w3 <> EmptyString) /\ blank w4 = true.

(** The stripped line has one of the characters that rule out the
    standalone assignment. *)
Definition has_operator (s : string) : Prop :=
  exists op, op ∈ assignment_ops /\ str_in op s = true.

(** The stripped line is in a condition or a larger expression. *)
Definition in_condition (s : string) : Prop :=
  startswith "if " s = true \/ startswith "elif " s = true
  \/ startswith "while " s = true
  \/ str_in " if " s = true \/ str_in " and " s = true \/ str_in " or " s = true
  \/ exists op, op ∈ comparison_ops /\ str_in op s = true.

(** The primary or the fallback text of a fallback header looks
    structurally complex. *)
Definition looks_complex (groups : list (option string)) : Prop :=
  let primary := stripped_group groups 0 in
  let fallback := stripped_group groups 1 in
  (exists op, op ∈ complex_ops /\ str_in op primary = true)
  \/ (exists op, op ∈ complex_ops /\ str_in op fallback = true)
  \/ (exists kw, kw ∈ inline_keywords /\ startswith (kw +:+ " ") primary = true)
  \/ endswith ":" fallback = true.

(** The inline composer on one text: the approximate constructs first,
    then the fallback constructs. *)
Definition compose (text : string) (uh : helpers) : string * helpers :=
  let '(ish_transformed, uh) := _transform_ish_constructs text uh in
  _transform_welp_constructs ish_transformed uh.

(** The inline composer on each captured group in turn. *)
Fixpoint compose_groups (groups : list (option string)) (uh : helpers)
  : list (option string) * helpers :=
  match groups with
  | [] => ([], uh)
  | None :: groups' =>
      let '(rest, uh) := compose_groups groups' uh in (None :: rest, uh)
  | Some text :: groups' =>
      let '(text', uh) := compose text uh in
      let '(rest, uh) := compose_groups groups' uh in
      (Some text' :: rest, uh)
  end.

(** Template substitution: the code of the construct [key] for the groups
    [groups], put in the place of the stripped text of the line. *)
Definition substitute (line key : string) (groups : list (option string)) : M (list string) :=
  (code <- transformed_code key groups (strip line) ;;
   ret [replace (strip line) code line])%kinda.

(** The text [line] with each construct of [cs] that is not skipped
    replaced at its own offsets, from offset [pos] on. *)
Fixpoint rewritten (line : string) (pos : nat) (cs : list construct) : string :=
  match cs with
  | [] => slice_from pos line
  | c :: cs' =>
      match (ish_replacement line c ∅).1 with
      | Some replacement =>
          String.substring pos (start_pos c - pos) line +:+ replacement
          +:+ rewritten line (end_pos c) cs'
      | None => rewritten line pos cs'
      end
  end.

(** What an indented block emits for the lines of its body, when no
    transform raises: a blank line as it is, any other line transformed. *)
Fixpoint block_lines (body : list string) (uh : helpers) : list string * helpers :=
  match body with
  | [] => ([], uh)
  | line :: body' =>
      if String.eqb (strip line) EmptyString then
        let '(rest, uh) := block_lines body' uh in (line :: rest, uh)
      else
        match transform_line line uh with
        | (Returned transformed, uh) =>
            let '(rest, uh) := block_lines body' uh in ((transformed ++ rest)%list, uh)
        | (_, uh) => ([], uh)
        end
  end.

(** The spans of [cs] are inside a text of length [n], in increasing
    order from [pos] on, and do not overlap. *)
Fixpoint ordered_spans (n pos : nat) (cs : list construct) : Prop :=
  match cs with
  | [] => True
  | c :: cs' =>
      pos <= start_pos c /\ start_pos c <= end_pos c /\ end_pos c <= n
      /\ ordered_spans n (end_pos c) cs'
  end.

End Transformer.

(** ** The grammar table of constructs.py

    The patterns of [KindaPythonConstructs], with the part of Python's [re]
    they use: a backtracking matcher with greedy and lazy repetition,
    alternation in order, capture groups and [$]. *)

Module Grammar.

Inductive rx : Type :=
| Chr (p : ascii -> bool)
| End
| Eps
| Seq (a b : rx)
| Alt (a b : rx)
| Rep (greedy : bool) (r : rx)
| Grp (k : nat) (r : rx).

(** Spans of the groups matched so far, latest first. *)
Definition captures : Type := list (nat * (nat * nat)).

(** [run r rest pos caps k]: match [r] at offset [pos], where [rest] is
    the text from [pos] on, and continue with [k]; [None] makes the
    matcher backtrack.  A round of a repetition has to consume text. *)
Fixpoint run {A} (r : rx) (rest : string) (pos : nat) (caps : captures)
    (k : string -> nat -> captures -> option A) {struct r} : option A :=
  match r with
  | Chr p =>
      match rest with
      | String c rest' => if p c then k rest' (S pos) caps else None
      | EmptyString => None
      end
  | End =>
      if String.eqb rest EmptyString || String.eqb rest (String (ascii_of_nat 10) EmptyString)
      then k rest pos caps else None
  | Eps => k rest pos caps
  | Seq a b => run a rest pos caps (fun rest' pos' caps' => run b rest' pos' caps' k)
  | Alt a b =>
      match run a rest pos caps k with
      | Some x => Some x
      | None => run b rest pos caps k
      end
  | Rep greedy r1 =>
      (fix rounds (n : nat) (rest : string) (pos : nat) (caps : captures) : option A :=
         match n with
         | O => k rest pos caps
         | S n' =>
             let again :=
               run r1 rest pos caps
                 (fun rest' pos' caps' =>
                    if (pos' =? pos)%nat then None else rounds n' rest' pos' caps') in
             if greedy then
               match again with
               | Some x => Some x
               | None => k rest pos caps
               end
             else
               match k rest pos caps with
               | Some x => Some x
               | None => again
               end
         end) (String.length rest) rest pos caps
  | Grp i r1 =>
      run r1 rest pos caps (fun rest' pos' caps' => k rest' pos' ((i, (pos, pos')) :: caps'))
  end.

(** [pattern.match(s, pos)]: the end offset and the groups. *)
Definition match_at (r : rx) (s : string) (pos : nat) : option (nat * captures) :=
  run r (slice_from pos s) pos [] (fun _ e caps => Some (e, caps)).

Fixpoint span_of (caps : captures) (k : nat) : option (nat * nat) :=
  match caps with
  | [] => None
  | (i, sp) :: caps' => if (i =? k)%nat then Some sp else span_of caps' k
  end.

(** [match.group(k)] *)
Definition group_text (s : string) (caps : captures) (k : nat) : option string :=
  match span_of caps k with
  | Some (a, b) => Some (String.substring a (b - a) s)
  | None => None
  end.

(** [match.groups()] of a pattern with [n] groups *)
Definition groups_of (s : string) (caps : captures) (n : nat) : list (option string) :=
  map (fun k => group_text s caps (S k)) (seq 0 n).

(** [pattern.search(s, pos)]: the leftmost match starting at [pos] or
    later, tried at [tries] offsets. *)
Fixpoint search_from (tries : nat) (r : rx) (s : string) (pos : nat)
  : option (nat * nat * captures) :=
  match tries with
  | O => None
  | S tries' =>
      match match_at r s pos with
      | Some (e, caps) => Some (pos, e, caps)
      | None => search_from tries' r s (S pos)
      end
  end.

(** [pattern.finditer(s)], for a pattern that matches no empty text. *)
Fixpoint finditer_from (fuel : nat) (r : rx) (s : string) (pos : nat)
  : list (nat * nat * captures) :=
  match fuel with
  | O => []
  | S fuel' =>
      match search_from (S (String.length s) - pos) r s pos with
      | Some (a, e, caps) =>
          (a, e, caps) :: finditer_from fuel' r s (if (e =? a)%nat then S e else e)
      | None => []
      end
  end.

Definition finditer (r : rx) (s : string) : list (nat * nat * captures) :=
  finditer_from (S (String.length s)) r s 0.

(** *** Pattern syntax *)

Fixpoint lit (s : string) : rx :=
  match s with
  | EmptyString => Eps
  | String c s' => Seq (Chr (Ascii.eqb c)) (lit s')
  end.

Definition star (r : rx) : rx := Rep true r.
Definition plus (r : rx) : rx := Seq r (Rep true r).
Definition lazy_plus (r : rx) : rx := Seq r (Rep false r).
Definition opt (r : rx) : rx := Alt r Eps.

Fixpoint seqs (l : list rx) : rx :=
  match l with
  | [] => Eps
  | [r] => r
  | r :: l' => Seq r (seqs l')
  end.

Definition code (c : ascii) : nat := nat_of_ascii c.

Definition between (lo hi : nat) (c : ascii) : bool :=
  ((lo <=? code c) && (code c <=? hi))%nat.

Definition is_digit (c : ascii) : bool := between 48 57 c.

Definition is_ident_start (c : ascii) : bool :=
  between 97 122 c || between 65 90 c || (code c =? 95)%nat.

(** [\w] on code points below 256: [str.isalnum] or underscore. *)
Definition is_word (c : ascii) : bool :=
  is_ident_start c || is_digit c
  || (code c =? 170)%nat || (code c =? 181)%nat || (code c =? 186)%nat
  || between 178 179 c || (code c =? 185)%nat || between 188 190 c
  || between 192 214 c || between 216 246 c || between 248 255 c.

Definition one_of (s : string) (c : ascii) : bool :=
  existsb (Ascii.eqb c) (list_ascii_of_string s).

Definition none_of (s : string) (c : ascii) : bool := negb (one_of s c).

Definition w : rx := Chr is_word.
Definition d : rx := Chr is_digit.
Definition sp : rx := Chr isspace.
Definition dot : rx := Chr (fun c => negb (code c =? 10)%nat).

(** The tail shared by several patterns: an optional comment (blanks, a
    hash sign and the rest of the line), then a semicolon or [$]. *)
Definition comment_tail : rx :=
  Seq (opt (seqs [star sp; lit "#"; star dot])) (Alt (lit ";") End).

(** An identifier: a letter or underscore, then word characters *)
Definition ident : rx := Seq (Chr is_ident_start) (star w).

(** Identifiers separated by dots *)
Definition dotted_name : rx := Seq ident (star (Seq (lit ".") ident)).

(** The ["pattern"] entries of [KindaPythonConstructs], each with its
    number of groups. *)
Definition kinda_int : rx * nat :=
  (seqs [lit "~kinda int "; Grp 1 (plus w); star sp; plus (Chr (one_of "~="));
         star sp; Grp 2 (lazy_plus (Chr (none_of "#;"))); comment_tail], 2).

Definition sorta_print : rx * nat :=
  (seqs [lit "~sorta print"; star sp; lit "("; Grp 1 (star dot); lit ")";
         star sp; Alt (lit ";") End], 1).

Definition sometimes : rx * nat :=
  (seqs [lit "~sometimes"; star sp; lit "("; Grp 1 (star (Chr (none_of ")")));
         lit ")"; star sp; opt (lit "{")], 1).

Definition maybe : rx * nat :=
  (seqs [lit "~maybe"; star sp; lit "("; Grp 1 (star (Chr (none_of ")")));
         lit ")"; star sp; opt (lit "{")], 1).

Definition fuzzy_reassign : rx * nat :=
  (seqs [Grp 1 (plus w); star sp; lit "~="; star sp;
         Grp 2 (lazy_plus (Chr (none_of "#;"))); comment_tail], 2).

Definition kinda_binary : rx * nat :=
  (seqs [lit "~kinda"; plus sp; lit "binary"; plus sp; Grp 1 (plus w);
         opt (seqs [star sp; lit "~"; star sp; lit "probabilities"; star sp; lit "(";
                    Grp 2 (plus (Chr (none_of ")"))); lit ")"]);
         Alt (lit ";") End], 2).

Definition ish_value : rx * nat :=
  (seqs [Grp 1 (Seq (plus d) (opt (Seq (lit ".") (plus d)))); lit "~ish"], 1).

Definition ish_comparison : rx * nat :=
  (seqs [Grp 1 (plus w); star sp; lit "~ish"; star sp;
         Grp 2 (plus (Chr (fun c => none_of "#;" c && negb (isspace c))))], 2).

Definition welp : rx * nat :=
  (seqs [Grp 1 (plus dot); star sp; lit "~welp"; star sp; Grp 2 (plus dot)], 2).

Definition kinda_import : rx * nat :=
  (seqs [lit "~kinda import"; plus sp; Grp 1 dotted_name;
         opt (seqs [plus sp; lit "as"; plus sp; Grp 2 ident]); comment_tail], 2).

Definition maybe_import : rx * nat :=
  (seqs [lit "~maybe import"; plus sp; Grp 1 dotted_name;
         opt (seqs [plus sp; lit "as"; plus sp; Grp 2 ident]);
         opt (seqs [star sp; lit "~welp"; plus sp; Grp 3 (lazy_plus dot)]);
         comment_tail], 3).

End Grammar.

(** ** Sample matchers

    The theorems below hold for every choice of the three matcher
    functions.  To run the transformer on concrete lines, this module gives
    one choice, built from the patterns of the grammar table. *)

Module Matchers.

Import Grammar.

(** Modelled from the spec: matchers.py is not among the sources.  The
    constructs that can head a line, in the precedence order of section
    4.1 (imports, typed declarations, conditionals, then the generic
    reassignment, the fallback last); the approximate-value and
    approximate-comparison constructs are inline only. *)
Definition precedence : list (string * (rx * nat)) :=
  [("kinda_import", kinda_import); ("maybe_import", maybe_import);
   ("kinda_int", kinda_int); ("kinda_binary", kinda_binary);
   ("sorta_print", sorta_print); ("sometimes", sometimes); ("maybe", maybe);
   ("fuzzy_reassign", fuzzy_reassign); ("welp", welp)].

Fixpoint first_match (table : list (string * (rx * nat))) (line : string) : header :=
  match table with
  | [] => None
  | (key, (pattern, n)) :: table' =>
      match match_at pattern line 0 with
      | Some (_, caps) => Some (key, groups_of line caps n)
      | None => first_match table' line
      end
  end.

(** Modelled from the spec: matchers.py is not among the sources.  Section
    4.2: the patterns are tried in precedence order at the start of the
    line, the first match is returned with its groups as captured. *)
Definition match_python_construct (line : string) : header :=
  first_match precedence line.

Definition found (kind : string) (p : rx * nat) (line : string) : list construct :=
  map (fun '(a, e, caps) =>
         Construct kind (default EmptyString <$> groups_of line caps p.2) a e)
      (finditer p.1 line).

Definition starts_inside (cs : list construct) (c : construct) : bool :=
  existsb (fun v => (start_pos v <=? start_pos c)%nat && (start_pos c <? end_pos v)%nat) cs.

Fixpoint insert_by_start (c : construct) (cs : list construct) : list construct :=
  match cs with
  | [] => [c]
  | c' :: cs' =>
      if (start_pos c <=? start_pos c')%nat then c :: cs
      else c' :: insert_by_start c cs'
  end.

(** Modelled from the spec: matchers.py is not among the sources.  Section
    4.3: the line is scanned for approximate-value and approximate-comparison
    sub-expressions, listed by position; a comparison match that starts
    inside a value match is the value seen again and is dropped. *)
Definition find_ish_constructs (line : string) : list construct :=
  let values := found "ish_value" ish_value line in
  let comparisons :=
    filter (fun c => starts_inside values c = false) (found "ish_comparison" ish_comparison line) in
  foldr insert_by_start values comparisons.

(** Modelled from the spec: matchers.py is not among the sources.  Section
    4.3: the fallback sub-expressions of the line. *)
Definition find_welp_constructs (line : string) : list construct :=
  found "welp" welp line.

(** The transformer with these matchers. *)
Definition run_ish : string -> helpers -> string * helpers :=
  _transform_ish_constructs find_ish_constructs.

Definition run_line : string -> M (list string) :=
  transform_line match_python_construct find_ish_constructs find_welp_constructs.

Definition run_file : string -> string -> M string :=
  transform_file match_python_construct find_ish_constructs find_welp_constructs.

End Matchers.

(** ** semantics.py: direct execution *)

Module Semantics.

Section Interpreter.

(** Python floats and [value + n] for an integer [n] on them. *)
Variable pyfloat : Type.
Variable float_add : pyfloat -> Z -> pyfloat.

(** The values an expression of the dialect evaluates to. *)
Inductive pyval : Type :=
| PyNone
| PyBool (b : bool)
| PyInt (z : Z)
| PyFloat (f : pyfloat)
| PyStr (s : string).

(** The module-level dictionary [env]. *)
Definition environment : Type := gmap string pyval.

(** Python's [eval(expr, {"__builtins__": {}}, env)]: the value, or
    [None] when an exception is raised, and [env] afterwards.  The
    dictionary is passed as the local namespace, which the evaluation of
    an assignment expression writes to. *)
Variable py_eval : string -> environment -> option pyval * environment.

Definition dangerous_keywords : list string :=
  ["import"; "exec"; "eval"; "open"; "__"].

(** [evaluate]: the returned value ([PyNone] for Python's [None]) and
    [env] afterwards.  The diagnostics printed are left out. *)
Definition evaluate (expr : pyval) (env : environment) : pyval * environment :=
  match expr with
  | PyStr text =>
      if any_in dangerous_keywords text then (PyNone, env)
      else
        match py_eval text env with
        | (Some value, env') => (value, env')
        | (None, env') => (PyNone, env')
        end
  | _ => (PyNone, env)
  end.

(** [isinstance(value, (int, float))], [bool] being a subclass of
    [int], and [value + noise] *)
Definition add_noise (value : pyval) (noise : Z) : pyval :=
  match value with
  | PyBool b => PyInt (Z.b2z b + noise)
  | PyInt z => PyInt (z + noise)
  | PyFloat f => PyFloat (float_add f noise)
  | _ => value
  end.

(** [kinda_assign]; [noise] is the draw [random.choice([-1, 0, 1])]. *)
Definition kinda_assign (var : string) (expr : pyval) (noise : Z)
    (env : environment) : environment :=
  let '(value, env) := evaluate expr env in
  match value with
  | PyNone => env
  | _ => <[var := add_noise value noise]> env
  end.

(** The expression never reaches [eval]: it is not a string, or it holds a
    dangerous keyword. *)
Definition blocked (expr : pyval) : Prop :=
  match expr with
  | PyStr text => any_in dangerous_keywords text = true
  | _ => True
  end.

End Interpreter.

Arguments PyNone {pyfloat}.
Arguments PyBool {pyfloat} b.
Arguments PyInt {pyfloat} z.
Arguments PyStr {pyfloat} s.
Arguments PyFloat {pyfloat} f.
Arguments evaluate {pyfloat} py_eval expr env.
Arguments add_noise {pyfloat} float_add value noise.
Arguments kinda_assign {pyfloat} float_add py_eval var expr noise env.
Arguments blocked {pyfloat} expr.

(** Python's [eval] is not part of the repository, and the statements hold
    for every evaluator.  To run [kinda_assign] on a concrete expression,
    this is the evaluation of one form of expression, the assignment
    expression [(NAME := None)]: its value is [None] and it binds [NAME] in
    the local namespace.  Every other text is taken to raise. *)
Definition is_identifier (name : string) : bool :=
  match name with
  | EmptyString => false
  | String c rest =>
      Grammar.is_ident_start c && forallb Grammar.is_word (list_ascii_of_string rest)
  end.

Definition eval_assignment_expression {pyfloat} (text : string)
    (env : environment pyfloat) : option (pyval pyfloat) * environment pyfloat :=
  if startswith "(" text && endswith " := None)" text then
    let name := slice_to (len text - 10) (slice_from 1 text) in
    if is_identifier name then (Some PyNone, <[name := PyNone]> env)
    else (None, env)
  else (None, env).

End Semantics.

(** ** Vocabulary of the further statements *)

(** The names that the transformer passes to [used_helpers.add]. *)
Definition known_helpers : helpers :=
  list_to_set
    ["ish_value"; "ish_comparison"; "welp_fallback"; "kinda_int"; "kinda_binary";
     "sorta_print"; "sometimes"; "maybe"; "fuzzy_assign"; "kinda_import"; "maybe_import"].

(** [ends m P E]: from every helper set, [m] does not run out of rounds,
    returns only values that satisfy [P] and raises only exceptions that
    satisfy [E]. *)
Definition ends {A} (m : M A) (P : A -> Prop) (E : exn -> Prop) : Prop :=
  forall uh,
    match (m uh).1 with
    | Returned a => P a
    | Raised e => E e
    | OutOfFuel => False
    end.

(** [registers K m]: [m] adds to the helper set names of [K] only. *)
Definition registers {A} (K : helpers) (m : M A) : Prop :=
  forall uh, (m uh).2 ⊆ uh ∪ K.

Definition is_attribute_error (e : exn) : Prop := exists on, e = AttributeError on.

(** The errors of [transform_file]: a [KindaParseError] for a failed
    transform, with the number (from 1) and the text of a line of the
    file. *)
Definition is_transform_error (lines : list string) (e : exn) : Prop :=
  exists cause line_number line,
    e = KindaParseError (Because "Transform failed: " cause) line_number line
    /\ 1 <= line_number
    /\ lines !! (line_number - 1) = Some line.

(** The first group of a construct is there when the construct has groups,
    and so is the second group of the fallback construct. *)
Definition mandatory_groups (key : string) (groups : list (option string)) : Prop :=
  groups !! 0 <> Some None /\ (key = "welp" -> groups !! 1 <> Some None).

(** A line of a brace block that is not a closing brace, a nested header or
    a line opening another brace: a blank line, a comment, or a line for
    [transform_line]. *)
Definition plain_in_braces (line : string) : Prop :=
  strip line <> "}"
  /\ (strip line = EmptyString
      \/ startswith "#" (strip line) = true
      \/ (is_conditional_header (strip line) = false
          /\ endswith "{" (strip line) = false)).

Section FurtherVocabulary.

Variable match_python_construct : string -> header.
Variable find_ish_constructs : string -> list construct.
Variable find_welp_constructs : string -> list construct.

(** The call that replaces the fallback construct [c]: both sides
    stripped and with their approximate constructs rewritten.  A construct
    of another type, or without its two groups, is skipped. *)
Definition welp_replacement (c : construct) : option string :=
  if String.eqb (construct_type c) "welp" then
    match group c 1, group c 2 with
    | Some g1, Some g2 =>
        Some ("welp_fallback(lambda: "
              +:+ (_transform_ish_constructs find_ish_constructs (strip g1) ∅).1 +:+ ", "
              +:+ (_transform_ish_constructs find_ish_constructs (strip g2) ∅).1 +:+ ")")
    | _, _ => None
    end
  else None.

(** The text [line] with each fallback construct of [cs] that is not
    skipped replaced at its own offsets, from offset [pos] on. *)
Fixpoint welp_rewritten (line : string) (pos : nat) (cs : list construct) : string :=
  match cs with
  | [] => slice_from pos line
  | c :: cs' =>
      match welp_replacement c with
      | Some replacement =>
          String.substring pos (start_pos c - pos) line +:+ replacement
          +:+ welp_rewritten line (end_pos c) cs'
      | None => welp_rewritten line pos cs'
      end
  end.

(** A top-level line without anything to transform: a blank line, a
    comment, or a line that is no conditional header, heads no construct
    and holds no inline construct. *)
Definition plain_line (line : string) : Prop :=
  blank line = true
  \/ startswith "#" (strip line) = true
  \/ (is_conditional_header (strip line) = false
      /\ main_construct (match_python_construct (strip line)) = None
      /\ find_ish_constructs line = []
      /\ find_welp_constructs line = []).

End FurtherVocabulary.

(** What [transform_line] returns for a plain line: a blank line loses
    its white space, any other line is kept. *)
Definition kept (line : string) : string :=
  if blank line then EmptyString else line.

(** To run [kinda_assign] on an expression with a value, this is the
    evaluation of two more forms of expression: the literals [True] and
    [False], and a decimal integer literal without sign, which has no
    leading zero unless it is [0].  Every other text is taken to raise. *)
Definition digit_value (c : ascii) : Z := Z.of_nat (nat_of_ascii c) - 48.

Definition decimal_value (text : string) : Z :=
  fold_left (fun acc c => (10 * acc + digit_value c)%Z) (list_ascii_of_string text) 0%Z.

Definition is_decimal_literal (text : string) : bool :=
  match text with
  | EmptyString => false
  | String c rest =>
      forallb Grammar.is_digit (list_ascii_of_string text)
      && (negb (Ascii.eqb c "0") || String.eqb rest EmptyString)
  end.

Definition eval_literal {pyfloat} (text : string) (env : Semantics.environment pyfloat)
  : option (Semantics.pyval pyfloat) * Semantics.environment pyfloat :=
  if String.eqb text "True" then (Some (Semantics.PyBool true), env)
  else if String.eqb text "False" then (Some (Semantics.PyBool false), env)
  else if is_decimal_literal text then (Some (Semantics.PyInt (decimal_value text)), env)
  else (None, env).

(** ** The name of the output file in [transform]

    [input_path.name] is the last component of the path, a text; [stem] is
    [PurePath.stem] of pathlib: the name without its last suffix, where a
    dot at the start or at the end of the name starts no suffix. *)

(** [s.rfind(d)] for a one-character [d]; [None] is -1. *)
Fixpoint rfind (d : ascii) (s : string) : option nat :=
  match s with
  | EmptyString => None
  | String c s' =>
      match rfind d s' with
      | Some i => Some (S i)
      | None => if Ascii.eqb c d then Some 0 else None
      end
  end.

Definition stem (name : string) : string :=
  match rfind "." name with
  | Some i => if (0 <? i)%nat && (i <? len name - 1)%nat then slice_to i name else name
  | None => name
  end.

(** [new_name] in both branches of [transform]. *)
Definition new_name (name : string) : string :=
  if endswith ".py.knda" name then replace ".py.knda" ".py" name
  else stem name +:+ ".py".

(** ** cli.py: [detect_language]

    [path] is [str(path)], and [forced] the value of [--lang]. *)
Definition detect_language (path : string) (forced : option string) : string :=
  if truthy forced then fmt forced
  else
    let name := path in
    if endswith ".py.knda" name || endswith ".py" name then "python"
    else "python".


(** *** [transform_file], from the path

    The first statements of [transform_file] read the file inside
    [try], with one [except] clause for [UnicodeDecodeError] and one for
    [OSError].  [safe_read_file] is not among the sources: what it does
    is an input here, the text it returned or the message [str(e)] of the
    exception caught by one of the two clauses. *)
Inductive read_outcome : Type :=
| ReadText (content : string)
| ReadUnicodeDecodeError (e : string)
| ReadOSError (e : string).

Section TransformerOfPath.

Variable match_python_construct : string -> header.
Variable find_ish_constructs : string -> list construct.
Variable find_welp_constructs : string -> list construct.

Definition transform_file_of_path (read : read_outcome) (target_language : string)
  : M string :=
  match read with
  | ReadText content =>
      transform_file match_python_construct find_ish_constructs find_welp_constructs
        content target_language
  | ReadUnicodeDecodeError e =>
      raise (KindaParseError (Text ("File encoding issue - try saving as UTF-8: " +:+ e))
               0 EmptyString)
  | ReadOSError e =>
      raise (KindaParseError (Text ("Cannot read file: " +:+ e)) 0 EmptyString)
  end.

End TransformerOfPath.

(** The errors of [transform_file] for a file that could not be read:
    line number 0 and no line text. *)
Definition is_read_error (read : read_outcome) (e : exn) : Prop :=
  (exists msg, read = ReadUnicodeDecodeError msg
     /\ e = KindaParseError (Text ("File encoding issue - try saving as UTF-8: " +:+ msg))
              0 EmptyString)
  \/ (exists msg, read = ReadOSError msg
        /\ e = KindaParseError (Text ("Cannot read file: " +:+ msg)) 0 EmptyString).

(** A block moves forward, stays inside the file, and emits at most one
    line for each line it takes. *)
Definition block_progress (lines_end i : nat) (output_lines : list string)
    (r : nat * list string) : Prop :=
  i <= r.1 /\ r.1 <= lines_end /\ length r.2 + i <= length output_lines + r.1.

(** ** constructs.py: the runtime function [kinda_binary]

    The ["body"] entry of [kinda_binary] in [KindaPythonConstructs], on
    weights that are Python floats: binary64 numbers, as the primitive
    floats are.  [rand] is the draw [random.random()] and [choice] the draw
    [random.choice([-1, 0, 1])] of the [except] clause.
    [chaos_binary_probabilities] and [update_chaos_state] belong to the
    personality module, which is not among the sources: the weights of
    the first are an input, and the second, which returns nothing, is left
    out. *)

Module Runtime.

Inductive raised : Type := ZeroDivisionError.

(** What a statement inside [try] comes to. *)
Inductive attempt (A : Type) : Type :=
| Done (a : A)
| Failed (e : raised).

Arguments Done {A} a.
Arguments Failed {A} e.

(** The literal [0.01]: the binary64 number nearest to it. *)
Definition tolerance : float := 0x1.47ae147ae147bp-7%float.

(** [x / y] on floats: a divisor that equals zero raises. *)
Definition true_div (x y : float) : attempt float :=
  if PrimFloat.eqb y 0%float then Failed ZeroDivisionError
  else Done (PrimFloat.div x y).

(** The validation of the probabilities: the three weights after it. *)
Definition normalize (pos_prob neg_prob neutral_prob : float)
  : attempt (float * float * float) :=
  let total_prob := PrimFloat.add (PrimFloat.add pos_prob neg_prob) neutral_prob in
  if PrimFloat.ltb tolerance (PrimFloat.abs (PrimFloat.sub total_prob 1%float)) then
    match true_div pos_prob total_prob with
    | Failed e => Failed e
    | Done pos_prob =>
        match true_div neg_prob total_prob with
        | Failed e => Failed e
        | Done neg_prob =>
            match true_div neutral_prob total_prob with
            | Failed e => Failed e
            | Done neutral_prob => Done (pos_prob, neg_prob, neutral_prob)
            end
        end
    end
  else Done (pos_prob, neg_prob, neutral_prob).

(** The choice of the result by [rand]. *)
Definition draw (rand pos_prob neg_prob : float) : Z :=
  if PrimFloat.ltb rand pos_prob then 1%Z
  else if PrimFloat.ltb rand (PrimFloat.add pos_prob neg_prob) then (-1)%Z
  else 0%Z.

Definition kinda_binary (pos_prob neg_prob neutral_prob : option float)
    (chaos_binary_probabilities : float * float * float) (rand : float) (choice : Z) : Z :=
  let '(pos_prob, neg_prob, neutral_prob) :=
    match pos_prob, neg_prob, neutral_prob with
    | Some p, Some n, Some u => (p, n, u)
    | _, _, _ => chaos_binary_probabilities
    end in
  match normalize pos_prob neg_prob neutral_prob with
  | Done (pos_prob, neg_prob, _) => draw rand pos_prob neg_prob
  | Failed _ => choice
  end.

(** The weights that are multiples of 1/16, from 0 to 2. *)
Fixpoint grid_from (count : nat) (x : float) : list float :=
  match count with
  | O => []
  | S count' => x :: grid_from count' (PrimFloat.add x 0x1p-4%float)
  end.

Definition grid : list float := grid_from 33 0%float.

(** [x] and [y] differ by less than 2 to the power -50. *)
Definition near (x y : float) : bool :=
  PrimFloat.ltb (PrimFloat.abs (PrimFloat.sub x y)) 0x1p-50%float.

Definition sums_to_one (w : float * float * float) : bool :=
  let '(p, n, u) := w in near (PrimFloat.add (PrimFloat.add p n) u) 1%float.

(** The weights [w] are in the ratios of [p], [n] and [u]: the cross
    products agree. *)
Definition same_ratios (p n u : float) (w : float * float * float) : bool :=
  let '(p', n', u') := w in
  near (PrimFloat.mul p' n) (PrimFloat.mul n' p)
  && near (PrimFloat.mul n' u) (PrimFloat.mul u' n)
  && near (PrimFloat.mul p' u) (PrimFloat.mul u' p).

(** The check of one triple of weights, and of every triple of the grid. *)
Definition normalized_well (p n u : float) : bool :=
  PrimFloat.eqb (PrimFloat.add (PrimFloat.add p n) u) 0%float
  || match normalize p n u with
     | Done w => sums_to_one w && same_ratios p n u w
     | Failed _ => false
     end.

Definition grid_normalized_well : bool :=
  forallb (fun p => forallb (fun n => forallb (normalized_well p n) grid) grid) grid.

End Runtime.


(** * Properties *)

(** ** Strings *)

Module PyStrFacts.

Lemma sapp_cons (x : ascii) (a b : string) : String x a +:+ b = String x (a +:+ b).
Proof. reflexivity. Qed.

Lemma sapp_nil_l (a : string) : EmptyString +:+ a = a.
Proof. reflexivity. Qed.

Ltac str_simpl := repeat (rewrite ?sapp_cons, ?sapp_nil_l; simpl).

Lemma sapp_assoc (a b c : string) : (a +:+ b) +:+ c = a +:+ (b +:+ c).
Proof. induction a as [|x a IH]; str_simpl; [reflexivity | now rewrite IH]. Qed.

Lemma sapp_nil_r (a : string) : a +:+ EmptyString = a.
Proof. induction a as [|x a IH]; str_simpl; [reflexivity | now rewrite IH]. Qed.

Lemma sapp_eq_nil (a b : string) :
  a +:+ b = EmptyString -> a = EmptyString /\ b = EmptyString.
Proof.
  destruct a; [rewrite sapp_nil_l; now intros -> | rewrite sapp_cons; discriminate].
Qed.

Lemma sapp_eq_cons (a b : string) (c : ascii) (s : string) :
  a +:+ b = String c s ->
  (a = EmptyString /\ b = String c s) \/ (exists a', a = String c a' /\ s = a' +:+ b).
Proof.
  destruct a as [|x a]; [rewrite sapp_nil_l; now left|].
  rewrite sapp_cons. intros H. injection H as -> <-. right. now exists a.
Qed.

Lemma len_app (a b : string) : len (a +:+ b) = len a + len b.
Proof.
  unfold len. induction a as [|x a IH]; str_simpl; [reflexivity | now rewrite IH].
Qed.

Lemma slice_to_from (n : nat) (s : string) : slice_to n s +:+ slice_from n s = s.
Proof.
  revert s. induction n as [|n IH]; intros [|c s]; str_simpl; try reflexivity.
  now rewrite IH.
Qed.

Lemma slice_to_app (a b : string) : slice_to (len a) (a +:+ b) = a.
Proof.
  induction a as [|x a IH]; str_simpl.
  - now destruct b.
  - now rewrite IH.
Qed.

Lemma slice_from_app (a b : string) : slice_from (len a) (a +:+ b) = b.
Proof. induction a as [|x a IH]; str_simpl; [reflexivity | exact IH]. Qed.

Lemma slice_to_app_le (n : nat) (a b : string) :
  n <= len a -> slice_to n (a +:+ b) = slice_to n a.
Proof.
  revert a. induction n as [|n IH]; intros a Hn.
  - destruct a; str_simpl; [now destruct b | reflexivity].
  - destruct a as [|x a]; unfold len in *; simpl in Hn; [lia|].
    str_simpl. rewrite IH; [reflexivity | unfold len; lia].
Qed.

Lemma slice_to_all (n : nat) (s : string) : len s <= n -> slice_to n s = s.
Proof.
  revert s. induction n as [|n IH]; intros [|c s] Hn; unfold len in *; simpl in *;
    try reflexivity; try lia.
  rewrite IH; [reflexivity | unfold len; lia].
Qed.

Lemma blank_app (a b : string) : blank (a +:+ b) = blank a && blank b.
Proof.
  induction a as [|x a IH]; str_simpl; [reflexivity|].
  rewrite IH. now destruct (isspace x).
Qed.

(** [lstrip] removes a blank prefix, whose length is [indent_of]. *)
Lemma lstrip_len (s : string) : len (lstrip s) <= len s.
Proof.
  unfold len. induction s as [|c s IH]; simpl; [lia|].
  destruct (isspace c); simpl; lia.
Qed.

Lemma lstrip_split (s : string) :
  s = slice_to (len s - len (lstrip s)) s +:+ lstrip s
  /\ blank (slice_to (len s - len (lstrip s)) s) = true.
Proof.
  induction s as [|c s [IH1 IH2]]; [split; reflexivity|].
  simpl lstrip. destruct (isspace c) eqn:Hc.
  - pose proof (lstrip_len s) as Hl. unfold len in *. simpl String.length.
    replace (S (String.length s) - String.length (lstrip s))
      with (S (String.length s - String.length (lstrip s))) by lia.
    str_simpl. rewrite Hc. split; [now rewrite <- IH1 | exact IH2].
  - unfold len. rewrite Nat.sub_diag. split; reflexivity.
Qed.

Lemma lstrip_head (s : string) :
  match lstrip s with
  | String c _ => isspace c = false
  | EmptyString => True
  end.
Proof.
  induction s as [|c s IH]; simpl; [exact I|].
  destruct (isspace c) eqn:Hc; [exact IH | exact Hc].
Qed.

Lemma rstrip_split (s : string) :
  exists t, s = rstrip s +:+ t /\ blank t = true.
Proof.
  induction s as [|c s [t [IH1 IH2]]]; simpl.
  - exists EmptyString. split; reflexivity.
  - destruct (rstrip s) as [|r0 r] eqn:Hr.
    + rewrite sapp_nil_l in IH1. subst t.
      destruct (isspace c) eqn:Hc.
      * exists (String c s). simpl. rewrite Hc. split; [reflexivity | exact IH2].
      * exists s. split; [reflexivity | exact IH2].
    + exists t. split; [|exact IH2]. rewrite sapp_cons. now rewrite <- IH1.
Qed.

Lemma rstrip_head (c : ascii) (s : string) :
  isspace c = false ->
  match rstrip (String c s) with
  | String c' _ => c' = c
  | EmptyString => False
  end.
Proof.
  intros Hc. simpl. destruct (rstrip s); [now rewrite Hc | reflexivity].
Qed.

Lemma strip_split (line : string) :
  line = leading line +:+ strip line +:+ trailing line
  /\ blank (leading line) = true /\ blank (trailing line) = true.
Proof.
  unfold leading, trailing, strip, indent_of.
  destruct (lstrip_split line) as [H1 H2].
  destruct (rstrip_split (lstrip line)) as [t [H3 H4]].
  assert (Ht : slice_from (len (rstrip (lstrip line))) (lstrip line) = t).
  { rewrite H3 at 2. apply slice_from_app. }
  rewrite Ht. split; [|split; [exact H2 | exact H4]].
  rewrite <- H3. exact H1.
Qed.

Lemma strip_head (line : string) :
  match strip line with
  | String c _ => isspace c = false
  | EmptyString => True
  end.
Proof.
  unfold strip. pose proof (lstrip_head line) as H.
  destruct (lstrip line) as [|c l]; [exact I|].
  pose proof (rstrip_head c l H) as H'.
  destruct (rstrip (String c l)); [exact I | now subst].
Qed.

Lemma blank_strip (s : string) : blank s = true -> strip s = EmptyString.
Proof.
  unfold strip. induction s as [|c s IH]; simpl; [reflexivity|].
  intros H. apply andb_true_iff in H as [Hc Hs]. rewrite Hc. now apply IH.
Qed.

(** *** [startswith] and [in] *)

Lemma prefix_cons (x y : ascii) (p s : string) :
  String.prefix (String x p) (String y s) = (if ascii_dec x y then String.prefix p s else false).
Proof. simpl. now destruct (ascii_dec x y). Qed.

Lemma startswith_spec (p s : string) :
  startswith p s = true <-> exists t, s = p +:+ t.
Proof.
  unfold startswith. revert s. induction p as [|x p IH]; intros s.
  - split; [intros _; exists s; reflexivity | intros _; now destruct s].
  - destruct s as [|y s].
    + split; [discriminate | intros [t Ht]; rewrite sapp_cons in Ht; discriminate].
    + rewrite prefix_cons. destruct (ascii_dec x y) as [->|Hne].
      * rewrite IH. split; intros [t Ht]; exists t.
        -- now rewrite sapp_cons, Ht.
        -- rewrite sapp_cons in Ht. now injection Ht.
      * split; [discriminate|]. intros [t Ht]. rewrite sapp_cons in Ht.
        injection Ht as Hxy _. now symmetry in Hxy.
Qed.

Lemma startswith_app (p t : string) : startswith p (p +:+ t) = true.
Proof. apply startswith_spec. now exists t. Qed.

Lemma str_in_nil (sub : string) : str_in sub EmptyString = startswith sub EmptyString.
Proof. unfold startswith. simpl. apply orb_false_r. Qed.

Lemma str_in_cons (sub : string) (c : ascii) (s : string) :
  str_in sub (String c s) = startswith sub (String c s) || str_in sub s.
Proof. reflexivity. Qed.

Lemma str_in_spec (sub s : string) :
  str_in sub s = true <-> exists a b, s = a +:+ sub +:+ b.
Proof.
  induction s as [|c s IH].
  - rewrite str_in_nil, startswith_spec. split.
    + intros [t Ht]. exists EmptyString, t. exact Ht.
    + intros [a [b Hab]]. destruct a; [now exists b|].
      rewrite sapp_cons in Hab. discriminate.
  - rewrite str_in_cons, orb_true_iff, startswith_spec, IH. split.
    + intros [[t Ht] | [a [b Hab]]].
      * exists EmptyString, t. exact Ht.
      * exists (String c a), b. now rewrite sapp_cons, Hab.
    + intros [a [b Hab]]. destruct a as [|x a].
      * left. now exists b.
      * right. rewrite sapp_cons in Hab. injection Hab as _ Hs. now exists a, b.
Qed.

(** *** [replace] on the stripped text of a line *)

Lemma replace_from_blank (c : ascii) (core new lead rest : string) :
  isspace c = false -> blank lead = true ->
  replace_from (String c core) new 0 (lead +:+ rest)
  = lead +:+ replace_from (String c core) new 0 rest.
Proof.
  intros Hc. induction lead as [|x lead IH]; intros Hb; [reflexivity|].
  simpl in Hb. apply andb_true_iff in Hb as [Hx Hb].
  rewrite !sapp_cons. cbn [replace_from]. rewrite prefix_cons.
  destruct (ascii_dec c x) as [->|_]; [congruence|].
  now rewrite IH.
Qed.

Lemma replace_from_skip (old new x rest : string) :
  replace_from old new (len x) (x +:+ rest) = replace_from old new 0 rest.
Proof.
  induction x as [|c x IH]; [now destruct rest|].
  rewrite sapp_cons. exact IH.
Qed.

Lemma replace_from_occurrence (c : ascii) (core new rest : string) :
  replace_from (String c core) new 0 (String c core +:+ rest)
  = new +:+ replace_from (String c core) new 0 rest.
Proof.
  pose proof (startswith_app (String c core) rest) as Hp.
  unfold startswith in Hp. rewrite sapp_cons in *. cbn [replace_from].
  rewrite Hp. f_equal.
  replace (len (String c core) - 1) with (len core)
    by (unfold len; simpl; lia).
  apply replace_from_skip.
Qed.

(** Replacing the stripped text of a line inside the line keeps the white
    space around it. *)
Lemma replace_stripped (line new : string) :
  strip line <> EmptyString ->
  replace (strip line) new line = leading line +:+ new +:+ trailing line.
Proof.
  intros Hne. destruct (strip_split line) as [Hsplit [Hlead Htrail]].
  pose proof (strip_head line) as Hhead.
  destruct (strip line) as [|c core] eqn:Hs; [congruence|].
  unfold replace. rewrite Hsplit at 1.
  rewrite replace_from_blank by assumption.
  rewrite replace_from_occurrence.
  rewrite <- (sapp_nil_r (trailing line)) at 1.
  rewrite replace_from_blank by assumption.
  now rewrite sapp_nil_r.
Qed.

(** *** [strip] is idempotent *)

Lemma rstrip_app_nonblank (a : string) (c : ascii) :
  isspace c = false -> rstrip (a +:+ String c EmptyString) = a +:+ String c EmptyString.
Proof.
  intros Hc. induction a as [|x a IH]; str_simpl.
  - now rewrite Hc.
  - rewrite IH. destruct a; reflexivity.
Qed.

Lemma rstrip_last (s : string) :
  rstrip s = EmptyString
  \/ exists a c, rstrip s = a +:+ String c EmptyString /\ isspace c = false.
Proof.
  induction s as [|x s IH]; simpl; [now left|].
  destruct IH as [-> | [a [c [-> Hc]]]].
  - destruct (isspace x) eqn:Hx; [now left|].
    right. exists EmptyString, x. split; [reflexivity | exact Hx].
  - right. exists (String x a), c. split; [|exact Hc].
    destruct a; reflexivity.
Qed.

Lemma rstrip_idem (s : string) : rstrip (rstrip s) = rstrip s.
Proof.
  destruct (rstrip_last s) as [-> | [a [c [-> Hc]]]]; [reflexivity|].
  now apply rstrip_app_nonblank.
Qed.

Lemma lstrip_nonblank_head (s : string) :
  match s with
  | String c _ => isspace c = false
  | EmptyString => True
  end -> lstrip s = s.
Proof. destruct s as [|c s]; [reflexivity|]. simpl. now intros ->. Qed.

Lemma strip_idem (s : string) : strip (strip s) = strip s.
Proof.
  unfold strip at 1. rewrite (lstrip_nonblank_head (strip s) (strip_head s)).
  unfold strip. apply rstrip_idem.
Qed.

End PyStrFacts.

(** ** The derivative matcher decides the language of a pattern *)

Module ReFacts.

Import Re PyStrFacts.

Lemma nullable_spec (r : re) : nullable r = true <-> lang r EmptyString.
Proof.
  induction r as [| |p|r1 IH1 r2 IH2|r1 IH1 r2 IH2|r IH]; simpl.
  - split; [discriminate | inversion 1].
  - split; [constructor | reflexivity].
  - split; [discriminate | inversion 1].
  - rewrite andb_true_iff, IH1, IH2. split.
    + intros [H1 H2]. exact (lang_cat _ _ _ _ H1 H2).
    + intros H. inversion H as [| |? ? s1 s2 H1 H2 [E1 E2] Heq| | | |].
      apply sapp_eq_nil in Heq as [-> ->]. now split.
  - rewrite orb_true_iff, IH1, IH2. split.
    + intros [H|H]; [now apply lang_alt_l | now apply lang_alt_r].
    + intros H. inversion H; subst; [now left | now right].
  - split; [constructor | reflexivity].
Qed.

(** A non-empty text of a starred pattern begins with a non-empty round. *)
Lemma star_cons_inv (r : re) (c : ascii) (s : string) :
  lang (Star r) (String c s) ->
  exists s1 s2, s = s1 +:+ s2 /\ lang r (String c s1) /\ lang (Star r) s2.
Proof.
  intros H. remember (Star r) as r' eqn:Hr. remember (String c s) as t eqn:Ht.
  revert s Ht.
  induction H as [ | p0 c0 Hp | r1 r2 s1 s2 H1 IH1 H2 IH2 | r1 r2 s0 H0 IH0
                 | r1 r2 s0 H0 IH0 | r0 | r0 s1 s2 H1 IH1 H2 IH2 ];
    intros u Hu; try discriminate.
  injection Hr as ->.
  apply sapp_eq_cons in Hu as [[-> ->] | [s1' [-> ->]]].
  - now apply IH2.
  - now exists s1', s2.
Qed.

Lemma cat_cons_inv (r1 r2 : re) (c : ascii) (s : string) :
  lang (Cat r1 r2) (String c s) ->
  (lang r1 EmptyString /\ lang r2 (String c s))
  \/ (exists s1 s2, s = s1 +:+ s2 /\ lang r1 (String c s1) /\ lang r2 s2).
Proof.
  intros H. inversion H as [| |? ? s1 s2 H1 H2 [E1 E2] Heq| | | |].
  apply sapp_eq_cons in Heq as [[-> ->] | [s1' [-> ->]]].
  - now left.
  - right. now exists s1', s2.
Qed.

Lemma lang_cat_cons (r1 r2 : re) (c : ascii) (s1 s2 : string) :
  lang r1 (String c s1) -> lang r2 s2 -> lang (Cat r1 r2) (String c (s1 +:+ s2)).
Proof. intros H1 H2. rewrite <- sapp_cons. now constructor. Qed.

Lemma lang_cat_nil (r1 r2 : re) (s : string) :
  lang r1 EmptyString -> lang r2 s -> lang (Cat r1 r2) s.
Proof. intros H1 H2. rewrite <- (sapp_nil_l s). now constructor. Qed.

Lemma lang_star_cons_cons (r : re) (c : ascii) (s1 s2 : string) :
  lang r (String c s1) -> lang (Star r) s2 -> lang (Star r) (String c (s1 +:+ s2)).
Proof. intros H1 H2. rewrite <- sapp_cons. now constructor. Qed.

Lemma cat_inv (r1 r2 : re) (s : string) :
  lang (Cat r1 r2) s -> exists s1 s2, s = s1 +:+ s2 /\ lang r1 s1 /\ lang r2 s2.
Proof.
  intros H. inversion H as [| |? ? s1 s2 H1 H2 [E1 E2] Heq| | | |]. now exists s1, s2.
Qed.

Lemma deriv_spec (c : ascii) (r : re) (s : string) :
  lang (deriv c r) s <-> lang r (String c s).
Proof.
  revert s. induction r as [| |p|r1 IH1 r2 IH2|r1 IH1 r2 IH2|r IH]; intros s; simpl.
  - split; inversion 1.
  - split; inversion 1.
  - destruct (p c) eqn:Hp; split; intros H.
    + inversion H; subst. now constructor.
    + inversion H; subst. constructor.
    + inversion H.
    + inversion H; subst. congruence.
  - assert (Hcat : lang (Cat (deriv c r1) r2) s
                   <-> exists s1 s2, s = s1 +:+ s2 /\ lang r1 (String c s1) /\ lang r2 s2).
    { split.
      - intros H. apply cat_inv in H as [s1 [s2 [-> [H1 H2]]]].
        exists s1, s2. split; [reflexivity|]. split; [now apply IH1 | exact H2].
      - intros [s1 [s2 [-> [H1 H2]]]]. constructor; [now apply IH1 | exact H2]. }
    destruct (nullable r1) eqn:Hn.
    + split.
      * intros H. inversion H as [| | |? ? ? H'|? ? ? H'| |]; subst.
        -- apply Hcat in H' as [s1 [s2 [-> [H1 H2]]]]. now apply lang_cat_cons.
        -- apply lang_cat_nil; [now apply nullable_spec | now apply IH2].
      * intros H. apply cat_cons_inv in H as [[H1 H2] | Hex].
        -- apply lang_alt_r. now apply IH2.
        -- apply lang_alt_l. now apply Hcat.
    + rewrite Hcat. split.
      * intros [s1 [s2 [-> [H1 H2]]]]. now apply lang_cat_cons.
      * intros H. apply cat_cons_inv in H as [[H1 H2] | Hex]; [|exact Hex].
        apply nullable_spec in H1. congruence.
  - split; intros H.
    + inversion H; subst; [apply lang_alt_l; now apply IH1 | apply lang_alt_r; now apply IH2].
    + inversion H; subst; [apply lang_alt_l; now apply IH1 | apply lang_alt_r; now apply IH2].
  - split; intros H.
    + apply cat_inv in H as [s1 [s2 [-> [H1 H2]]]].
      apply lang_star_cons_cons; [now apply IH | exact H2].
    + apply star_cons_inv in H as [s1 [s2 [-> [H1 H2]]]].
      constructor; [now apply IH | exact H2].
Qed.

(** [fullmatch] is membership in the language. *)
Theorem fullmatch_spec (r : re) (s : string) : fullmatch r s = true <-> lang r s.
Proof.
  revert r. induction s as [|c s IH]; intros r; simpl.
  - apply nullable_spec.
  - rewrite IH. apply deriv_spec.
Qed.

(** *** The languages of the pieces of the assignment pattern *)

Lemma lang_lit (t s : string) : lang (lit t) s <-> s = t.
Proof.
  revert s. induction t as [|c t IH]; intros s; simpl.
  - split; [now inversion 1 | intros ->; constructor].
  - split.
    + intros H. apply cat_inv in H as [s1 [s2 [-> [H1 H2]]]].
      inversion H1 as [|? c' Hc| | | | |]; subst.
      apply Ascii.eqb_eq in Hc as ->. apply IH in H2 as ->. reflexivity.
    + intros ->. apply lang_cat_cons with (s1 := EmptyString); [|now apply IH].
      constructor. apply Ascii.eqb_refl.
Qed.

Lemma lang_ws_star (s : string) : lang ws_star s <-> blank s = true.
Proof.
  unfold ws_star, ws. split.
  - intros H. remember (Star (Chr isspace)) as r eqn:Hr.
    induction H as [ | p0 c0 Hp | r1 r2 s1 s2 H1 IH1 H2 IH2 | r1 r2 s0 H0 IH0
                   | r1 r2 s0 H0 IH0 | r0 | r0 s1 s2 H1 IH1 H2 IH2 ]; try discriminate.
    + reflexivity.
    + injection Hr as ->. rewrite blank_app, (IH2 eq_refl), andb_true_r.
      inversion H1; subst. simpl. now rewrite H0.
  - induction s as [|c s IH]; simpl; [constructor|].
    intros H. apply andb_true_iff in H as [Hc Hs].
    apply lang_star_cons_cons with (s1 := EmptyString); [now constructor | now apply IH].
Qed.

Lemma lang_ws_plus (s : string) :
  lang ws_plus s <-> blank s = true /\ s <> EmptyString.
Proof.
  unfold ws_plus. split.
  - intros H. apply cat_inv in H as [s1 [s2 [-> [H1 H2]]]].
    apply lang_ws_star in H2. inversion H1; subst. rewrite sapp_cons. simpl.
    rewrite H0, sapp_nil_l, H2. split; [reflexivity | discriminate].
  - intros [Hb Hne]. destruct s as [|c s]; [congruence|].
    simpl in Hb. apply andb_true_iff in Hb as [Hc Hs].
    apply lang_cat_cons with (s1 := EmptyString); [now constructor | now apply lang_ws_star].
Qed.

Theorem assignment_pattern_spec (left_val right_val s : string) :
  fullmatch (assignment_pattern left_val right_val) s = true
  <-> assignment_shaped left_val right_val s.
Proof.
  rewrite fullmatch_spec. unfold assignment_pattern, assignment_shaped. split.
  - intros H.
    apply cat_inv in H as [w1 [t1 [-> [H1 H]]]].
    apply cat_inv in H as [l [t2 [-> [H2 H]]]].
    apply cat_inv in H as [w2 [t3 [-> [H3 H]]]].
    apply cat_inv in H as [i [t4 [-> [H4 H]]]].
    apply cat_inv in H as [w3 [t5 [-> [H5 H]]]].
    apply cat_inv in H as [r [w4 [-> [H6 H7]]]].
    apply lang_lit in H2 as ->. apply lang_lit in H4 as ->. apply lang_lit in H6 as ->.
    exists w1, w2, w3, w4. split; [reflexivity|].
    split; [now apply lang_ws_star|]. split; [now apply lang_ws_star|].
    split; [now apply lang_ws_plus | now apply lang_ws_star].
  - intros [w1 [w2 [w3 [w4 [-> [H1 [H2 [H3 H4]]]]]]]].
    constructor; [now apply lang_ws_star|].
    constructor; [now apply lang_lit|].
    constructor; [now apply lang_ws_star|].
    constructor; [now apply lang_lit|].
    constructor; [now apply lang_ws_plus|].
    constructor; [now apply lang_lit | now apply lang_ws_star].
Qed.

End ReFacts.

(** ** The tests and slices of the transformer *)

Section Tests.

Import PyStrFacts.

Lemma eqb_empty_false (s : string) : s <> EmptyString -> String.eqb s EmptyString = false.
Proof. intros H. now apply String.eqb_neq. Qed.

Lemma startswith_nonempty (p s : string) :
  p <> EmptyString -> startswith p s = true -> s <> EmptyString.
Proof.
  intros Hp H ->. apply startswith_spec in H as [t Ht].
  symmetry in Ht. apply sapp_eq_nil in Ht as [? _]. contradiction.
Qed.

Lemma startswith_other_head (x y : ascii) (p s : string) :
  x <> y -> startswith (String x p) s = true ->
  startswith (String y EmptyString) s = false.
Proof.
  intros Hxy H. apply startswith_spec in H as [t ->].
  unfold startswith. rewrite sapp_cons, prefix_cons.
  destruct (ascii_dec y x) as [->|_]; [contradiction | reflexivity].
Qed.

Lemma any_in_intro (ops : list string) (op s : string) :
  op ∈ ops -> str_in op s = true -> any_in ops s = true.
Proof.
  intros Hin Hs. unfold any_in. apply existsb_exists. exists op.
  split; [now apply list_elem_of_In | exact Hs].
Qed.

Lemma stripped_group_idem (groups : list (option string)) (k : nat) :
  strip (stripped_group groups k) = stripped_group groups k.
Proof.
  unfold stripped_group. destruct (groups !! k) as [[g|]|]; try reflexivity.
  apply strip_idem.
Qed.

Lemma looks_complex_prefers_inline (groups : list (option string)) :
  looks_complex groups -> prefers_inline groups = true.
Proof.
  unfold looks_complex, prefers_inline. rewrite !stripped_group_idem.
  intros [[op [Hin Hs]] | [[op [Hin Hs]] | [[kw [Hin Hs]] | He]]].
  - now rewrite (any_in_intro _ _ _ Hin Hs).
  - rewrite (any_in_intro _ _ _ Hin Hs). now rewrite orb_true_r.
  - assert (H : existsb (fun kw => startswith (kw +:+ " ") (stripped_group groups 0))
                  inline_keywords = true).
    { apply existsb_exists. exists kw. split; [now apply list_elem_of_In | exact Hs]. }
    rewrite H. now rewrite !orb_true_r.
  - rewrite He. now rewrite !orb_true_r.
Qed.

Lemma any_in_spec (ops : list string) (s : string) :
  any_in ops s = true <-> exists op, op ∈ ops /\ str_in op s = true.
Proof.
  unfold any_in. rewrite existsb_exists. split; intros [op [H1 H2]]; exists op.
  - split; [now apply list_elem_of_In | exact H2].
  - split; [now apply list_elem_of_In | exact H2].
Qed.

Lemma is_in_conditional_spec (s : string) :
  is_in_conditional s = true <-> in_condition s.
Proof.
  unfold is_in_conditional, in_condition.
  rewrite !orb_true_iff, any_in_spec. tauto.
Qed.

Lemma is_standalone_assignment_spec (left_val right_val s : string) :
  is_standalone_assignment left_val right_val s = true
  <-> ~ has_operator s \/ assignment_shaped left_val right_val s.
Proof.
  unfold is_standalone_assignment, has_operator.
  rewrite orb_true_iff, negb_true_iff, ReFacts.assignment_pattern_spec.
  rewrite <- any_in_spec. destruct (any_in assignment_ops s); intuition congruence.
Qed.

Lemma add_twice (name : string) (uh : helpers) : add name (add name uh) = add name uh.
Proof. unfold add. apply set_eq. intros x. rewrite !elem_of_union. tauto. Qed.

Lemma len_slice_to (n : nat) (s : string) : n <= len s -> len (slice_to n s) = n.
Proof.
  revert s. induction n as [|n IH]; intros [|c s] Hn; unfold len in *; simpl in *;
    try reflexivity; try lia.
  rewrite IH; [reflexivity | lia].
Qed.

Lemma slice_from_after (n : nat) (s t : string) :
  n <= len s -> slice_from n (slice_to n s +:+ t) = t.
Proof.
  intros H. pose proof (slice_from_app (slice_to n s) t) as E.
  now rewrite (len_slice_to n s H) in E.
Qed.

Lemma slice_to_slice_to (a b : nat) (s : string) :
  a <= b -> slice_to a (slice_to b s) = slice_to a s.
Proof.
  revert b s. induction a as [|a IH]; intros b s Hab.
  - now destruct (slice_to b s), s.
  - destruct b as [|b]; [lia|]. destruct s as [|c s]; simpl; [reflexivity|].
    rewrite IH; [reflexivity | lia].
Qed.

Lemma slice_to_split (pos k : nat) (s : string) :
  pos <= k -> slice_to k s = slice_to pos s +:+ String.substring pos (k - pos) s.
Proof.
  revert k s. induction pos as [|pos IH]; intros k s Hk.
  - rewrite Nat.sub_0_r. replace (slice_to 0 s) with EmptyString by now destruct s.
    rewrite sapp_nil_l. clear Hk. revert s.
    induction k as [|k IHk]; intros [|c s]; simpl; try reflexivity.
    now rewrite IHk.
  - destruct k as [|k]; [lia|]. destruct s as [|c s]; simpl; [reflexivity|].
    rewrite sapp_cons, (IH k s); [reflexivity | lia].
Qed.

End Tests.

(** ** The line transformer *)

Section TransformerFacts.

Import PyStrFacts.

Variable match_python_construct : string -> header.
Variable find_ish_constructs : string -> list construct.
Variable find_welp_constructs : string -> list construct.

Local Abbreviation ish := (_transform_ish_constructs find_ish_constructs).
Local Abbreviation welp := (_transform_welp_constructs find_ish_constructs find_welp_constructs).
Local Abbreviation line_of :=
  (transform_line match_python_construct find_ish_constructs find_welp_constructs).
Local Abbreviation composed := (compose find_ish_constructs find_welp_constructs).
Local Abbreviation composed_groups := (compose_groups find_ish_constructs find_welp_constructs).
Local Abbreviation processed := (process_groups find_ish_constructs find_welp_constructs).

(** A line that is neither blank nor a comment and heads a construct: the
    groups are processed, then substituted into the template. *)
Lemma transform_line_main (line key : string) (groups : list (option string)) (uh : helpers) :
  strip line <> EmptyString ->
  startswith "#" (strip line) = false ->
  main_construct (match_python_construct (strip line)) = Some (key, groups) ->
  line_of line uh
  = substitute line key (processed key groups uh).1 (processed key groups uh).2.
Proof.
  intros Hne Hc Hm. unfold transform_line, substitute.
  rewrite (eqb_empty_false _ Hne), Hc, Hm.
  unfold bind at 1. unfold lift.
  destruct (process_groups _ _ key groups uh) as [gs uh1]. simpl.
  unfold bind. destruct (transformed_code key gs (strip line) uh1) as [[code| |] uh2];
    reflexivity.
Qed.

(** A line that is neither blank nor a comment and heads no construct:
    the inline composer is run on the line. *)
Lemma transform_line_inline (line : string) (uh : helpers) :
  strip line <> EmptyString ->
  startswith "#" (strip line) = false ->
  main_construct (match_python_construct (strip line)) = None ->
  line_of line uh = (Returned [(composed line uh).1], (composed line uh).2).
Proof.
  intros Hne Hc Hm. unfold transform_line, compose.
  rewrite (eqb_empty_false _ Hne), Hc, Hm.
  unfold bind, lift.
  destruct (ish line uh) as [a uh1]. destruct (welp a uh1) as [b uh2]. simpl.
  destruct (String.eqb b line) eqn:Hb; simpl; [|reflexivity].
  apply String.eqb_eq in Hb. now subst.
Qed.

Lemma ish_nothing (text : string) (uh : helpers) :
  find_ish_constructs text = [] -> ish text uh = (text, uh).
Proof. intros H. unfold _transform_ish_constructs. now rewrite H. Qed.

Lemma welp_nothing (text : string) (uh : helpers) :
  find_welp_constructs text = [] -> welp text uh = (text, uh).
Proof. intros H. unfold _transform_welp_constructs. now rewrite H. Qed.

Lemma compose_nothing (text : string) (uh : helpers) :
  find_ish_constructs text = [] -> find_welp_constructs text = [] ->
  composed text uh = (text, uh).
Proof.
  intros H1 H2. unfold compose. rewrite (ish_nothing _ _ H1). now apply welp_nothing.
Qed.

(** The loop over the groups of a construct that is neither an import nor
    the fallback runs the inline composer on each group. *)
Lemma process_group_fold (key : string) (groups acc : list (option string)) (uh : helpers) :
  String.eqb key "welp" = false ->
  fold_left (process_group find_ish_constructs find_welp_constructs key) groups (acc, uh)
  = ((acc ++ (composed_groups groups uh).1)%list, (composed_groups groups uh).2).
Proof.
  intros Hk. revert acc uh. induction groups as [|g groups IH]; intros acc uh; simpl.
  - now rewrite app_nil_r.
  - destruct g as [text|]; simpl; rewrite ?Hk.
    + unfold compose.
      destruct (ish text uh) as [a uh1]. destruct (welp a uh1) as [b uh2].
      rewrite IH. destruct (composed_groups groups uh2) as [rest uh3]. simpl.
      now rewrite <- app_assoc.
    + rewrite IH. destruct (composed_groups groups uh) as [rest uh3]. simpl.
      now rewrite <- app_assoc.
Qed.

Lemma process_groups_composed (key : string) (groups : list (option string)) (uh : helpers) :
  is_import key = false -> String.eqb key "welp" = false ->
  processed key groups uh = composed_groups groups uh.
Proof.
  intros Hi Hk. unfold process_groups. rewrite Hi, process_group_fold by exact Hk.
  now destruct (composed_groups groups uh).
Qed.

(** C8 (as amended).  A line that is not blank, heads no construct and has
    no inline approximate or fallback sub-expression is returned as it is,
    and no helper is registered; a line of white space only is returned as
    the empty string. *)
Theorem passthrough_of_plain_lines (line : string) (uh : helpers) :
  (strip line <> EmptyString ->
   main_construct (match_python_construct (strip line)) = None ->
   find_ish_constructs line = [] ->
   find_welp_constructs line = [] ->
   line_of line uh = (Returned [line], uh))
  /\ (blank line = true -> line_of line uh = (Returned [EmptyString], uh)).
Proof.
  split.
  - intros Hne Hm Hi Hw.
    destruct (startswith "#" (strip line)) eqn:Hc.
    + unfold transform_line. now rewrite (eqb_empty_false _ Hne), Hc.
    + rewrite (transform_line_inline _ _ Hne Hc Hm).
      now rewrite (compose_nothing _ _ Hi Hw).
  - intros Hb. unfold transform_line. now rewrite (blank_strip _ Hb).
Qed.


(** The line of a declaration, for any helper set. *)
Lemma kinda_int_line (line name init : string) (uh : helpers) :
  startswith "~kinda int " (strip line) = true ->
  match_python_construct (strip line) = Some ("kinda_int", [Some name; Some init]) ->
  line_of line uh
  = (Returned [leading line
               +:+ ((composed name uh).1 +:+ " = kinda_int("
                    +:+ (composed init (composed name uh).2).1 +:+ ")")
               +:+ trailing line],
     add "kinda_int" (composed init (composed name uh).2).2).
Proof.
  intros Hs Hm.
  assert (Hne : strip line <> EmptyString).
  { apply (startswith_nonempty "~kinda int "); [discriminate | exact Hs]. }
  assert (Hc : startswith "#" (strip line) = false).
  { apply (startswith_other_head "~"%char "#"%char "kinda int "); [discriminate | exact Hs]. }
  rewrite (transform_line_main line "kinda_int" [Some name; Some init] uh Hne Hc)
    by (now rewrite Hm).
  rewrite process_groups_composed by reflexivity.
  simpl.
  destruct (composed name uh) as [a u1]. simpl.
  destruct (composed init u1) as [b u2]. simpl.
  unfold substitute, bind, use, ret. simpl.
  now rewrite (replace_stripped _ _ Hne).
Qed.

(** C4 (as amended).  A line that the matcher takes for the declaration
    [~kinda int name = INIT] gives exactly one line: [name = kinda_int(INIT)]
    with the inline composer applied to both groups, between the white
    space the line had around it; [kinda_int] is registered.  When the
    groups hold no inline sub-expression the line is
    [name = kinda_int(INIT)] itself. *)
Theorem kinda_int_declaration (line name init : string) (uh : helpers) :
  startswith "~kinda int " (strip line) = true ->
  match_python_construct (strip line) = Some ("kinda_int", [Some name; Some init]) ->
  let name' := (composed name uh).1 in
  let uh1 := (composed name uh).2 in
  let init' := (composed init uh1).1 in
  let uh2 := (composed init uh1).2 in
  line_of line uh
  = (Returned [leading line +:+ (name' +:+ " = kinda_int(" +:+ init' +:+ ")")
               +:+ trailing line],
     add "kinda_int" uh2)
  /\ (find_ish_constructs name = [] -> find_welp_constructs name = [] ->
      find_ish_constructs init = [] -> find_welp_constructs init = [] ->
      line_of line uh
      = (Returned [leading line +:+ (name +:+ " = kinda_int(" +:+ init +:+ ")")
                   +:+ trailing line],
         add "kinda_int" uh)).
Proof.
  intros Hs Hm name' uh1 init' uh2.
  pose proof (kinda_int_line line name init uh Hs Hm) as Hmain.
  split; [exact Hmain|].
  intros H1 H2 H3 H4. rewrite Hmain.
  rewrite (compose_nothing _ _ H1 H2). simpl.
  now rewrite (compose_nothing _ _ H3 H4).
Qed.

(** C6 (as amended).  For a line that heads a construct, the template is
    filled with processed groups: for the two import constructs the groups
    as captured; for the fallback header the primary group as captured and
    the fallback-value group after the approximate rewriting; for every
    other construct each group after the inline composer. *)
Theorem header_groups_composed (line key : string)
    (groups : list (option string)) (uh : helpers) :
  strip line <> EmptyString ->
  startswith "#" (strip line) = false ->
  main_construct (match_python_construct (strip line)) = Some (key, groups) ->
  exists groups' uh',
    line_of line uh = substitute line key groups' uh'
    /\ (is_import key = true -> groups' = groups /\ uh' = uh)
    /\ (is_import key = false -> key <> "welp" ->
        (groups', uh') = composed_groups groups uh)
    /\ (key = "welp" -> forall primary fallback,
          groups = [Some primary; Some fallback] ->
          groups' = [Some primary; Some (ish fallback uh).1]
          /\ uh' = (ish fallback uh).2).
Proof.
  intros Hne Hc Hm.
  exists (processed key groups uh).1, (processed key groups uh).2.
  split; [now apply transform_line_main|].
  split; [|split].
  - intros Hi. unfold process_groups. now rewrite Hi.
  - intros Hi Hk. apply String.eqb_neq in Hk.
    rewrite (process_groups_composed _ _ _ Hi Hk).
    now destruct (composed_groups groups uh).
  - intros -> primary fallback ->. unfold process_groups. simpl.
    now destruct (ish fallback uh).
Qed.

(** *** The approximate constructs *)

(** C1 (as amended).  On a line whose only approximate construct is the
    comparison [name ~ish value]: when the stripped line has none of the
    characters [+ - * / = ( ) [ ] ,] or has exactly the shape
    [name ~ish value], and is not in a condition, the construct is
    rewritten to the assignment [name = ish_value(name, value)]; in every
    other case it is rewritten to [ish_comparison(name, value)]. *)
Theorem ish_assignment_or_comparison (line name value : string) (s e : nat)
    (uh : helpers) :
  find_ish_constructs line = [Construct "ish_comparison" [name; value] s e] ->
  ((~ has_operator (strip line) \/ assignment_shaped name value (strip line))
   /\ ~ in_condition (strip line) ->
   ish line uh
   = (slice_to s line +:+ assignment_form name value +:+ slice_from e line,
      add "ish_value" uh))
  /\ ((has_operator (strip line) /\ ~ assignment_shaped name value (strip line))
      \/ in_condition (strip line) ->
      ish line uh
      = (slice_to s line +:+ comparison_form name value +:+ slice_from e line,
         add "ish_comparison" uh)).
Proof.
  intros Hf. unfold _transform_ish_constructs. rewrite Hf. simpl.
  unfold ish_replacement, splice, group. simpl.
  split.
  - intros [Hs Hc].
    apply is_standalone_assignment_spec in Hs.
    assert (Hcond : is_in_conditional (strip line) = false).
    { apply not_true_iff_false. now rewrite is_in_conditional_spec. }
    now rewrite Hs, Hcond.
  - intros H.
    assert (Hb : is_standalone_assignment name value (strip line)
                 && negb (is_in_conditional (strip line)) = false).
    { destruct H as [[Hop Hshape] | Hc].
      - apply andb_false_iff. left. apply not_true_iff_false.
        rewrite is_standalone_assignment_spec. intros [Hn | Hsh]; contradiction.
      - apply is_in_conditional_spec in Hc. rewrite Hc. apply andb_false_r. }
    now rewrite Hb.
Qed.

(** C5.  Two approximate values [m1] and [m2] on a line, found at their
    offsets in order, are both rewritten in place, whatever the lengths
    of the numbers: the construct on the right is replaced first, and the
    offsets of the one on the left still hold. *)
Theorem two_ish_values_rewritten (line a m1 b m2 c n1 n2 : string) (uh : helpers) :
  line = a +:+ m1 +:+ b +:+ m2 +:+ c ->
  find_ish_constructs line
  = [Construct "ish_value" [n1] (len a) (len a + len m1);
     Construct "ish_value" [n2] (len a + len m1 + len b)
       (len a + len m1 + len b + len m2)] ->
  fold_left (ish_step line) [Construct "ish_value" [n2] (len a + len m1 + len b)
                               (len a + len m1 + len b + len m2)] (line, uh)
  = (a +:+ m1 +:+ b +:+ ("ish_value(" +:+ n2 +:+ ")") +:+ c, add "ish_value" uh)
  /\ ish line uh
     = (a +:+ ("ish_value(" +:+ n1 +:+ ")") +:+ b +:+ ("ish_value(" +:+ n2 +:+ ")") +:+ c,
        add "ish_value" uh).
Proof.
  intros Hl Hf.
  assert (E2 : line = (a +:+ m1 +:+ b) +:+ (m2 +:+ c))
    by (rewrite Hl, !sapp_assoc; reflexivity).
  assert (E3 : line = (a +:+ m1 +:+ b +:+ m2) +:+ c)
    by (rewrite Hl, !sapp_assoc; reflexivity).
  assert (L2 : len a + len m1 + len b = len (a +:+ m1 +:+ b))
    by (rewrite !len_app; lia).
  assert (L3 : len a + len m1 + len b + len m2 = len (a +:+ m1 +:+ b +:+ m2))
    by (rewrite !len_app; lia).
  assert (Hto2 : slice_to (len a + len m1 + len b) line = a +:+ m1 +:+ b)
    by (rewrite L2, E2 at 1; apply slice_to_app).
  assert (Hfrom2 : slice_from (len a + len m1 + len b + len m2) line = c)
    by (rewrite L3, E3 at 1; apply slice_from_app).
  assert (Hstep2 : fold_left (ish_step line)
                     [Construct "ish_value" [n2] (len a + len m1 + len b)
                        (len a + len m1 + len b + len m2)] (line, uh)
                   = (a +:+ m1 +:+ b +:+ ("ish_value(" +:+ n2 +:+ ")") +:+ c,
                      add "ish_value" uh)).
  { cbn [fold_left ish_step ish_replacement construct_type String.eqb Ascii.eqb Bool.eqb
           group match_groups]. simpl.
    unfold splice. cbn [start_pos end_pos]. rewrite Hto2, Hfrom2.
    now rewrite !sapp_assoc. }
  split; [exact Hstep2|].
  unfold _transform_ish_constructs. rewrite Hf.
  change (rev _) with
    [Construct "ish_value" [n2] (len a + len m1 + len b) (len a + len m1 + len b + len m2);
     Construct "ish_value" [n1] (len a) (len a + len m1)].
  change (fold_left (ish_step line) (?c2 :: ?c1 :: nil) ?acc)
    with (ish_step line (fold_left (ish_step line) [c2] acc) c1).
  rewrite Hstep2.
  cbn [ish_step ish_replacement construct_type String.eqb Ascii.eqb Bool.eqb
         group match_groups]. simpl.
  unfold splice. cbn [start_pos end_pos].
  rewrite slice_to_app.
  rewrite <- (sapp_assoc a m1), <- len_app, slice_from_app.
  now rewrite add_twice.
Qed.

End TransformerFacts.

(** ** What every computation of the transformer guarantees *)

Section Guarantees.

Lemma sat_ret {A} (a : A) (P : A -> Prop) : P a -> sat (ret a) P.
Proof. intros H uh. split; [reflexivity | exact H]. Qed.

Lemma sat_raise {A} (e : exn) (P : A -> Prop) : sat (raise e) P.
Proof. intros uh. split; [reflexivity | exact I]. Qed.

Lemma sat_use (name : string) (P : unit -> Prop) : P tt -> sat (use name) P.
Proof. intros H uh. split; [unfold use, add; simpl; set_solver | exact H]. Qed.

Lemma sat_lift {A} (f : helpers -> A * helpers) (P : A -> Prop) :
  (forall uh, uh ⊆ (f uh).2 /\ P (f uh).1) -> sat (lift f) P.
Proof.
  intros H uh. unfold lift. specialize (H uh). destruct (f uh) as [a uh'].
  exact H.
Qed.

Lemma sat_bind {A B} (m : M A) (k : A -> M B) (P : A -> Prop) (Q : B -> Prop) :
  sat m P -> (forall a, P a -> sat (k a) Q) -> sat (bind m k) Q.
Proof.
  intros Hm Hk uh. unfold bind. specialize (Hm uh).
  destruct (m uh) as [[a|e|] uh1]; simpl in Hm; destruct Hm as [Hsub Hp].
  - specialize (Hk a Hp uh1). destruct Hk as [Hsub' Hq].
    split; [set_solver | exact Hq].
  - split; [exact Hsub | exact I].
  - contradiction.
Qed.

Lemma sat_try {A} (m : M A) (handler : exn -> exn) (P : A -> Prop) :
  sat m P -> sat (try_with m handler) P.
Proof.
  intros Hm uh. unfold try_with. specialize (Hm uh).
  destruct (m uh) as [[a|e|] uh1]; exact Hm.
Qed.

Lemma sat_weaken {A} (m : M A) (P Q : A -> Prop) :
  sat m P -> (forall a, P a -> Q a) -> sat m Q.
Proof.
  intros Hm Hpq uh. specialize (Hm uh). destruct (m uh) as [[a|e|] uh1];
    simpl in *; destruct Hm as [Hsub Hp]; split; auto.
Qed.

End Guarantees.

Section TransformerGuarantees.

Variable match_python_construct : string -> header.
Variable find_ish_constructs : string -> list construct.
Variable find_welp_constructs : string -> list construct.

Local Abbreviation ish := (_transform_ish_constructs find_ish_constructs).
Local Abbreviation welp := (_transform_welp_constructs find_ish_constructs find_welp_constructs).
Local Abbreviation line_of :=
  (transform_line match_python_construct find_ish_constructs find_welp_constructs).

Lemma add_keeps (name : string) (uh : helpers) : uh ⊆ add name uh.
Proof. unfold add. set_solver. Qed.

Lemma ish_replacement_keeps (line : string) (c : construct) (uh : helpers) :
  uh ⊆ (ish_replacement line c uh).2.
Proof.
  unfold ish_replacement.
  repeat (case_match; simpl); unfold add; set_solver.
Qed.

Lemma fold_left_keeps {A B} (f : A * helpers -> B -> A * helpers) (l : list B)
    (acc : A * helpers) :
  (forall acc b, acc.2 ⊆ (f acc b).2) -> acc.2 ⊆ (fold_left f l acc).2.
Proof.
  intros Hf. revert acc. induction l as [|b l IH]; intros acc; simpl; [reflexivity|].
  etransitivity; [apply (Hf acc b) | apply IH].
Qed.

Lemma ish_keeps (line : string) (uh : helpers) : uh ⊆ (ish line uh).2.
Proof.
  unfold _transform_ish_constructs. destruct (find_ish_constructs line) as [|c cs] eqn:H;
    [reflexivity|].
  apply (fold_left_keeps (ish_step line) _ (line, uh)).
  intros [t u] b. unfold ish_step. simpl.
  pose proof (ish_replacement_keeps line b u) as Hk.
  destruct (ish_replacement line b u) as [[r|] u']; exact Hk.
Qed.

Lemma welp_step_keeps (acc : string * helpers) (c : construct) :
  acc.2 ⊆ (welp_step find_ish_constructs acc c).2.
Proof.
  destruct acc as [t u]. unfold welp_step. simpl.
  destruct (String.eqb (construct_type c) "welp"); [|reflexivity].
  destruct (group c 1) as [g1|]; [|apply add_keeps].
  destruct (group c 2) as [g2|]; [|apply add_keeps].
  pose proof (ish_keeps (strip g1) (add "welp_fallback" u)) as H1.
  destruct (ish (strip g1) (add "welp_fallback" u)) as [p u1].
  pose proof (ish_keeps (strip g2) u1) as H2.
  destruct (ish (strip g2) u1) as [f u2]. simpl in *.
  pose proof (add_keeps "welp_fallback" u). set_solver.
Qed.

Lemma welp_keeps (line : string) (uh : helpers) : uh ⊆ (welp line uh).2.
Proof.
  unfold _transform_welp_constructs. destruct (find_welp_constructs line) as [|c cs];
    [reflexivity|].
  apply (fold_left_keeps (welp_step find_ish_constructs) _ (line, uh)).
  apply welp_step_keeps.
Qed.

Lemma process_groups_keeps (key : string) (groups : list (option string)) (uh : helpers) :
  uh ⊆ (process_groups find_ish_constructs find_welp_constructs key groups uh).2.
Proof.
  unfold process_groups. destruct (is_import key); [reflexivity|].
  apply (fold_left_keeps _ groups ([], uh)).
  intros [p u] g. unfold process_group. simpl.
  destruct g as [text|]; [|reflexivity].
  destruct (String.eqb key "welp").
  - destruct (length p =? 1)%nat; [|reflexivity].
    pose proof (ish_keeps text u) as H. now destruct (ish text u).
  - pose proof (ish_keeps text u) as H1. destruct (ish text u) as [a u1].
    pose proof (welp_keeps a u1) as H2. destruct (welp a u1) as [b u2].
    simpl in *. set_solver.
Qed.

Lemma transformed_code_sat (key : string) (groups : list (option string)) (stripped : string) :
  sat (transformed_code key groups stripped) (fun _ => True).
Proof.
  unfold transformed_code, simple_name, strip_of.
  repeat first
    [ apply sat_ret; exact I
    | apply sat_raise
    | apply (sat_bind _ _ (fun _ => True)); [|intros ? _]
    | apply sat_use; exact I
    | case_match ].
Qed.

Lemma transform_line_sat (line : string) : sat (line_of line) (fun _ => True).
Proof.
  unfold transform_line.
  repeat case_match; try (apply sat_ret; exact I).
  - apply (sat_bind _ _ (fun _ => True)).
    + apply sat_lift. intros uh. split; [apply process_groups_keeps | exact I].
    + intros gs _. apply (sat_bind _ _ (fun _ => True)); [apply transformed_code_sat|].
      intros code _. apply sat_ret. exact I.
  - apply (sat_bind _ _ (fun _ => True)).
    + apply sat_lift. intros uh. split; [apply ish_keeps | exact I].
    + intros a _. apply (sat_bind _ _ (fun _ => True)).
      * apply sat_lift. intros uh. split; [apply welp_keeps | exact I].
      * intros b _. case_match; apply sat_ret; exact I.
Qed.

Lemma validate_sat (line : string) (line_number : nat) :
  sat (_validate_conditional_syntax line line_number) (fun _ => True).
Proof.
  unfold _validate_conditional_syntax.
  repeat case_match; first [apply sat_raise | apply sat_ret; exact I].
Qed.

Local Abbreviation python_block :=
  (python_block_loop match_python_construct find_ish_constructs find_welp_constructs).
Local Abbreviation brace_block :=
  (conditional_block_loop match_python_construct find_ish_constructs find_welp_constructs).
Local Abbreviation main_loop :=
  (transform_lines match_python_construct find_ish_constructs find_welp_constructs).

(** The indented block returns an index at or after its start. *)
Lemma python_block_sat (base_indent : nat) (rest : list string) (i : nat)
    (output_lines : list string) :
  sat (python_block base_indent rest i output_lines) (fun r => i <= r.1).
Proof.
  revert i output_lines. induction rest as [|line rest IH]; intros i out; simpl.
  - apply sat_ret. simpl. lia.
  - destruct (String.eqb (strip line) EmptyString).
    + eapply sat_weaken; [apply IH|]. simpl. intros r Hr. lia.
    + destruct (indent_of line <=? base_indent)%nat.
      * apply sat_ret. simpl. lia.
      * apply (sat_bind _ _ (fun _ => True)).
        -- apply sat_try, transform_line_sat.
        -- intros t _. eapply sat_weaken; [apply IH|]. simpl. intros r Hr. lia.
Qed.

(** With more rounds than lines left, the brace block does not run out of
    rounds, and returns an index at or after its start. *)
Lemma brace_block_sat (fuel : nat) (lines : list string) (indent : string) (i : nat)
    (brace_count : Z) (output_lines : list string) :
  length lines - i < fuel ->
  sat (brace_block fuel lines indent i brace_count output_lines) (fun r => i <= r.1).
Proof.
  revert indent i brace_count output_lines.
  induction fuel as [|fuel IH]; intros indent i bc out Hfuel; [lia|].
  simpl. destruct (lines !! i) as [line|] eqn:Hline; [|apply sat_ret; simpl; lia].
  apply lookup_lt_Some in Hline.
  set (bc' := if String.eqb (strip line) "}" then (bc - 1)%Z else bc).
  destruct (String.eqb (strip line) "}" && (bc' =? 0)%Z); [apply sat_ret; simpl; lia|].
  destruct (String.eqb (strip line) EmptyString || startswith "#" (strip line)).
  - eapply sat_weaken; [apply IH; lia|]. simpl. intros r Hr. lia.
  - apply (sat_bind _ _ (fun round => i + 1 <= round.1.1)).
    + apply sat_try. destruct (is_conditional_header (strip line)).
      * apply (sat_bind _ _ (fun _ => True)); [apply validate_sat|].
        intros valid _. destruct (negb valid); [apply sat_ret; simpl; lia|].
        apply (sat_bind _ _ (fun _ => True)); [apply transform_line_sat|].
        intros t _. apply (sat_bind _ _ (fun r => i + 1 <= r.1)); [apply IH; lia|].
        intros nested Hn. apply sat_ret. simpl. exact Hn.
      * apply (sat_bind _ _ (fun _ => True)); [apply transform_line_sat|].
        intros t _. apply sat_ret. simpl. lia.
    + intros [[i' bc''] out'] Hi'. simpl in Hi'.
      eapply sat_weaken; [apply IH; lia|]. simpl. intros r Hr. lia.
Qed.

(** The main loop of [transform_file] does not run out of rounds. *)
Lemma transform_lines_sat (fuel : nat) (lines : list string) (i : nat)
    (output_lines : list string) :
  length lines - i < fuel ->
  sat (main_loop fuel lines i output_lines) (fun _ => True).
Proof.
  revert i output_lines. induction fuel as [|fuel IH]; intros i out Hfuel; [lia|].
  simpl. destruct (lines !! i) as [line|] eqn:Hline; [|apply sat_ret; exact I].
  apply lookup_lt_Some in Hline.
  apply (sat_bind _ _ (fun round => i + 1 <= round.1)).
  - apply sat_try. destruct (is_conditional_header (strip line)).
    + apply (sat_bind _ _ (fun _ => True)); [apply validate_sat|].
      intros valid _. destruct (negb valid); [apply sat_ret; simpl; lia|].
      apply (sat_bind _ _ (fun _ => True)); [apply transform_line_sat|].
      intros t _. destruct (endswith "{" (strip line)).
      * apply brace_block_sat. lia.
      * apply python_block_sat.
    + apply (sat_bind _ _ (fun _ => True)); [apply transform_line_sat|].
      intros t _. apply sat_ret. simpl. lia.
  - intros [i' out'] Hi'. simpl in Hi'. apply IH. simpl. lia.
Qed.

(** [transform_file] returns or raises, and keeps the helpers it finds
    registered. *)
Theorem transform_file_sat (content target_language : string) :
  sat (transform_file match_python_construct find_ish_constructs find_welp_constructs
         content target_language) (fun _ => True).
Proof.
  unfold transform_file.
  apply (sat_bind _ _ (fun _ => True)).
  - apply transform_lines_sat. lia.
  - intros out _ uh. split; [reflexivity | exact I].
Qed.

(** C2 (as amended).  [used_helpers] is one set for the whole process,
    and no call empties it: after two calls of [transform_file] in a row,
    the helpers registered by the first call are still registered, and the
    import header of the second output names them, next to the helpers of
    the second input. *)
Theorem helpers_accumulate_across_files (content1 content2 target_language : string)
    (uh0 uh1 uh2 : helpers) (out1 out2 : string) :
  transform_file match_python_construct find_ish_constructs find_welp_constructs
    content1 target_language uh0 = (Returned out1, uh1) ->
  transform_file match_python_construct find_ish_constructs find_welp_constructs
    content2 target_language uh1 = (Returned out2, uh2) ->
  uh1 ⊆ uh2
  /\ (exists body, out2 = import_header target_language uh2 +:+ body)
  /\ (forall h, h ∈ uh1 -> h ∈ sorted (elements uh2))
  /\ (uh1 <> ∅ ->
      import_header target_language uh2
      = "from kinda.langs." +:+ target_language +:+ ".runtime.fuzzy import "
        +:+ join ", " (sorted (elements uh2)) +:+ newline +:+ newline).
Proof.
  intros H1 H2.
  assert (Hsub : uh1 ⊆ uh2).
  { pose proof (transform_file_sat content2 target_language uh1) as [Hs _].
    now rewrite H2 in Hs. }
  split; [exact Hsub|]. split; [|split].
  - unfold transform_file, bind in H2.
    destruct (main_loop _ _ _ _ uh1) as [[out| |] u]; try discriminate.
    injection H2 as <- <-. now eexists.
  - intros h Hh. unfold sorted. rewrite merge_sort_Permutation.
    apply elem_of_elements. set_solver.
  - intros Hne. unfold import_header.
    destruct (decide (uh2 = ∅)) as [->|_]; [|reflexivity].
    exfalso. apply Hne. set_solver.
Qed.

(** *** The indented block *)

(** A non-blank line that is not indented deeper than the header ends
    the block: the block runs over the lines before it only. *)
Lemma python_block_stops (base_indent : nat) (body : list string) (d : string)
    (rest : list string) (i : nat) (output_lines : list string) (uh : helpers) :
  strip d <> EmptyString -> indent_of d <= base_indent ->
  python_block base_indent (body ++ d :: rest) i output_lines uh
  = python_block base_indent body i output_lines uh.
Proof.
  intros Hd Hi. revert i output_lines uh.
  induction body as [|line body IH]; intros i out uh; simpl.
  - apply String.eqb_neq in Hd. rewrite Hd.
    apply Nat.leb_le in Hi. now rewrite Hi.
  - destruct (String.eqb (strip line) EmptyString); [apply IH|].
    destruct (indent_of line <=? base_indent)%nat; [reflexivity|].
    unfold bind. destruct (try_with _ _ uh) as [[t|e|] uh1]; [apply IH | reflexivity..].
Qed.

(** Over lines that are blank or indented deeper than the header, none of
    which raises, the block emits [block_lines] and returns the index
    after the last of them. *)
Lemma python_block_body (base_indent : nat) (body : list string) (i : nat)
    (output_lines : list string) (uh : helpers) :
  Forall (fun l => strip l = EmptyString \/ base_indent < indent_of l) body ->
  (forall l u, l ∈ body -> exists o u', line_of l u = (Returned o, u')) ->
  python_block base_indent body i output_lines uh
  = (Returned (i + length body,
               (output_lines
                ++ (block_lines match_python_construct find_ish_constructs
                      find_welp_constructs body uh).1)%list),
     (block_lines match_python_construct find_ish_constructs find_welp_constructs
        body uh).2).
Proof.
  intros Hbody Hok. revert i output_lines uh.
  induction body as [|line body IH]; intros i out uh; simpl.
  - now rewrite Nat.add_0_r, app_nil_r.
  - apply Forall_cons in Hbody as [Hline Hbody].
    assert (Hok' : forall l u, l ∈ body -> exists o u', line_of l u = (Returned o, u')).
    { intros l u Hl. apply Hok. now right. }
    destruct (String.eqb (strip line) EmptyString) eqn:Hb.
    + rewrite (IH Hbody Hok').
      destruct (block_lines _ _ _ body uh) as [r u]. simpl.
      replace (i + 1 + length body) with (i + S (length body)) by lia.
      now rewrite <- app_assoc.
    + destruct Hline as [Hblank | Hdeep];
        [apply String.eqb_neq in Hb; contradiction|].
      apply Nat.leb_gt in Hdeep. rewrite Hdeep.
      destruct (Hok line uh) as [o [u' Ho]]; [now left|].
      unfold bind, try_with. rewrite Ho.
      rewrite (IH Hbody Hok').
      destruct (block_lines _ _ _ body u') as [r u]. simpl.
      replace (i + 1 + length body) with (i + S (length body)) by lia.
      now rewrite <- app_assoc.
Qed.

Lemma validate_with_parenthesis (line : string) (line_number : nat) (uh : helpers) :
  str_in "(" line = true ->
  _validate_conditional_syntax line line_number uh = (Returned true, uh).
Proof.
  intros H. unfold _validate_conditional_syntax. rewrite H, !andb_false_r.
  now repeat case_match.
Qed.


End TransformerGuarantees.

Section InPlace.

Import PyStrFacts.

Variable find_ish_constructs : string -> list construct.

Local Abbreviation ish := (_transform_ish_constructs find_ish_constructs).

Lemma ordered_spans_from (n pos pos' : nat) (cs : list construct) :
  pos' <= pos -> ordered_spans n pos cs -> ordered_spans n pos' cs.
Proof. destruct cs as [|c cs]; simpl; [auto|]. intros Hp [H1 H2]. split; [lia | exact H2]. Qed.

Lemma ish_replacement_text (line : string) (c : construct) (uh : helpers) :
  (ish_replacement line c uh).1 = (ish_replacement line c ∅).1.
Proof. unfold ish_replacement. now repeat (case_match; simpl). Qed.

Lemma fold_rewritten (line : string) (cs : list construct) (pos : nat) (uh : helpers) :
  ordered_spans (len line) pos cs -> pos <= len line ->
  (fold_right (fun c acc => ish_step line acc c) (line, uh) cs).1
  = slice_to pos line +:+ rewritten line pos cs.
Proof.
  revert pos. induction cs as [|c cs IH]; intros pos Hord Hpos; simpl.
  - now rewrite slice_to_from.
  - simpl in Hord. destruct Hord as [H1 [H2 [H3 H4]]].
    destruct (fold_right _ _ cs) as [t u] eqn:Hfold.
    unfold ish_step. rewrite (surjective_pairing (ish_replacement line c u)).
    rewrite (ish_replacement_text line c u).
    destruct (ish_replacement line c ∅).1 as [r|]; simpl.
    + specialize (IH (end_pos c) H4 H3). simpl in IH. subst t.
      unfold splice.
      rewrite slice_to_app_le by (rewrite len_slice_to; lia).
      rewrite slice_to_slice_to by exact H2.
      rewrite (slice_from_after (end_pos c) line _ H3).
      rewrite (slice_to_split pos (start_pos c) line H1).
      now rewrite !sapp_assoc.
    + assert (Hle : pos <= end_pos c) by lia.
      exact (IH pos (ordered_spans_from _ _ _ _ Hle H4) Hpos).
Qed.

(** X9.  Every approximate construct of a line is rewritten at its own
    offsets in the line, whatever the lengths of the replacements, when
    the spans are listed in order and do not overlap; a construct that is
    skipped leaves its text as it is. *)
Theorem ish_rewrites_in_place (line : string) (uh : helpers) :
  ordered_spans (len line) 0 (find_ish_constructs line) ->
  (ish line uh).1 = rewritten line 0 (find_ish_constructs line).
Proof.
  intros Hord. unfold _transform_ish_constructs.
  destruct (find_ish_constructs line) as [|c cs] eqn:Hf; [reflexivity|].
  rewrite <- fold_left_rev_right, rev_involutive.
  rewrite (fold_rewritten line (c :: cs) 0 uh Hord ltac:(lia)).
  replace (slice_to 0 line) with EmptyString by now destruct line.
  now rewrite sapp_nil_l.
Qed.

End InPlace.

(** ** Direct execution *)

Section InterpreterFacts.

Import Semantics.

Variable pyfloat : Type.
Variable float_add : pyfloat -> Z -> pyfloat.
Variable py_eval : string -> environment pyfloat -> option (pyval pyfloat) * environment pyfloat.

(** C10 (as amended).  When [evaluate] returns [None], [kinda_assign]
    writes no binding of its own: the environment is the one the evaluation
    left.  It is the environment [kinda_assign] was called with when the
    expression is blocked, and when the evaluation itself bound no name. *)
Theorem kinda_assign_after_failed_evaluation (var : string) (expr : pyval pyfloat)
    (noise : Z) (env : environment pyfloat) :
  (evaluate py_eval expr env).1 = PyNone ->
  kinda_assign float_add py_eval var expr noise env = (evaluate py_eval expr env).2
  /\ (blocked expr -> kinda_assign float_add py_eval var expr noise env = env)
  /\ (forall text, expr = PyStr text -> (py_eval text env).2 = env ->
      kinda_assign float_add py_eval var expr noise env = env).
Proof.
  intros Hnone. unfold kinda_assign.
  destruct (evaluate py_eval expr env) as [value env'] eqn:He. simpl in *. subst value.
  split; [reflexivity|]. split.
  - intros Hb. unfold evaluate in He. destruct expr as [| | | |text];
      try (now injection He as <-).
    unfold blocked in Hb. rewrite Hb in He. now injection He as <-.
  - intros text -> Hpure. unfold evaluate in He.
    destruct (any_in dangerous_keywords text); [now injection He as <-|].
    destruct (py_eval text env) as [[value|] env'']; simpl in Hpure;
      inversion He; congruence.
Qed.

End InterpreterFacts.

(** ** The statements on concrete lines

    The sample matchers find the constructs of each line below; the lines
    are run through the transformer by evaluation. *)

Section Examples.

Import PyStrFacts Matchers.

Local Abbreviation mpc := Matchers.match_python_construct.
Local Abbreviation fic := Matchers.find_ish_constructs.
Local Abbreviation fwc := Matchers.find_welp_constructs.

(** C1, on [x ~ish 5] and on [if x ~ish 5:]. *)
Lemma ish_assignment_or_comparison_witness :
  run_ish "x ~ish 5" ∅ = ("x = ish_value(x, 5)", add "ish_value" ∅)
  /\ run_ish "if x ~ish 5:" ∅ = ("if ish_comparison(x, 5:)", add "ish_comparison" ∅).
Proof.
  split.
  - apply (proj1 (ish_assignment_or_comparison fic "x ~ish 5" "x" "5" 0 8 ∅
                    ltac:(vm_compute; reflexivity))).
    split.
    + left. intros H. apply any_in_spec in H. vm_compute in H. discriminate.
    + intros H. apply is_in_conditional_spec in H. vm_compute in H. discriminate.
  - apply (proj2 (ish_assignment_or_comparison fic "if x ~ish 5:" "x" "5:" 3 12 ∅
                    ltac:(vm_compute; reflexivity))).
    right. apply is_in_conditional_spec. vm_compute. reflexivity.
Defined.

(** C1 as first stated fails on [x ~ish (5)]: the line has parentheses,
    and the construct is rewritten to the assignment, not to the
    comparison call. *)
Lemma parenthesised_value_is_assigned :
  fic "x ~ish (5)" = [Construct "ish_comparison" ["x"; "(5)"] 0 10]
  /\ str_in "(" (strip "x ~ish (5)") = true
  /\ run_ish "x ~ish (5)" ∅ = ("x = ish_value(x, (5))", add "ish_value" ∅)
  /\ run_ish "x ~ish (5)" ∅ <> ("ish_comparison(x, (5))", add "ish_comparison" ∅).
Proof.
  assert (E : run_ish "x ~ish (5)" ∅ = ("x = ish_value(x, (5))", add "ish_value" ∅))
    by (vm_compute; reflexivity).
  split; [vm_compute; reflexivity|]. split; [vm_compute; reflexivity|].
  split; [exact E|]. rewrite E. intros H. discriminate H.
Qed.

(** C5, on a line with [5~ish] and [10.5~ish]. *)
Lemma two_ish_values_rewritten_witness :
  run_ish "a = 5~ish + 10.5~ish" ∅
  = ("a = ish_value(5) + ish_value(10.5)", add "ish_value" ∅).
Proof.
  apply (proj2 (two_ish_values_rewritten fic "a = 5~ish + 10.5~ish"
                  "a = " "5~ish" " + " "10.5~ish" EmptyString "5" "10.5" ∅
                  ltac:(vm_compute; reflexivity) ltac:(vm_compute; reflexivity))).
Defined.

(** C8, on [y = 2]. *)
Lemma passthrough_of_plain_lines_witness :
  run_line "y = 2" ∅ = (Returned ["y = 2"], ∅).
Proof.
  apply (proj1 (passthrough_of_plain_lines mpc fic fwc "y = 2" ∅)).
  - vm_compute. discriminate.
  - vm_compute. reflexivity.
  - vm_compute. reflexivity.
  - vm_compute. reflexivity.
Defined.

(** C8 as first stated fails on a line of three blanks: it heads no
    construct and has no inline sub-expression, and it is not returned as it
    is. *)
Lemma blank_line_is_not_passed_through :
  mpc (strip "   ") = None
  /\ fic "   " = [] /\ fwc "   " = []
  /\ run_line "   " ∅ = (Returned [EmptyString], ∅)
  /\ run_line "   " ∅ <> (Returned ["   "], ∅).
Proof.
  repeat (split; [vm_compute; reflexivity|]).
  vm_compute. intros H. discriminate H.
Qed.


(** C4, on [~kinda int x = 42] with blanks around. *)
Lemma kinda_int_declaration_witness :
  run_line "  ~kinda int x = 42 " ∅ = (Returned ["  x = kinda_int(42) "], add "kinda_int" ∅).
Proof.
  apply (proj2 (kinda_int_declaration mpc fic fwc "  ~kinda int x = 42 " "x" "42" ∅
                  ltac:(vm_compute; reflexivity) ltac:(vm_compute; reflexivity)));
    vm_compute; reflexivity.
Defined.

(** C4 as first stated fails on [~kinda int x = 5~ish]: the initializer is
    rewritten before it is put in the call. *)
Lemma kinda_int_initializer_is_composed :
  mpc (strip "~kinda int x = 5~ish") = Some ("kinda_int", [Some "x"; Some "5~ish"])
  /\ run_line "~kinda int x = 5~ish" ∅
     = (Returned ["x = kinda_int(ish_value(5))"], add "kinda_int" (add "ish_value" ∅))
  /\ run_line "~kinda int x = 5~ish" ∅
     <> (Returned ["x = kinda_int(5~ish)"], add "kinda_int" ∅).
Proof.
  split; [vm_compute; reflexivity|].
  assert (E : run_line "~kinda int x = 5~ish" ∅
              = (Returned ["x = kinda_int(ish_value(5))"],
                 add "kinda_int" (add "ish_value" ∅)))
    by (vm_compute; reflexivity).
  split; [exact E|]. rewrite E. intros H. discriminate H.
Qed.

(** C6, on [x ~= 100~ish]. *)
Lemma header_groups_composed_witness :
  exists groups' uh',
    run_line "x ~= 100~ish" ∅ = substitute "x ~= 100~ish" "fuzzy_reassign" groups' uh'
    /\ (groups', uh') = compose_groups fic fwc [Some "x"; Some "100~ish"] ∅
    /\ run_line "x ~= 100~ish" ∅
       = (Returned ["x = fuzzy_assign('x', ish_value(100))"],
          add "fuzzy_assign" (add "ish_value" ∅)).
Proof.
  destruct (header_groups_composed mpc fic fwc "x ~= 100~ish" "fuzzy_reassign"
              [Some "x"; Some "100~ish"] ∅)
    as [groups' [uh' [H1 [_ [H2 _]]]]].
  - vm_compute. discriminate.
  - vm_compute. reflexivity.
  - vm_compute. reflexivity.
  - exists groups', uh'. split; [exact H1|]. split.
    + apply H2; [reflexivity | discriminate].
    + vm_compute. reflexivity.
Defined.

(** C6 as first stated fails on [5~ish ~welp 7]: the line heads the
    fallback construct, which is not an import, and its primary group goes
    into the template as captured, though the inline composer would rewrite
    it. *)
Lemma welp_primary_is_not_composed :
  main_construct (mpc (strip "5~ish ~welp 7")) = Some ("welp", [Some "5~ish "; Some "7"])
  /\ (compose fic fwc "5~ish " ∅).1 = "ish_value(5) "
  /\ run_line "5~ish ~welp 7" ∅
     = (Returned ["welp_fallback(lambda: 5~ish, 7)"], add "welp_fallback" ∅)
  /\ run_line "5~ish ~welp 7" ∅
     <> (Returned ["welp_fallback(lambda: ish_value(5), 7)"],
         add "welp_fallback" (add "ish_value" ∅)).
Proof.
  split; [vm_compute; reflexivity|]. split; [vm_compute; reflexivity|].
  assert (E : run_line "5~ish ~welp 7" ∅
              = (Returned ["welp_fallback(lambda: 5~ish, 7)"], add "welp_fallback" ∅))
    by (vm_compute; reflexivity).
  split; [exact E|]. rewrite E. intros H. discriminate H.
Qed.

(** C2, on a file with a declaration followed by a file of plain code. *)
Lemma helpers_accumulate_across_files_witness :
  add "kinda_int" ∅ ⊆ add "kinda_int" ∅
  /\ (exists body,
        "from kinda.langs.python.runtime.fuzzy import kinda_int" +:+ newline +:+ newline
        +:+ "y = 2"
        = import_header "python" (add "kinda_int" ∅) +:+ body)
  /\ (forall h, h ∈ add "kinda_int" ∅ -> h ∈ sorted (elements (add "kinda_int" ∅)))
  /\ (add "kinda_int" ∅ <> ∅ ->
      import_header "python" (add "kinda_int" ∅)
      = "from kinda.langs." +:+ "python" +:+ ".runtime.fuzzy import "
        +:+ join ", " (sorted (elements (add "kinda_int" ∅))) +:+ newline +:+ newline).
Proof.
  apply (helpers_accumulate_across_files mpc fic fwc "~kinda int x = 1" "y = 2" "python"
           ∅ (add "kinda_int" ∅) (add "kinda_int" ∅)
           ("from kinda.langs.python.runtime.fuzzy import kinda_int" +:+ newline +:+ newline
            +:+ "x = kinda_int(1)")
           ("from kinda.langs.python.runtime.fuzzy import kinda_int" +:+ newline +:+ newline
            +:+ "y = 2")).
  - vm_compute. reflexivity.
  - vm_compute. reflexivity.
Defined.

(** C2 as first stated fails on the same two files: the second file
    refers to no helper, and alone it gets no header, but after the first
    file its header names [kinda_int]. *)
Lemma second_header_names_earlier_helpers :
  run_file "~kinda int x = 1" "python" ∅
  = (Returned ("from kinda.langs.python.runtime.fuzzy import kinda_int" +:+ newline
               +:+ newline +:+ "x = kinda_int(1)"),
     add "kinda_int" ∅)
  /\ run_file "y = 2" "python" (add "kinda_int" ∅)
     = (Returned ("from kinda.langs.python.runtime.fuzzy import kinda_int" +:+ newline
                  +:+ newline +:+ "y = 2"),
        add "kinda_int" ∅)
  /\ run_file "y = 2" "python" ∅ = (Returned "y = 2", ∅)
  /\ run_file "y = 2" "python" (add "kinda_int" ∅) <> (Returned "y = 2", add "kinda_int" ∅).
Proof.
  split; [vm_compute; reflexivity|].
  assert (E : run_file "y = 2" "python" (add "kinda_int" ∅)
              = (Returned ("from kinda.langs.python.runtime.fuzzy import kinda_int"
                           +:+ newline +:+ newline +:+ "y = 2"),
                 add "kinda_int" ∅))
    by (vm_compute; reflexivity).
  split; [exact E|]. split; [vm_compute; reflexivity|].
  rewrite E. intros H. discriminate H.
Qed.


(** The block of the example emits its three lines, and not the line that
    ends it. *)
Lemma indented_block_output :
  block_lines mpc fic fwc ["    a = 1"; EmptyString; "    ~kinda int b = 2"] (add "sometimes" ∅)
  = (["    a = 1"; EmptyString; "    b = kinda_int(2)"], add "kinda_int" (add "sometimes" ∅)).
Proof. vm_compute. reflexivity. Qed.

(** C10, on an expression that is blocked. *)
Lemma kinda_assign_after_failed_evaluation_witness :
  Semantics.kinda_assign (fun (f : Empty_set) (_ : Z) => f)
    Semantics.eval_assignment_expression "y" (Semantics.PyStr "__import__('os')") 1 ∅ = ∅.
Proof.
  apply (proj1 (proj2 (kinda_assign_after_failed_evaluation Empty_set
                         (fun (f : Empty_set) (_ : Z) => f)
                         Semantics.eval_assignment_expression "y"
                         (Semantics.PyStr "__import__('os')") 1 ∅
                         ltac:(vm_compute; reflexivity)))).
  vm_compute. reflexivity.
Defined.

(** C10 as first stated fails on the expression [(x := None)]: [evaluate]
    returns [None], and the environment has a binding for [x]
    afterwards. *)
Lemma assignment_expression_changes_env :
  (Semantics.evaluate (pyfloat := Empty_set) Semantics.eval_assignment_expression
     (Semantics.PyStr "(x := None)") ∅).1 = Semantics.PyNone
  /\ Semantics.kinda_assign (fun (f : Empty_set) (_ : Z) => f)
       Semantics.eval_assignment_expression "y" (Semantics.PyStr "(x := None)") 1 ∅
     = {[ "x" := Semantics.PyNone ]}
  /\ Semantics.kinda_assign (fun (f : Empty_set) (_ : Z) => f)
       Semantics.eval_assignment_expression "y" (Semantics.PyStr "(x := None)") 1 ∅
     <> ∅.
Proof.
  split; [vm_compute; reflexivity|].
  assert (E : Semantics.kinda_assign (fun (f : Empty_set) (_ : Z) => f)
                Semantics.eval_assignment_expression "y" (Semantics.PyStr "(x := None)") 1 ∅
              = {[ "x" := Semantics.PyNone ]})
    by (vm_compute; reflexivity).
  split; [exact E|]. rewrite E. intros H.
  apply (f_equal (fun m => m !! "x")) in H. vm_compute in H. discriminate H.
Qed.

End Examples.

(** * Further properties of the code *)

(** ** How the computations of the transformer end *)

Section Endings.

Lemma ends_ret {A} (a : A) (P : A -> Prop) (E : exn -> Prop) : P a -> ends (ret a) P E.
Proof. intros H uh. exact H. Qed.

Lemma ends_raise {A} (e : exn) (P : A -> Prop) (E : exn -> Prop) : E e -> ends (raise e) P E.
Proof. intros H uh. exact H. Qed.

Lemma ends_use (name : string) (P : unit -> Prop) (E : exn -> Prop) :
  P tt -> ends (use name) P E.
Proof. intros H uh. exact H. Qed.

Lemma ends_lift {A} (f : helpers -> A * helpers) (P : A -> Prop) (E : exn -> Prop) :
  (forall uh, P (f uh).1) -> ends (lift f) P E.
Proof. intros H uh. unfold lift. specialize (H uh). now destruct (f uh). Qed.

Lemma ends_bind {A B} (m : M A) (k : A -> M B) (P : A -> Prop) (Q : B -> Prop)
    (E : exn -> Prop) :
  ends m P E -> (forall a, P a -> ends (k a) Q E) -> ends (bind m k) Q E.
Proof.
  intros Hm Hk uh. unfold bind. specialize (Hm uh).
  destruct (m uh) as [[a|e|] uh1]; simpl in *; [apply (Hk a Hm) | exact Hm | exact Hm].
Qed.

Lemma ends_try {A} (m : M A) (handler : exn -> exn) (P : A -> Prop) (E E' : exn -> Prop) :
  ends m P E' -> (forall e, E' e -> E (handler e)) -> ends (try_with m handler) P E.
Proof.
  intros Hm Hh uh. unfold try_with. specialize (Hm uh).
  destruct (m uh) as [[a|e|] uh1]; simpl in *; auto.
Qed.

Lemma ends_weaken {A} (m : M A) (P Q : A -> Prop) (E E' : exn -> Prop) :
  ends m P E -> (forall a, P a -> Q a) -> (forall e, E e -> E' e) -> ends m Q E'.
Proof.
  intros Hm Hp He uh. specialize (Hm uh). destruct (m uh) as [[a|e|] uh1]; simpl in *; auto.
Qed.

End Endings.

Section LineEndings.

Variable match_python_construct : string -> header.
Variable find_ish_constructs : string -> list construct.
Variable find_welp_constructs : string -> list construct.

Local Abbreviation line_of :=
  (transform_line match_python_construct find_ish_constructs find_welp_constructs).

Lemma transformed_code_ends (key : string) (groups : list (option string)) (stripped : string) :
  ends (transformed_code key groups stripped) (fun _ => True) is_attribute_error.
Proof.
  unfold transformed_code, simple_name, strip_of.
  repeat first
    [ apply ends_ret; exact I
    | apply ends_raise; eexists; reflexivity
    | apply (ends_bind _ _ (fun _ => True)); [|intros ? _]
    | apply ends_use; exact I
    | case_match ].
Qed.

Lemma transform_line_ends (line : string) :
  ends (line_of line) (fun out => exists text, out = [text]) is_attribute_error.
Proof.
  unfold transform_line.
  repeat case_match; try (apply ends_ret; eexists; reflexivity).
  - apply (ends_bind _ _ (fun _ => True)); [apply ends_lift; auto|].
    intros gs _. apply (ends_bind _ _ (fun _ => True)); [apply transformed_code_ends|].
    intros code _. apply ends_ret. eexists; reflexivity.
  - apply (ends_bind _ _ (fun _ => True)); [apply ends_lift; auto|].
    intros a _. apply (ends_bind _ _ (fun _ => True)); [apply ends_lift; auto|].
    intros b _. case_match; apply ends_ret; eexists; reflexivity.
Qed.

(** X1.  Whatever the matchers return, [transform_line] gives exactly one
    output line for a line, or raises an [AttributeError]; it raises no
    other exception, and it never gives an empty list (so the warning of
    [transform_file] for an empty result is never issued). *)
Theorem transform_line_one_line (line : string) (uh : helpers) :
  match (line_of line uh).1 with
  | Returned out => exists text, out = [text]
  | Raised e => exists on, e = AttributeError on
  | OutOfFuel => False
  end.
Proof. exact (transform_line_ends line uh). Qed.

(** The loop over the groups keeps their number and which of them are
    absent. *)
Lemma process_group_fold_shape (key : string) (groups acc : list (option string))
    (uh : helpers) :
  exists gs,
    (fold_left (process_group find_ish_constructs find_welp_constructs key) groups (acc, uh)).1
    = (acc ++ gs)%list
    /\ Forall2 (fun g g' => g = None <-> g' = None) groups gs.
Proof.
  revert acc uh. induction groups as [|g groups IH]; intros acc uh; cbn [fold_left].
  - exists []. split; [simpl; now rewrite app_nil_r | constructor].
  - assert (Hstep : exists g' uh',
              process_group find_ish_constructs find_welp_constructs key (acc, uh) g
              = ((acc ++ [g'])%list, uh') /\ (g = None <-> g' = None)).
    { unfold process_group. destruct g as [text|]; [|now exists None, uh].
      destruct (String.eqb key "welp").
      - destruct (length acc =? 1)%nat.
        + destruct (_transform_ish_constructs find_ish_constructs text uh) as [t u].
          exists (Some t), u. split; [reflexivity | split; discriminate].
        + exists (Some text), uh. split; [reflexivity | split; discriminate].
      - destruct (_transform_ish_constructs find_ish_constructs text uh) as [a u1].
        destruct (_transform_welp_constructs find_ish_constructs find_welp_constructs a u1)
          as [b u2].
        exists (Some b), u2. split; [reflexivity | split; discriminate]. }
    destruct Hstep as [g' [uh' [-> Hg]]].
    destruct (IH (acc ++ [g'])%list uh') as [gs [Hfold Hshape]].
    exists (g' :: gs). split; [now rewrite Hfold, <- app_assoc | now constructor].
Qed.

Lemma process_groups_shape (key : string) (groups : list (option string)) (uh : helpers) :
  Forall2 (fun g g' => g = None <-> g' = None) groups
    (process_groups find_ish_constructs find_welp_constructs key groups uh).1.
Proof.
  unfold process_groups. destruct (is_import key).
  - simpl. induction groups; constructor; [tauto | assumption].
  - destruct (process_group_fold_shape key groups [] uh) as [gs [-> Hshape]]. exact Hshape.
Qed.

Lemma mandatory_groups_processed (key : string) (groups : list (option string))
    (uh : helpers) :
  mandatory_groups key groups ->
  mandatory_groups key
    (process_groups find_ish_constructs find_welp_constructs key groups uh).1.
Proof.
  intros [H0 H1]. pose proof (process_groups_shape key groups uh) as Hshape.
  destruct (process_groups _ _ key groups uh) as [gs u]. simpl in *.
  assert (Hk : forall k, gs !! k = Some None -> groups !! k = Some None).
  { intros k Hk. destruct (Forall2_lookup_r _ _ _ _ _ Hshape Hk) as [g [Hg Hiff]].
    rewrite Hg. f_equal. now apply Hiff. }
  split; [intros H; apply H0, Hk, H | intros Hw H; apply (H1 Hw), Hk, H].
Qed.

Lemma transformed_code_returns (key : string) (groups : list (option string))
    (stripped : string) (uh : helpers) :
  mandatory_groups key groups ->
  exists code uh', transformed_code key groups stripped uh = (Returned code, uh').
Proof.
  intros [H0 H1].
  destruct (String.eqb key "welp") eqn:Hw.
  - apply String.eqb_eq in Hw. subst key. specialize (H1 eq_refl).
    destruct groups as [|[g0|] [|[g1|] rest]]; simpl in *; try congruence;
      unfold transformed_code, bind, use, ret, strip_of; simpl;
      repeat case_match; eauto.
  - clear H1. destruct groups as [|[g0|] rest]; simpl in H0; try congruence;
      unfold transformed_code, bind, use, ret, simple_name; rewrite ?Hw; simpl;
      repeat (case_match; simpl); eauto.
Qed.

(** X2.  [transform_line] returns, and raises nothing, on every line for
    which the matcher gives the first group of the construct it finds, and
    both groups of a fallback construct. *)
Theorem transform_line_returns (line : string) (uh : helpers) :
  (forall key groups,
     match_python_construct (strip line) = Some (key, groups) ->
     mandatory_groups key groups) ->
  exists text uh', line_of line uh = (Returned [text], uh').
Proof.
  intros Hm. unfold transform_line.
  destruct (String.eqb (strip line) EmptyString); [now eexists _, _|].
  destruct (startswith "#" (strip line)); [now eexists _, _|].
  destruct (match_python_construct (strip line)) as [[key groups]|] eqn:Hmatch.
  - specialize (Hm key groups eq_refl).
    destruct (main_construct (Some (key, groups))) as [[k gs]|] eqn:Hmain.
    + assert (Hkg : k = key /\ gs = groups).
      { unfold main_construct in Hmain. repeat case_match; try discriminate.
        now injection Hmain as <- <-. }
      destruct Hkg as [-> ->].
      unfold bind at 1. unfold lift.
      pose proof (mandatory_groups_processed key groups uh Hm) as Hp.
      destruct (process_groups _ _ key groups uh) as [gs' u1]. simpl in Hp.
      destruct (transformed_code_returns key gs' (strip line) u1 Hp) as [code [u2 Hc]].
      unfold bind. rewrite Hc. now eexists _, _.
    + unfold bind, lift.
      destruct (_transform_ish_constructs _ line uh) as [a u1].
      destruct (_transform_welp_constructs _ _ a u1) as [b u2].
      destruct (negb (String.eqb b line)); now eexists _, _.
  - simpl. unfold bind, lift.
    destruct (_transform_ish_constructs _ line uh) as [a u1].
    destruct (_transform_welp_constructs _ _ a u1) as [b u2].
    destruct (negb (String.eqb b line)); now eexists _, _.
Qed.

End LineEndings.

(** ** How [transform_file] ends *)

Section FileEndings.

Variable match_python_construct : string -> header.
Variable find_ish_constructs : string -> list construct.
Variable find_welp_constructs : string -> list construct.

Local Abbreviation line_of :=
  (transform_line match_python_construct find_ish_constructs find_welp_constructs).
Local Abbreviation main_loop :=
  (transform_lines match_python_construct find_ish_constructs find_welp_constructs).
Local Abbreviation file_of :=
  (transform_file match_python_construct find_ish_constructs find_welp_constructs).
Local Abbreviation python_block :=
  (python_block_loop match_python_construct find_ish_constructs find_welp_constructs).
Local Abbreviation brace_block :=
  (conditional_block_loop match_python_construct find_ish_constructs find_welp_constructs).
Local Abbreviation file_of_path :=
  (transform_file_of_path match_python_construct find_ish_constructs find_welp_constructs).

Lemma sat_ends {A} (m : M A) (P : A -> Prop) : sat m P -> ends m P (fun _ => True).
Proof.
  intros Hm uh. destruct (Hm uh) as [_ H]. destruct (m uh) as [[a|e|] uh1]; exact H.
Qed.

Lemma transform_line_any (line : string) :
  ends (line_of line) (fun out => length out = 1) (fun _ => True).
Proof.
  eapply ends_weaken; [apply transform_line_ends | | auto].
  intros out [text ->]. reflexivity.
Qed.

Lemma python_block_count (base_indent : nat) (rest : list string) (i : nat)
    (output_lines : list string) :
  ends (python_block base_indent rest i output_lines)
    (block_progress (i + length rest) i output_lines) (fun _ => True).
Proof.
  unfold block_progress.
  revert i output_lines. induction rest as [|line rest IH]; intros i out; cbn [python_block_loop].
  - apply ends_ret. simpl. lia.
  - destruct (String.eqb (strip line) EmptyString).
    + eapply ends_weaken; [apply IH | | auto].
      cbn [length]. intros r Hr. rewrite length_app in Hr. simpl in Hr. lia.
    + destruct (indent_of line <=? base_indent)%nat.
      * apply ends_ret. simpl. lia.
      * apply (ends_bind _ _ (fun t => length t = 1)).
        -- apply (ends_try _ _ _ _ (fun _ => True)); [apply transform_line_any | auto].
        -- intros t Ht. eapply ends_weaken; [apply IH | | auto].
           cbn [length]. intros r Hr. rewrite length_app, Ht in Hr. lia.
Qed.

Lemma brace_block_count (fuel : nat) (lines : list string) (indent : string) (i : nat)
    (brace_count : Z) (output_lines : list string) :
  i <= length lines ->
  length lines - i < fuel ->
  ends (brace_block fuel lines indent i brace_count output_lines)
    (block_progress (length lines) i output_lines) (fun _ => True).
Proof.
  unfold block_progress.
  revert indent i brace_count output_lines.
  induction fuel as [|fuel IH]; intros indent i bc out Hi Hfuel; [lia|].
  cbn [conditional_block_loop].
  destruct (lines !! i) as [line|] eqn:Hline; [|apply ends_ret; simpl; lia].
  apply lookup_lt_Some in Hline.
  set (bc' := if String.eqb (strip line) "}" then (bc - 1)%Z else bc).
  destruct (String.eqb (strip line) "}" && (bc' =? 0)%Z); [apply ends_ret; simpl; lia|].
  destruct (String.eqb (strip line) EmptyString || startswith "#" (strip line)).
  - eapply ends_weaken; [apply IH; lia | | auto].
    intros r Hr. rewrite length_app in Hr. simpl in Hr. lia.
  - apply (ends_bind _ _
             (fun round => i + 1 <= round.1.1 /\ round.1.1 <= length lines
                           /\ length round.2 + i <= length out + round.1.1)).
    + apply (ends_try _ _ _ _ (fun _ => True)); [|auto].
      destruct (is_conditional_header (strip line)).
      * apply (ends_bind _ _ (fun _ => True));
          [apply sat_ends, validate_sat|].
        intros valid _. destruct (negb valid); [apply ends_ret; simpl; lia|].
        apply (ends_bind _ _ (fun t => length t = 1)); [apply transform_line_any|].
        intros t Ht.
        apply (ends_bind _ _
                 (fun r => i + 1 <= r.1 /\ r.1 <= length lines
                           /\ length r.2 + (i + 1) <= length out + 1 + r.1)).
        -- eapply ends_weaken; [apply IH; lia | | auto].
           intros r Hr. rewrite length_app, length_map, Ht in Hr. lia.
        -- intros nested Hn. apply ends_ret. simpl. lia.
      * apply (ends_bind _ _ (fun t => length t = 1)); [apply transform_line_any|].
        intros t Ht. apply ends_ret. simpl. rewrite length_app, length_map, Ht. lia.
    + intros [[i' bc''] out'] Hr. simpl in Hr.
      eapply ends_weaken; [apply IH; lia | | auto].
      intros r Hr'. cbv beta in Hr'. lia.
Qed.

(** Every round of the main loop wraps what is raised in it, and the loop
    emits at most one line for each line of the file. *)
Lemma transform_lines_count (fuel : nat) (lines : list string) (i : nat)
    (output_lines : list string) :
  i <= length lines ->
  length lines - i < fuel ->
  ends (main_loop fuel lines i output_lines)
    (fun r => length r + i <= length output_lines + length lines)
    (is_transform_error lines).
Proof.
  revert i output_lines. induction fuel as [|fuel IH]; intros i out Hi Hfuel; [lia|].
  cbn [transform_lines].
  destruct (lines !! i) as [line|] eqn:Hline; [|apply ends_ret; lia].
  pose proof (lookup_lt_Some _ _ _ Hline) as Hlt.
  apply (ends_bind _ _ (block_progress (length lines) (i + 1) (out ++ [line]))).
  - apply (ends_try _ _ _ _ (fun _ => True)).
    + unfold block_progress. destruct (is_conditional_header (strip line)).
      * apply (ends_bind _ _ (fun _ => True)); [apply sat_ends, validate_sat|].
        intros valid _.
        destruct (negb valid); [apply ends_ret; rewrite length_app; simpl; lia|].
        apply (ends_bind _ _ (fun t => length t = 1)); [apply transform_line_any|].
        intros t Ht. destruct (endswith "{" (strip line)).
        -- eapply ends_weaken; [apply brace_block_count; lia | | auto].
           unfold block_progress. intros r Hr. rewrite !length_app, Ht in *. simpl. lia.
        -- unfold _process_python_indented_block.
           eapply ends_weaken; [apply python_block_count | | auto].
           unfold block_progress. intros r Hr.
           rewrite length_drop, !length_app, Ht in *. simpl. lia.
      * apply (ends_bind _ _ (fun t => length t = 1)); [apply transform_line_any|].
        intros t Ht. apply ends_ret. simpl. rewrite !length_app, Ht. simpl. lia.
    + intros e _. exists e, (i + 1), line. split; [reflexivity|]. split; [lia|].
      now replace (i + 1 - 1) with i by lia.
  - intros [i' out'] [H1 [H2 H3]]. simpl in *.
    eapply ends_weaken; [apply IH; simpl; lia | | auto].
    intros r Hr. cbv beta in Hr. rewrite length_app in H3. simpl in H3. lia.
Qed.


End FileEndings.

(** ** The names the transformer registers *)

Section Registered.

Variable match_python_construct : string -> header.
Variable find_ish_constructs : string -> list construct.
Variable find_welp_constructs : string -> list construct.

Local Abbreviation ish := (_transform_ish_constructs find_ish_constructs).
Local Abbreviation welp := (_transform_welp_constructs find_ish_constructs find_welp_constructs).
Local Abbreviation line_of :=
  (transform_line match_python_construct find_ish_constructs find_welp_constructs).

Lemma within_self (K uh : helpers) : uh ⊆ uh ∪ K.
Proof. apply union_subseteq_l. Qed.

Lemma registers_ret {A} (K : helpers) (a : A) : registers K (ret a).
Proof. intros uh. apply within_self. Qed.

Lemma registers_raise {A} (K : helpers) (e : exn) : registers K (raise (A := A) e).
Proof. intros uh. apply within_self. Qed.

Lemma add_within (K : helpers) (name : string) (uh0 uh : helpers) :
  name ∈ K -> uh ⊆ uh0 ∪ K -> add name uh ⊆ uh0 ∪ K.
Proof.
  intros Hn Hu x Hx. unfold add in Hx. apply elem_of_union in Hx as [Hx | Hx].
  - apply elem_of_singleton in Hx as ->. apply elem_of_union. now right.
  - now apply Hu.
Qed.

Lemma registers_use (K : helpers) (name : string) : name ∈ K -> registers K (use name).
Proof. intros H uh. apply add_within; [exact H | apply within_self]. Qed.

Lemma registers_lift {A} (K : helpers) (f : helpers -> A * helpers) :
  (forall uh, (f uh).2 ⊆ uh ∪ K) -> registers K (lift f).
Proof. intros H uh. unfold lift. specialize (H uh). now destruct (f uh). Qed.

Lemma registers_bind {A B} (K : helpers) (m : M A) (k : A -> M B) :
  registers K m -> (forall a, registers K (k a)) -> registers K (bind m k).
Proof.
  intros Hm Hk uh. unfold bind. specialize (Hm uh).
  destruct (m uh) as [[a|e|] uh1]; simpl in *; try exact Hm.
  specialize (Hk a uh1). intros x Hx. apply Hk in Hx.
  apply elem_of_union in Hx as [Hx | Hx]; [now apply Hm | apply elem_of_union; now right].
Qed.

Lemma registers_try {A} (K : helpers) (m : M A) (handler : exn -> exn) :
  registers K m -> registers K (try_with m handler).
Proof.
  intros Hm uh. unfold try_with. specialize (Hm uh).
  destruct (m uh) as [[a|e|] uh1]; exact Hm.
Qed.

Lemma known (name : string) :
  In name ["ish_value"; "ish_comparison"; "welp_fallback"; "kinda_int"; "kinda_binary";
           "sorta_print"; "sometimes"; "maybe"; "fuzzy_assign"; "kinda_import";
           "maybe_import"] ->
  name ∈ known_helpers.
Proof. intros H. unfold known_helpers. apply elem_of_list_to_set. now apply list_elem_of_In. Qed.

Ltac known := apply known; simpl; tauto.

Lemma add_known (name : string) (uh0 uh : helpers) :
  name ∈ known_helpers -> uh ⊆ uh0 ∪ known_helpers -> add name uh ⊆ uh0 ∪ known_helpers.
Proof. apply add_within. Qed.

Lemma ish_replacement_known (line : string) (c : construct) (uh0 uh : helpers) :
  uh ⊆ uh0 ∪ known_helpers -> (ish_replacement line c uh).2 ⊆ uh0 ∪ known_helpers.
Proof.
  intros H. unfold ish_replacement.
  repeat (case_match; simpl); try exact H;
    repeat (apply add_known; [known|]); exact H.
Qed.

Lemma fold_left_known {A B} (f : A * helpers -> B -> A * helpers) (l : list B)
    (acc : A * helpers) (uh0 : helpers) :
  (forall acc b, acc.2 ⊆ uh0 ∪ known_helpers -> (f acc b).2 ⊆ uh0 ∪ known_helpers) ->
  acc.2 ⊆ uh0 ∪ known_helpers -> (fold_left f l acc).2 ⊆ uh0 ∪ known_helpers.
Proof.
  intros Hf. revert acc. induction l as [|b l IH]; intros acc Hacc; simpl; [exact Hacc|].
  apply IH, Hf, Hacc.
Qed.

Lemma ish_known (line : string) (uh0 uh : helpers) :
  uh ⊆ uh0 ∪ known_helpers -> (ish line uh).2 ⊆ uh0 ∪ known_helpers.
Proof.
  intros H. unfold _transform_ish_constructs.
  destruct (find_ish_constructs line) as [|c cs]; [exact H|].
  apply (fold_left_known (ish_step line) _ (line, uh)); [|exact H].
  intros [t u] b Hu. unfold ish_step. simpl in *.
  pose proof (ish_replacement_known line b uh0 u Hu) as Hk.
  destruct (ish_replacement line b u) as [[r|] u']; exact Hk.
Qed.

Lemma welp_known (line : string) (uh0 uh : helpers) :
  uh ⊆ uh0 ∪ known_helpers -> (welp line uh).2 ⊆ uh0 ∪ known_helpers.
Proof.
  intros H. unfold _transform_welp_constructs.
  destruct (find_welp_constructs line) as [|c cs]; [exact H|].
  apply (fold_left_known (welp_step find_ish_constructs) _ (line, uh)); [|exact H].
  intros [t u] b Hu. unfold welp_step. simpl in *.
  destruct (String.eqb (construct_type b) "welp"); [|exact Hu].
  assert (Hw : add "welp_fallback" u ⊆ uh0 ∪ known_helpers) by (apply add_known; [known | exact Hu]).
  destruct (group b 1) as [g1|]; [|exact Hw].
  destruct (group b 2) as [g2|]; [|exact Hw].
  pose proof (ish_known (strip g1) uh0 _ Hw) as H1.
  destruct (ish (strip g1) (add "welp_fallback" u)) as [p u1]. simpl in H1.
  pose proof (ish_known (strip g2) uh0 _ H1) as H2.
  destruct (ish (strip g2) u1) as [f u2]. exact H2.
Qed.

Lemma process_groups_known (key : string) (groups : list (option string)) (uh : helpers) :
  (process_groups find_ish_constructs find_welp_constructs key groups uh).2
  ⊆ uh ∪ known_helpers.
Proof.
  unfold process_groups. destruct (is_import key); [apply within_self|].
  apply (fold_left_known _ groups ([], uh)); [|apply within_self].
  intros [p u] g Hu. unfold process_group. simpl in *.
  destruct g as [text|]; [|exact Hu].
  destruct (String.eqb key "welp").
  - destruct (length p =? 1)%nat; [|exact Hu].
    pose proof (ish_known text uh u Hu) as H. now destruct (ish text u).
  - pose proof (ish_known text uh u Hu) as H1. destruct (ish text u) as [a u1].
    simpl in H1.
    pose proof (welp_known a uh u1 H1) as H2. now destruct (welp a u1).
Qed.

Lemma compose_known_step (f : string -> helpers -> string * helpers) (text : string) :
  (forall uh0 uh, uh ⊆ uh0 ∪ known_helpers -> (f text uh).2 ⊆ uh0 ∪ known_helpers) ->
  forall uh, (f text uh).2 ⊆ uh ∪ known_helpers.
Proof. intros H uh. apply H. apply within_self. Qed.

Lemma transformed_code_registers (key : string) (groups : list (option string))
    (stripped : string) :
  registers known_helpers (transformed_code key groups stripped).
Proof.
  unfold transformed_code, simple_name, strip_of.
  repeat first
    [ apply registers_ret
    | apply registers_raise
    | apply registers_bind; [|intros ?]
    | apply registers_use; known
    | case_match ].
Qed.

Lemma transform_line_registers (line : string) : registers known_helpers (line_of line).
Proof.
  unfold transform_line.
  repeat case_match; try apply registers_ret.
  - apply registers_bind; [apply registers_lift, process_groups_known|].
    intros gs. apply registers_bind; [apply transformed_code_registers|].
    intros code. apply registers_ret.
  - apply registers_bind.
    + apply registers_lift. intros uh. apply ish_known, within_self.
    + intros a. apply registers_bind.
      * apply registers_lift. intros uh. apply welp_known, within_self.
      * intros b. case_match; apply registers_ret.
Qed.

Lemma validate_registers (line : string) (line_number : nat) :
  registers known_helpers (_validate_conditional_syntax line line_number).
Proof.
  unfold _validate_conditional_syntax.
  repeat case_match; first [apply registers_raise | apply registers_ret].
Qed.

Lemma python_block_registers (base_indent : nat) (rest : list string) (i : nat)
    (output_lines : list string) :
  registers known_helpers
    (python_block_loop match_python_construct find_ish_constructs find_welp_constructs
       base_indent rest i output_lines).
Proof.
  revert i output_lines. induction rest as [|line rest IH]; intros i out; simpl.
  - apply registers_ret.
  - repeat case_match; try apply registers_ret; try apply IH.
    apply registers_bind; [apply registers_try, transform_line_registers|].
    intros t. apply IH.
Qed.

Lemma brace_block_registers (fuel : nat) (lines : list string) (indent : string) (i : nat)
    (brace_count : Z) (output_lines : list string) :
  registers known_helpers
    (conditional_block_loop match_python_construct find_ish_constructs find_welp_constructs
       fuel lines indent i brace_count output_lines).
Proof.
  revert indent i brace_count output_lines.
  induction fuel as [|fuel IH]; intros indent i bc out; simpl.
  - intros uh. apply within_self.
  - destruct (lines !! i) as [line|]; [|apply registers_ret].
    set (bc' := if String.eqb (strip line) "}" then (bc - 1)%Z else bc).
    destruct (String.eqb (strip line) "}" && (bc' =? 0)%Z); [apply registers_ret|].
    destruct (String.eqb (strip line) EmptyString || startswith "#" (strip line));
      [apply IH|].
    apply registers_bind; [|intros [[i' bc''] out']; apply IH].
    apply registers_try. destruct (is_conditional_header (strip line)).
    + apply registers_bind; [apply validate_registers|].
      intros valid. destruct (negb valid); [apply registers_ret|].
      apply registers_bind; [apply transform_line_registers|].
      intros t. apply registers_bind; [apply IH|]. intros nested. apply registers_ret.
    + apply registers_bind; [apply transform_line_registers|].
      intros t. apply registers_ret.
Qed.

Lemma transform_lines_registers (fuel : nat) (lines : list string) (i : nat)
    (output_lines : list string) :
  registers known_helpers
    (transform_lines match_python_construct find_ish_constructs find_welp_constructs
       fuel lines i output_lines).
Proof.
  revert i output_lines. induction fuel as [|fuel IH]; intros i out; simpl.
  - intros uh. apply within_self.
  - destruct (lines !! i) as [line|]; [|apply registers_ret].
    apply registers_bind; [|intros [i' out']; apply IH].
    apply registers_try. destruct (is_conditional_header (strip line)).
    + apply registers_bind; [apply validate_registers|].
      intros valid. destruct (negb valid); [apply registers_ret|].
      apply registers_bind; [apply transform_line_registers|].
      intros t. destruct (endswith "{" (strip line)).
      * apply brace_block_registers.
      * apply python_block_registers.
    + apply registers_bind; [apply transform_line_registers|].
      intros t. apply registers_ret.
Qed.

(** X4.  Whatever the matchers return, [transform_file] registers no name
    but those of the eleven runtime helpers: the helper set after a call
    holds the names it held before and names of [known_helpers], so an
    import header of a fresh process names runtime helpers only. *)
Theorem transform_file_registers_known (content target_language : string) (uh : helpers) :
  (transform_file match_python_construct find_ish_constructs find_welp_constructs
     content target_language uh).2 ⊆ uh ∪ known_helpers.
Proof.
  revert uh. change (registers known_helpers
    (transform_file match_python_construct find_ish_constructs find_welp_constructs
       content target_language)).
  unfold transform_file. apply registers_bind; [apply transform_lines_registers|].
  intros out uh. apply within_self.
Qed.

End Registered.

(** ** The conditional blocks *)

Section Blocks.

Import PyStrFacts.

Variable match_python_construct : string -> header.
Variable find_ish_constructs : string -> list construct.
Variable find_welp_constructs : string -> list construct.

Local Abbreviation line_of :=
  (transform_line match_python_construct find_ish_constructs find_welp_constructs).
Local Abbreviation brace_block :=
  (conditional_block_loop match_python_construct find_ish_constructs find_welp_constructs).
Local Abbreviation main_loop :=
  (transform_lines match_python_construct find_ish_constructs find_welp_constructs).
Local Abbreviation emitted :=
  (block_lines match_python_construct find_ish_constructs find_welp_constructs).

(** X5.  [_validate_conditional_syntax] never returns [False] and never
    touches the helpers: it returns [True], or raises a [KindaParseError]
    with the number and the text it was given; it raises only for a line
    without any opening parenthesis that is not a [~maybe import] line. *)
Theorem validate_conditional_syntax_outcome (line : string) (line_number : nat)
    (uh : helpers) :
  match _validate_conditional_syntax line line_number uh with
  | (Returned valid, uh') => valid = true /\ uh' = uh
  | (Raised e, uh') =>
      uh' = uh /\ str_in "(" line = false /\ startswith "~maybe import" line = false
      /\ exists advice, e = KindaParseError (Text advice) line_number line
  | (OutOfFuel, _) => False
  end.
Proof.
  unfold _validate_conditional_syntax.
  destruct (startswith "~sometimes" line) eqn:Hs.
  - destruct (str_in "(" line) eqn:Hp; rewrite ?andb_false_r, ?andb_true_r; simpl.
    + now split.
    + destruct (startswith "~sometimes(" line) eqn:Hsp; simpl.
      * exfalso. apply startswith_spec in Hsp as [t ->].
        assert (H : str_in "(" ("~sometimes(" +:+ t) = true)
          by (apply str_in_spec; now exists "~sometimes", t).
        congruence.
      * split; [reflexivity|]. split; [reflexivity|]. split; [|now eexists].
        destruct (startswith "~maybe import" line) eqn:Hm; [|reflexivity].
        apply startswith_spec in Hs as [t ->]. discriminate Hm.
  - destruct (startswith "~maybe" line) eqn:Hm; [|now split].
    destruct (startswith "~maybe import" line) eqn:Hi; simpl; [now split|].
    destruct (str_in "(" line) eqn:Hp; simpl; [now split|].
    split; [reflexivity|]. split; [reflexivity|]. split; [reflexivity | now eexists].
Qed.

Lemma validate_without_parenthesis (line : string) (line_number : nat) (uh : helpers) :
  is_conditional_header line = true ->
  str_in "(" line = false ->
  startswith "~maybe import" line = false ->
  exists advice,
    _validate_conditional_syntax line line_number uh
    = (Raised (KindaParseError (Text advice) line_number line), uh).
Proof.
  intros Hh Hp Hi. unfold _validate_conditional_syntax. rewrite Hp, Hi.
  unfold is_conditional_header in Hh.
  destruct (startswith "~sometimes" line) eqn:Hs.
  - destruct (startswith "~sometimes(" line) eqn:Hsp.
    + exfalso. apply startswith_spec in Hsp as [t Ht].
      assert (H : str_in "(" line = true)
        by (apply str_in_spec; exists "~sometimes", t; now rewrite Ht).
      congruence.
    + now eexists.
  - simpl in Hh. rewrite Hh. now eexists.
Qed.

Lemma drop_head {A : Type} (l : list A) (i : nat) (x : A) (r : list A) :
  drop i l = x :: r -> l !! i = Some x /\ drop (i + 1) l = r.
Proof.
  intros H. split.
  - replace i with (i + 0) by lia. rewrite <- lookup_drop, H. reflexivity.
  - rewrite <- drop_drop, H. reflexivity.
Qed.

Lemma comment_line (line : string) (uh : helpers) :
  strip line <> EmptyString -> startswith "#" (strip line) = true ->
  line_of line uh = (Returned [line], uh).
Proof.
  intros Hb Hc. unfold transform_line.
  apply String.eqb_neq in Hb. now rewrite Hb, Hc.
Qed.

(** Over the plain lines of a brace block, none of which raises, the
    block emits the transformed lines behind the indentation and goes on
    after them with the same count of open braces. *)
Lemma brace_block_body (body : list string) (fuel : nat) (lines tail : list string)
    (indent : string) (i : nat) (brace_count : Z) (output_lines : list string)
    (uh : helpers) :
  drop i lines = (body ++ tail)%list ->
  Forall plain_in_braces body ->
  (forall l u, l ∈ body -> exists o u', line_of l u = (Returned o, u')) ->
  length body <= fuel ->
  brace_block fuel lines indent i brace_count output_lines uh
  = brace_block (fuel - length body) lines indent (i + length body) brace_count
      (output_lines ++ map (String.append indent) (emitted body uh).1)%list
      (emitted body uh).2.
Proof.
  revert fuel i output_lines uh.
  induction body as [|line body IH]; intros fuel i out uh Hdrop Hbody Hok Hfuel.
  - simpl. now rewrite Nat.sub_0_r, Nat.add_0_r, app_nil_r.
  - apply Forall_cons in Hbody as [[Hclose Hline] Hbody].
    assert (Hok' : forall l u, l ∈ body -> exists o u', line_of l u = (Returned o, u')).
    { intros l u Hl. apply Hok. now right. }
    destruct fuel as [|fuel]; [simpl in Hfuel; lia|].
    simpl in Hdrop. apply drop_head in Hdrop as [Hi Hdrop].
    cbn [conditional_block_loop]. rewrite Hi.
    apply String.eqb_neq in Hclose. rewrite Hclose. cbn [andb].
    cbn [length]. replace (S fuel - S (length body)) with (fuel - length body) by lia.
    replace (i + S (length body)) with (i + 1 + length body) by lia.
    assert (Hfuel' : length body <= fuel) by (simpl in Hfuel; lia).
    cbn [block_lines].
    destruct (String.eqb (strip line) EmptyString) eqn:Hb.
    + cbn [orb]. rewrite (IH fuel (i + 1) _ uh Hdrop Hbody Hok' Hfuel').
      destruct (emitted body uh) as [r u]. cbn [fst snd map].
      now rewrite <- app_assoc.
    + cbn [orb]. apply String.eqb_neq in Hb.
      destruct (startswith "#" (strip line)) eqn:Hc.
      * rewrite (comment_line line uh Hb Hc).
        rewrite (IH fuel (i + 1) _ uh Hdrop Hbody Hok' Hfuel').
        destruct (emitted body uh) as [r u]. cbn [fst snd map app].
        now rewrite <- app_assoc.
      * destruct Hline as [Hblank | [Hc' | [Hh Hbrace]]];
          [contradiction | discriminate |].
        rewrite Hh, Hbrace.
        destruct (Hok line uh) as [o [u' Ho]]; [now left|].
        unfold bind at 1. unfold try_with. unfold bind at 1. rewrite Ho.
        cbn [ret fst snd].
        rewrite (IH fuel (i + 1) _ u' Hdrop Hbody Hok' Hfuel').
        destruct (emitted body u') as [r u]. cbn [fst snd].
        now rewrite map_app, <- app_assoc.
Qed.

(** A brace block of plain lines ends at the first lone closing brace. *)
Lemma brace_block_closes (fuel : nat) (lines body rest : list string)
    (closing : string) (start_index : nat) (output_lines : list string)
    (indent : string) (uh : helpers) :
  drop start_index lines = (body ++ closing :: rest)%list ->
  strip closing = "}" ->
  Forall plain_in_braces body ->
  (forall l u, l ∈ body -> exists o u', line_of l u = (Returned o, u')) ->
  length body < fuel ->
  brace_block fuel lines indent start_index 1 output_lines uh
  = (Returned (start_index + length body + 1,
               (output_lines ++ map (String.append indent) (emitted body uh).1)%list),
     (emitted body uh).2).
Proof.
  intros Hdrop Hclose Hbody Hok Hfuel.
  rewrite (brace_block_body body fuel lines (closing :: rest) indent start_index 1
             output_lines uh Hdrop Hbody Hok ltac:(lia)).
  destruct (fuel - length body) as [|k] eqn:Hk; [lia|].
  cbn [conditional_block_loop].
  assert (Hi : lines !! (start_index + length body) = Some closing).
  { rewrite <- lookup_drop, Hdrop, lookup_app_r by lia. now rewrite Nat.sub_diag. }
  rewrite Hi, Hclose. reflexivity.
Qed.

Lemma header_not_special (header : string) :
  is_conditional_header (strip header) = true ->
  String.eqb (strip header) "}" = false
  /\ String.eqb (strip header) EmptyString = false
  /\ startswith "#" (strip header) = false.
Proof.
  unfold is_conditional_header. intros H.
  apply orb_true_iff in H as [H | H]; apply startswith_spec in H as [t ->];
    repeat split; reflexivity.
Qed.

(** X6.  After a conditional header that ends in an opening brace, the
    brace block takes the plain lines up to the first line that is a lone
    closing brace.  It emits them transformed, each behind four blanks,
    emits nothing for the brace and returns the index after it, from
    which the main loop goes on. *)
Theorem brace_block_ends_at_brace (fuel : nat) (lines body rest : list string)
    (header closing : string) (i : nat) (output_lines header_out : list string)
    (uh uh1 : helpers) :
  lines !! i = Some header ->
  is_conditional_header (strip header) = true ->
  str_in "(" (strip header) = true ->
  endswith "{" (strip header) = true ->
  drop (i + 1) lines = (body ++ closing :: rest)%list ->
  strip closing = "}" ->
  Forall plain_in_braces body ->
  line_of header uh = (Returned header_out, uh1) ->
  (forall l u, l ∈ body -> exists o u', line_of l u = (Returned o, u')) ->
  length lines - (i + 1) < fuel ->
  let block_out :=
    ((output_lines ++ header_out)
     ++ map (String.append "    ") (emitted body uh1).1)%list in
  _process_conditional_block match_python_construct find_ish_constructs
    find_welp_constructs fuel lines (i + 1) (output_lines ++ header_out)%list "    " uh1
  = (Returned (i + 1 + length body + 1, block_out), (emitted body uh1).2)
  /\ main_loop (S fuel) lines i output_lines uh
     = main_loop fuel lines (i + 1 + length body + 1) block_out (emitted body uh1).2.
Proof.
  intros Hi Hh Hp Hb Hdrop Hclose Hbody Hline Hok Hfuel block_out.
  assert (Hlen : length body + 1 + length rest = length lines - (i + 1)).
  { rewrite <- length_drop, Hdrop, length_app. simpl. lia. }
  assert (Hblock :
    _process_conditional_block match_python_construct find_ish_constructs
      find_welp_constructs fuel lines (i + 1) (output_lines ++ header_out)%list "    " uh1
    = (Returned (i + 1 + length body + 1, block_out), (emitted body uh1).2)).
  { unfold _process_conditional_block.
    apply (brace_block_closes fuel lines body rest closing _ _ _ _
             Hdrop Hclose Hbody Hok).
    clear -Hlen Hfuel. lia. }
  split; [exact Hblock|].
  cbn [transform_lines]. rewrite Hi. unfold bind at 1. unfold try_with.
  rewrite Hh. unfold bind at 1.
  rewrite (validate_with_parenthesis _ _ _ Hp). cbn [negb ret].
  unfold bind at 1. rewrite Hline, Hb, Hblock. reflexivity.
Qed.

(** X7.  A brace block that is never closed is accepted: over plain
    lines up to the end of the file the block emits the transformed lines
    and returns the number of lines of the file, raising nothing. *)
Theorem unclosed_brace_block_is_accepted (fuel : nat) (lines body : list string)
    (start_index : nat) (output_lines : list string) (indent : string) (uh : helpers) :
  start_index <= length lines ->
  drop start_index lines = body ->
  Forall plain_in_braces body ->
  (forall l u, l ∈ body -> exists o u', line_of l u = (Returned o, u')) ->
  length lines - start_index < fuel ->
  _process_conditional_block match_python_construct find_ish_constructs
    find_welp_constructs fuel lines start_index output_lines indent uh
  = (Returned (length lines,
               (output_lines ++ map (String.append indent) (emitted body uh).1)%list),
     (emitted body uh).2).
Proof.
  intros Hstart Hdrop Hbody Hok Hfuel.
  assert (Hlen : length body = length lines - start_index).
  { now rewrite <- length_drop, Hdrop. }
  unfold _process_conditional_block.
  rewrite (brace_block_body body fuel lines [] indent start_index 1
             output_lines uh ltac:(now rewrite app_nil_r) Hbody Hok ltac:(lia)).
  destruct (fuel - length body) as [|k] eqn:Hk; [lia|].
  cbn [conditional_block_loop].
  rewrite (lookup_ge_None_2 lines (start_index + length body)) by lia.
  unfold ret. repeat f_equal. lia.
Qed.

(** X8.  A conditional header inside a brace block opens a nested block,
    whether or not the header ends in an opening brace: the lines up to
    the next lone closing brace are emitted four blanks deeper, that
    brace ends the nested block only, and the lines after it are emitted
    at the indentation of the outer block up to its own closing brace. *)
Theorem nested_brace_block (fuel : nat) (lines inner post rest : list string)
    (nested_header inner_closing closing : string) (start_index : nat)
    (output_lines nested_out : list string) (indent : string) (uh uh1 : helpers) :
  drop start_index lines
  = (nested_header :: inner ++ inner_closing :: post ++ closing :: rest)%list ->
  is_conditional_header (strip nested_header) = true ->
  str_in "(" (strip nested_header) = true ->
  strip inner_closing = "}" ->
  strip closing = "}" ->
  Forall plain_in_braces inner ->
  Forall plain_in_braces post ->
  line_of nested_header uh = (Returned nested_out, uh1) ->
  (forall l u, l ∈ (inner ++ post)%list -> exists o u', line_of l u = (Returned o, u')) ->
  length lines - start_index < fuel ->
  let uh2 := (emitted inner uh1).2 in
  _process_conditional_block match_python_construct find_ish_constructs
    find_welp_constructs fuel lines start_index output_lines indent uh
  = (Returned (start_index + 1 + length inner + 1 + length post + 1,
               (output_lines
                ++ map (String.append indent) nested_out
                ++ map (String.append (indent +:+ "    ")) (emitted inner uh1).1
                ++ map (String.append indent) (emitted post uh2).1)%list),
     (emitted post uh2).2).
Proof.
  intros Hdrop Hh Hp Hc2 Hc Hinner Hpost Hline Hok Hfuel uh2.
  assert (Hlen : 1 + length inner + 1 + length post + 1 + length rest
                 = length lines - start_index).
  { rewrite <- length_drop, Hdrop. cbn [length]. rewrite length_app. cbn [length].
    rewrite length_app. cbn [length]. lia. }
  destruct (header_not_special _ Hh) as [Hn1 [Hn2 Hn3]].
  apply drop_head in Hdrop as [Hi Hdrop].
  unfold _process_conditional_block.
  destruct fuel as [|fuel]; [lia|].
  cbn [conditional_block_loop]. rewrite Hi, Hn1, Hn2, Hn3. cbn [andb orb].
  rewrite Hh. unfold bind at 1. unfold try_with. unfold bind at 1.
  rewrite (validate_with_parenthesis _ _ _ Hp). cbn [negb ret].
  unfold bind at 1. rewrite Hline. unfold bind at 1.
  rewrite (brace_block_closes fuel lines inner (post ++ closing :: rest) inner_closing
             (start_index + 1) _ (indent +:+ "    ") uh1 Hdrop Hc2 Hinner);
    [| intros l u Hl; apply Hok, elem_of_app; now left | lia].
  cbn [ret fst snd].
  assert (Hdrop' : drop (start_index + 1 + length inner + 1) lines
                   = (post ++ closing :: rest)%list).
  { replace (start_index + 1 + length inner + 1)
      with (start_index + 1 + (length inner + 1)) by lia.
    rewrite <- drop_drop, Hdrop.
    rewrite drop_app_ge by lia.
    replace (length inner + 1 - length inner) with 1 by lia. reflexivity. }
  rewrite (brace_block_closes fuel lines post rest closing _ _ indent uh2
             Hdrop' Hc Hpost);
    [| intros l u Hl; apply Hok, elem_of_app; now right | lia].
  rewrite <- !app_assoc. reflexivity.
Qed.

(** X23.  A nested conditional header without any parenthesis inside a
    brace block stops [transform_file] with an error located at the
    header of the block: the error of the failed transform carries the
    number and the text of the outer header, around the error of the
    block, which carries the number and the text of the nested line,
    around the error of the validation.  The helpers registered up to
    there stay registered. *)
Theorem block_error_is_located_at_header (fuel : nat) (lines pre rest : list string)
    (header bad : string) (i : nat) (output_lines header_out : list string)
    (uh uh1 : helpers) :
  lines !! i = Some header ->
  is_conditional_header (strip header) = true ->
  str_in "(" (strip header) = true ->
  endswith "{" (strip header) = true ->
  drop (i + 1) lines = (pre ++ bad :: rest)%list ->
  Forall plain_in_braces pre ->
  line_of header uh = (Returned header_out, uh1) ->
  (forall l u, l ∈ pre -> exists o u', line_of l u = (Returned o, u')) ->
  is_conditional_header (strip bad) = true ->
  str_in "(" (strip bad) = false ->
  startswith "~maybe import" (strip bad) = false ->
  length lines - (i + 1) < fuel ->
  let inner_number := i + 1 + length pre + 1 in
  exists advice,
    main_loop (S fuel) lines i output_lines uh
    = (Raised
         (KindaParseError
            (Because "Transform failed: "
               (KindaParseError
                  (Because "Error in conditional block: "
                     (KindaParseError (Text advice) inner_number (strip bad)))
                  inner_number bad))
            (i + 1) header),
       (emitted pre uh1).2).
Proof.
  intros Hi Hh Hp Hb Hdrop Hpre Hline Hok Hbh Hbp Hbi Hfuel inner_number.
  assert (Hlen : length pre + 1 + length rest = length lines - (i + 1)).
  { rewrite <- length_drop, Hdrop, length_app. simpl. lia. }
  destruct (validate_without_parenthesis (strip bad) inner_number (emitted pre uh1).2
              Hbh Hbp Hbi) as [advice Hv].
  exists advice.
  destruct (header_not_special _ Hbh) as [Hn1 [Hn2 Hn3]].
  cbn [transform_lines]. rewrite Hi. unfold bind at 1. unfold try_with.
  rewrite Hh. unfold bind at 1.
  rewrite (validate_with_parenthesis _ _ _ Hp). cbn [negb ret].
  unfold bind at 1. rewrite Hline, Hb.
  unfold _process_conditional_block.
  rewrite (brace_block_body pre fuel lines (bad :: rest) "    " (i + 1) 1 _ uh1
             Hdrop Hpre Hok ltac:(lia)).
  destruct (fuel - length pre) as [|k] eqn:Hk; [lia|].
  cbn [conditional_block_loop].
  assert (Hlook : lines !! (i + 1 + length pre) = Some bad).
  { rewrite <- lookup_drop, Hdrop, lookup_app_r by lia. now rewrite Nat.sub_diag. }
  rewrite Hlook, Hn1, Hn2, Hn3. cbn [andb orb]. rewrite Hbh.
  unfold bind at 1. unfold try_with. unfold bind at 1.
  fold inner_number. rewrite Hv. reflexivity.
Qed.

(** X22.  After a conditional header without an opening brace, when
    every following line is blank or indented deeper than the header, the
    indented block runs to the end of the file, and so does the main
    loop: the output is the header line and the lines of the block, each
    kept at its own indentation. *)
Theorem indented_block_runs_to_end_of_file (fuel : nat) (lines body : list string)
    (header : string) (i : nat) (output_lines header_out : list string)
    (uh uh1 : helpers) :
  lines !! i = Some header ->
  is_conditional_header (strip header) = true ->
  str_in "(" (strip header) = true ->
  endswith "{" (strip header) = false ->
  drop (i + 1) lines = body ->
  Forall (fun l => strip l = EmptyString \/ indent_of header < indent_of l) body ->
  line_of header uh = (Returned header_out, uh1) ->
  (forall l u, l ∈ body -> exists o u', line_of l u = (Returned o, u')) ->
  main_loop (S (S fuel)) lines i output_lines uh
  = (Returned ((output_lines ++ header_out) ++ (emitted body uh1).1)%list,
     (emitted body uh1).2).
Proof.
  intros Hi Hh Hp Hb Hdrop Hbody Hline Hok.
  assert (Hlen : i + 1 + length body = length lines).
  { pose proof (lookup_lt_Some _ _ _ Hi) as Hlt.
    rewrite <- Hdrop, length_drop. lia. }
  cbn [transform_lines]. rewrite Hi. unfold bind at 1. unfold try_with.
  rewrite Hh. unfold bind at 1.
  rewrite (validate_with_parenthesis _ _ _ Hp). cbn [negb ret].
  unfold bind at 1. rewrite Hline, Hb.
  unfold _process_python_indented_block. rewrite Hdrop.
  rewrite (python_block_body match_python_construct find_ish_constructs
             find_welp_constructs _ body (i + 1) _ uh1 Hbody Hok).
  cbn [fst snd].
  rewrite (lookup_ge_None_2 lines (i + 1 + length body)) by lia.
  reflexivity.
Qed.

End Blocks.

(** ** Fallback constructs in place *)

Section WelpInPlace.

Import PyStrFacts.

Variable find_ish_constructs : string -> list construct.
Variable find_welp_constructs : string -> list construct.

Local Abbreviation ish := (_transform_ish_constructs find_ish_constructs).
Local Abbreviation welp := (_transform_welp_constructs find_ish_constructs find_welp_constructs).

Lemma ish_fold_text (line : string) (cs : list construct) (text : string) (u u' : helpers) :
  (fold_left (ish_step line) cs (text, u)).1 = (fold_left (ish_step line) cs (text, u')).1.
Proof.
  revert text u u'. induction cs as [|c cs IH]; intros text u u'; [reflexivity|].
  cbn [fold_left]. unfold ish_step at 2 4.
  rewrite (surjective_pairing (ish_replacement line c u)).
  rewrite (surjective_pairing (ish_replacement line c u')).
  rewrite (ish_replacement_text line c u), (ish_replacement_text line c u').
  destruct (ish_replacement line c ∅).1; apply IH.
Qed.

Lemma ish_text (text : string) (u : helpers) : (ish text u).1 = (ish text ∅).1.
Proof.
  unfold _transform_ish_constructs.
  destruct (find_ish_constructs text); [reflexivity | apply ish_fold_text].
Qed.

Lemma welp_step_text (text : string) (c : construct) (u : helpers) :
  (welp_step find_ish_constructs (text, u) c).1
  = match welp_replacement find_ish_constructs c with
    | Some replacement => splice text c replacement
    | None => text
    end.
Proof.
  unfold welp_step, welp_replacement.
  destruct (String.eqb (construct_type c) "welp"); [|reflexivity].
  destruct (group c 1) as [g1|]; [|reflexivity].
  destruct (group c 2) as [g2|]; [|reflexivity].
  rewrite (surjective_pairing (ish (strip g1) _)).
  rewrite (surjective_pairing (ish (strip g2) _)).
  cbn [fst]. now rewrite (ish_text (strip g1)), (ish_text (strip g2)).
Qed.

Lemma fold_welp_rewritten (line : string) (cs : list construct) (pos : nat) (uh : helpers) :
  ordered_spans (len line) pos cs -> pos <= len line ->
  (fold_right (fun c acc => welp_step find_ish_constructs acc c) (line, uh) cs).1
  = slice_to pos line +:+ welp_rewritten find_ish_constructs line pos cs.
Proof.
  revert pos. induction cs as [|c cs IH]; intros pos Hord Hpos; simpl.
  - now rewrite slice_to_from.
  - simpl in Hord. destruct Hord as [H1 [H2 [H3 H4]]].
    destruct (fold_right _ _ cs) as [t u] eqn:Hfold.
    rewrite welp_step_text.
    destruct (welp_replacement find_ish_constructs c) as [r|].
    + specialize (IH (end_pos c) H4 H3). simpl in IH. subst t.
      unfold splice.
      rewrite slice_to_app_le by (rewrite len_slice_to; lia).
      rewrite slice_to_slice_to by exact H2.
      rewrite (slice_from_after (end_pos c) line _ H3).
      rewrite (slice_to_split pos (start_pos c) line H1).
      now rewrite !sapp_assoc.
    + assert (Hle : pos <= end_pos c) by lia.
      exact (IH pos (ordered_spans_from _ _ _ _ Hle H4) Hpos).
Qed.

(** X10.  Every fallback construct of a line is replaced at its own
    offsets in the line by the call of [welp_fallback] on its two sides,
    each stripped and with its approximate constructs rewritten, when the
    spans are listed in order and do not overlap; a construct without its
    two groups is left as it is. *)
Theorem welp_rewrites_in_place (line : string) (uh : helpers) :
  ordered_spans (len line) 0 (find_welp_constructs line) ->
  (welp line uh).1 = welp_rewritten find_ish_constructs line 0 (find_welp_constructs line).
Proof.
  intros Hord. unfold _transform_welp_constructs.
  destruct (find_welp_constructs line) as [|c cs] eqn:Hf; [reflexivity|].
  rewrite <- fold_left_rev_right, rev_involutive.
  rewrite (fold_welp_rewritten line (c :: cs) 0 uh Hord ltac:(lia)).
  replace (slice_to 0 line) with EmptyString by now destruct line.
  now rewrite sapp_nil_l.
Qed.

End WelpInPlace.

(** ** Files of plain lines *)

Section PlainFiles.

Import PyStrFacts.

Variable match_python_construct : string -> header.
Variable find_ish_constructs : string -> list construct.
Variable find_welp_constructs : string -> list construct.

Local Abbreviation line_of :=
  (transform_line match_python_construct find_ish_constructs find_welp_constructs).
Local Abbreviation main_loop :=
  (transform_lines match_python_construct find_ish_constructs find_welp_constructs).
Local Abbreviation file_of :=
  (transform_file match_python_construct find_ish_constructs find_welp_constructs).
Local Abbreviation plain :=
  (plain_line match_python_construct find_ish_constructs find_welp_constructs).

Lemma plain_line_kept (line : string) (uh : helpers) :
  plain line ->
  is_conditional_header (strip line) = false
  /\ line_of line uh = (Returned [kept line], uh).
Proof.
  unfold kept. intros [Hb | [Hc | [Hh [Hm [Hi Hw]]]]].
  - rewrite Hb. pose proof (blank_strip _ Hb) as Hs. rewrite Hs.
    split; [reflexivity|]. unfold transform_line. now rewrite Hs.
  - destruct (blank line) eqn:Hb.
    { rewrite (blank_strip _ Hb) in Hc. discriminate Hc. }
    split.
    + unfold is_conditional_header.
      apply startswith_spec in Hc as [t ->]. reflexivity.
    + unfold transform_line. rewrite Hc.
      destruct (String.eqb (strip line) EmptyString) eqn:He; [|reflexivity].
      apply String.eqb_eq in He. rewrite He in Hc. discriminate Hc.
  - split; [exact Hh|].
    destruct (blank line) eqn:Hb.
    + unfold transform_line. now rewrite (blank_strip _ Hb).
    + destruct (String.eqb (strip line) EmptyString) eqn:He.
      * unfold transform_line. rewrite He.
        apply String.eqb_eq in He. exfalso.
        pose proof (strip_split line) as Hs. rewrite He in Hs.
        destruct Hs as [Hl [Ha Hb']].
        rewrite Hl, sapp_nil_l, blank_app, Ha, Hb' in Hb. discriminate Hb.
      * apply String.eqb_neq in He.
        destruct (startswith "#" (strip line)) eqn:Hc.
        -- unfold transform_line. apply String.eqb_neq in He. now rewrite He, Hc.
        -- rewrite (transform_line_inline _ _ _ _ _ He Hc Hm).
           now rewrite (compose_nothing _ _ _ _ Hi Hw).
Qed.

(** Over plain lines the main loop keeps each line and goes on after
    them with the same helpers. *)
Lemma main_loop_plain (pre : list string) (fuel : nat) (lines tail : list string)
    (i : nat) (output_lines : list string) (uh : helpers) :
  drop i lines = (pre ++ tail)%list ->
  Forall plain pre ->
  length pre <= fuel ->
  main_loop fuel lines i output_lines uh
  = main_loop (fuel - length pre) lines (i + length pre)
      (output_lines ++ map kept pre)%list uh.
Proof.
  revert fuel i output_lines.
  induction pre as [|line pre IH]; intros fuel i out Hdrop Hpre Hfuel.
  - simpl. now rewrite Nat.sub_0_r, Nat.add_0_r, app_nil_r.
  - apply Forall_cons in Hpre as [Hline Hpre].
    destruct fuel as [|fuel]; [simpl in Hfuel; lia|].
    simpl in Hdrop. apply drop_head in Hdrop as [Hi Hdrop].
    destruct (plain_line_kept line uh Hline) as [Hh Hk].
    cbn [transform_lines]. rewrite Hi. unfold bind at 1. unfold try_with.
    rewrite Hh. unfold bind at 1. rewrite Hk. cbn [ret fst snd].
    rewrite (IH fuel (i + 1) _ Hdrop Hpre ltac:(simpl in Hfuel; lia)).
    cbn [length map].
    replace (S fuel - S (length pre)) with (fuel - length pre) by lia.
    replace (i + S (length pre)) with (i + 1 + length pre) by lia.
    now rewrite <- app_assoc.
Qed.

(** X11.  A file of plain lines is returned line by line, a line of
    white space only as the empty line and every other line as it is, and
    no helper is registered: the import header is the one of the helpers
    that were registered before. *)
Theorem plain_file_is_kept (content target_language : string) (uh : helpers) :
  Forall plain (splitlines content) ->
  file_of content target_language uh
  = (Returned (import_header target_language uh
               +:+ join newline (map kept (splitlines content))),
     uh).
Proof.
  intros Hplain. unfold transform_file. unfold bind.
  rewrite (main_loop_plain (splitlines content) (S (length (splitlines content)))
             (splitlines content) [] 0 [] uh
             ltac:(now rewrite app_nil_r) Hplain ltac:(lia)).
  replace (S (length (splitlines content)) - length (splitlines content)) with 1 by lia.
  cbn [transform_lines].
  rewrite (lookup_ge_None_2 (splitlines content) (0 + length (splitlines content)))
    by lia.
  reflexivity.
Qed.

(** X12.  The first conditional header without any parenthesis, after
    plain lines, stops [transform_file]: it raises the error of a failed
    transform with the number (from 1) and the text of that line, around
    the error of the validation, which carries the same number and the
    stripped text; no helper is registered. *)
Theorem header_without_parenthesis_fails (content target_language : string)
    (pre rest : list string) (bad : string) (uh : helpers) :
  splitlines content = (pre ++ bad :: rest)%list ->
  Forall plain pre ->
  is_conditional_header (strip bad) = true ->
  str_in "(" (strip bad) = false ->
  startswith "~maybe import" (strip bad) = false ->
  exists advice,
    file_of content target_language uh
    = (Raised (KindaParseError
                 (Because "Transform failed: "
                    (KindaParseError (Text advice) (length pre + 1) (strip bad)))
                 (length pre + 1) bad),
       uh).
Proof.
  intros Hlines Hpre Hh Hp Hi.
  pose proof (validate_without_parenthesis (strip bad) (length pre + 1) uh Hh Hp Hi) as Hv.
  destruct Hv as [advice Hv]. exists advice.
  unfold transform_file. unfold bind at 1. rewrite Hlines.
  rewrite (main_loop_plain pre (S (length (pre ++ bad :: rest)))
             (pre ++ bad :: rest) (bad :: rest) 0 [] uh
             eq_refl Hpre ltac:(rewrite length_app; simpl; lia)).
  assert (Hlook : (pre ++ bad :: rest)%list !! (0 + length pre) = Some bad).
  { rewrite lookup_app_r by lia. now replace (0 + length pre - length pre) with 0 by lia. }
  destruct (S (length (pre ++ bad :: rest)) - length pre) as [|k] eqn:Hk.
  { rewrite length_app in Hk. simpl in Hk. lia. }
  cbn [transform_lines]. rewrite Hlook. unfold bind at 1. unfold try_with.
  rewrite Hh. unfold bind at 1.
  replace (0 + length pre + 1) with (length pre + 1) by lia.
  rewrite Hv. reflexivity.
Qed.

End PlainFiles.

(** ** The import header *)

Section Header.

Import PyStrFacts.

Variable match_python_construct : string -> header.
Variable find_ish_constructs : string -> list construct.
Variable find_welp_constructs : string -> list construct.

Local Abbreviation file_of :=
  (transform_file match_python_construct find_ish_constructs find_welp_constructs).
Local Abbreviation main_loop :=
  (transform_lines match_python_construct find_ish_constructs find_welp_constructs).

(** X13.  When [transform_file] returns, its output is made of the lines
    that the main loop gave, joined by line feeds, behind the import
    header.  When no helper is registered there is no header: the output
    is the joined lines alone.  When a helper is registered, the output
    starts with one import line that names every registered helper once,
    in increasing order, and an empty line. *)
Theorem header_lists_helpers (content target_language out : string) (uh uh' : helpers) :
  file_of content target_language uh = (Returned out, uh') ->
  exists output_lines,
    main_loop (S (length (splitlines content))) (splitlines content) 0 [] uh
    = (Returned output_lines, uh')
    /\ (uh' = ∅ -> out = join newline output_lines)
    /\ (uh' <> ∅ ->
        exists names,
          out = "from kinda.langs." +:+ target_language +:+ ".runtime.fuzzy import "
                +:+ join ", " names +:+ newline +:+ newline +:+ join newline output_lines
          /\ StronglySorted String.le names
          /\ NoDup names
          /\ forall h, h ∈ names <-> h ∈ uh').
Proof.
  intros H. unfold transform_file, bind in H.
  destruct (main_loop _ _ _ _ uh) as [[output_lines| |] u]; try discriminate.
  injection H as <- <-. exists output_lines. split; [reflexivity|].
  unfold import_header. split.
  - intros ->. destruct (decide (∅ = ∅)) as [_|Hne]; [reflexivity | contradiction].
  - intros Hne. exists (sorted (elements u)).
    destruct (decide (u = ∅)) as [He|_]; [contradiction|].
    split; [now rewrite !PyStrFacts.sapp_assoc|]. split; [|split].
    + apply StronglySorted_merge_sort; apply _.
    + unfold sorted. rewrite merge_sort_Permutation. apply NoDup_elements.
    + intros h. unfold sorted. rewrite merge_sort_Permutation. apply elem_of_elements.
Qed.

End Header.

(** ** Direct execution: a successful assignment *)

Section AssignFacts.

Import Semantics.

Variable pyfloat : Type.
Variable float_add : pyfloat -> Z -> pyfloat.
Variable py_eval : string -> environment pyfloat -> option (pyval pyfloat) * environment pyfloat.

(** X14.  When [evaluate] returns a value that is not [None],
    [kinda_assign] binds the variable, in the environment the evaluation
    left, and changes no other name.  For a draw among -1, 0 and 1, an
    integer is stored at most one away from the value, a Boolean is stored
    as an integer between -1 and 2, and a string is stored as it is. *)
Theorem kinda_assign_binds (var : string) (expr value : pyval pyfloat) (noise : Z)
    (env : environment pyfloat) :
  (evaluate py_eval expr env).1 = value ->
  value <> PyNone ->
  (-1 <= noise <= 1)%Z ->
  let env' := kinda_assign float_add py_eval var expr noise env in
  env' !! var = Some (add_noise float_add value noise)
  /\ (forall other, other <> var -> env' !! other = (evaluate py_eval expr env).2 !! other)
  /\ (forall z, value = PyInt z ->
      exists z', env' !! var = Some (PyInt z') /\ (z - 1 <= z' <= z + 1)%Z)
  /\ (forall b, value = PyBool b ->
      exists z', env' !! var = Some (PyInt z') /\ (-1 <= z' <= 2)%Z)
  /\ (forall s, value = PyStr s -> env' !! var = Some (PyStr s)).
Proof.
  intros Hv Hnone Hnoise env'.
  assert (Henv : env' = <[var := add_noise float_add value noise]>
                          (evaluate py_eval expr env).2).
  { unfold env', kinda_assign.
    destruct (evaluate py_eval expr env) as [v e]. simpl in *. subst v.
    destruct value; [contradiction | reflexivity..]. }
  rewrite Henv. clear Henv env'.
  set (stored := add_noise float_add value noise).
  generalize (evaluate py_eval expr env).2. unfold environment. intros env1.
  assert (Hvar : <[var := stored]> env1 !! var = Some stored)
    by apply lookup_insert_eq.
  split; [exact Hvar|]. split; [|split; [|split]].
  - intros other Ho. now apply lookup_insert_ne.
  - intros z Hz. exists (z + noise)%Z. split; [|lia].
    rewrite Hvar. unfold stored. now rewrite Hz.
  - intros b Hb. exists (Z.b2z b + noise)%Z. split.
    + rewrite Hvar. unfold stored. now rewrite Hb.
    + destruct b; simpl; lia.
  - intros s Hs. rewrite Hvar. unfold stored. now rewrite Hs.
Qed.

End AssignFacts.

(** ** The lines of single constructs *)

Section Constructs.

Import PyStrFacts.

Variable match_python_construct : string -> header.
Variable find_ish_constructs : string -> list construct.
Variable find_welp_constructs : string -> list construct.

Local Abbreviation ish := (_transform_ish_constructs find_ish_constructs).
Local Abbreviation line_of :=
  (transform_line match_python_construct find_ish_constructs find_welp_constructs).
Local Abbreviation composed := (compose find_ish_constructs find_welp_constructs).
Local Abbreviation processed := (process_groups find_ish_constructs find_welp_constructs).

Lemma main_construct_some (h : header) (key : string) (groups : list (option string)) :
  main_construct h = Some (key, groups) ->
  h = Some (key, groups) /\ (key = "welp" -> prefers_inline groups = false).
Proof.
  unfold main_construct. destruct h as [[k gs]|]; [|discriminate].
  destruct (String.eqb k "welp") eqn:Hk.
  - destruct (prefers_inline gs) eqn:Hp; simpl; [discriminate|].
    destruct (String.eqb k EmptyString); [discriminate|].
    intros H. injection H as <- <-. now split.
  - simpl. destruct (String.eqb k EmptyString); [discriminate|].
    intros H. injection H as <- <-. split; [reflexivity|].
    intros ->. discriminate Hk.
Qed.

(** After the first two groups of a fallback header the loop over the
    groups copies the groups. *)
Lemma process_group_welp_rest (rest acc : list (option string)) (uh : helpers) :
  2 <= length acc ->
  fold_left (process_group find_ish_constructs find_welp_constructs "welp") rest (acc, uh)
  = ((acc ++ rest)%list, uh).
Proof.
  revert acc. induction rest as [|g rest IH]; intros acc Hacc.
  - now rewrite app_nil_r.
  - cbn [fold_left]. unfold process_group at 2.
    assert (Hg : (if String.eqb "welp" "welp"
                  then if Nat.eqb (length acc) 1
                       then let '(group_transformed, uh0) :=
                              ish (default EmptyString g) uh in
                            ((acc ++ [Some group_transformed])%list, uh0)
                       else ((acc ++ [g])%list, uh)
                  else ((acc ++ [g])%list, uh))
                 = ((acc ++ [g])%list, uh)).
    { cbn [String.eqb Ascii.eqb Bool.eqb]. simpl.
      destruct (Nat.eqb (length acc) 1) eqn:Hl; [|reflexivity].
      apply Nat.eqb_eq in Hl. lia. }
    destruct g as [text|].
    + cbn [String.eqb Ascii.eqb Bool.eqb]. simpl.
      destruct (Nat.eqb (length acc) 1) eqn:Hl; [apply Nat.eqb_eq in Hl; lia|].
      rewrite IH by (rewrite length_app; simpl; lia).
      now rewrite <- app_assoc.
    + rewrite IH by (rewrite length_app; simpl; lia).
      now rewrite <- app_assoc.
Qed.

(** X15.  A line kept as a fallback header never gives the assignment
    form: the header is kept only when its primary text holds none of the
    characters of a complex expression, the equals sign among them, so the
    line becomes the plain call of [welp_fallback], between the white
    space the line had around it.  The primary text is stripped and not
    composed, and the fallback text has its approximate constructs
    rewritten. *)
Theorem welp_header_is_plain_call (line g0 g1 : string) (rest : list (option string))
    (uh : helpers) :
  strip line <> EmptyString ->
  startswith "#" (strip line) = false ->
  main_construct (match_python_construct (strip line))
  = Some ("welp", Some g0 :: Some g1 :: rest) ->
  str_in "=" (strip g0) = false
  /\ line_of line uh
     = (Returned [leading line
                  +:+ ("welp_fallback(lambda: " +:+ strip g0 +:+ ", "
                       +:+ strip (ish g1 uh).1 +:+ ")")
                  +:+ trailing line],
        add "welp_fallback" (ish g1 uh).2).
Proof.
  intros Hne Hc Hm.
  destruct (main_construct_some _ _ _ Hm) as [_ Hp]. specialize (Hp eq_refl).
  assert (Heq : str_in "=" (strip g0) = false).
  { destruct (str_in "=" (strip g0)) eqn:He; [|reflexivity].
    unfold prefers_inline in Hp.
    assert (Ha : any_in complex_ops (stripped_group (Some g0 :: Some g1 :: rest) 0) = true).
    { apply (any_in_intro _ "="); [|exact He].
      unfold complex_ops. set_solver. }
    rewrite Ha in Hp. discriminate Hp. }
  split; [exact Heq|].
  rewrite (transform_line_main _ _ _ line "welp" (Some g0 :: Some g1 :: rest) uh Hne Hc Hm).
  destruct (ish g1 uh) as [g1' u1] eqn:Hg1. cbn [fst snd].
  assert (Hproc : processed "welp" (Some g0 :: Some g1 :: rest) uh
                  = ((Some g0 :: Some g1' :: rest)%list, u1)).
  { unfold process_groups. change (is_import "welp") with false. cbn [fold_left].
    change (process_group find_ish_constructs find_welp_constructs "welp" ([], uh) (Some g0))
      with ([Some g0], uh).
    assert (H2 : process_group find_ish_constructs find_welp_constructs "welp"
                   ([Some g0], uh) (Some g1)
                 = ([Some g0; Some g1'], u1)).
    { unfold process_group. simpl. now rewrite Hg1. }
    rewrite H2. now rewrite process_group_welp_rest by (simpl; lia). }
  rewrite Hproc. cbn [fst snd]. unfold substitute.
  unfold bind at 1.
  assert (Hcode :
    transformed_code "welp" (Some g0 :: Some g1' :: rest) (strip line) u1
    = (Returned ("welp_fallback(lambda: " +:+ strip g0 +:+ ", " +:+ strip g1' +:+ ")"),
       add "welp_fallback" u1)).
  { unfold transformed_code. cbn [String.eqb Ascii.eqb Bool.eqb].
    unfold strip_of, bind, ret, use. cbn [fst snd]. rewrite Heq. reflexivity. }
  rewrite Hcode. unfold ret.
  now rewrite (replace_stripped _ _ Hne).
Qed.

(** The text after the last separator of a text holds no separator. *)
Lemma last_part_split (d : ascii) (s : string) :
  exists pre,
    s = pre +:+ last_part (split d s)
    /\ str_in (String d EmptyString) (last_part (split d s)) = false
    /\ ((pre = EmptyString /\ split d s = [s])
        \/ ((exists p, pre = p +:+ String d EmptyString) /\ 2 <= length (split d s))).
Proof.
  unfold last_part. induction s as [|c s IH].
  - exists EmptyString. simpl. repeat split. now left.
  - destruct IH as [pre [Hs [Hno Hshape]]].
    cbn [split]. destruct (Ascii.eqb c d) eqn:Hcd.
    + apply Ascii.eqb_eq in Hcd. subst c.
      assert (Hlast : List.last (EmptyString :: split d s) EmptyString
                      = List.last (split d s) EmptyString).
      { destruct (split d s) as [|h t] eqn:Hsp; [|reflexivity].
        destruct Hshape as [[_ H] | [_ H]]; [discriminate | simpl in H; lia]. }
      rewrite Hlast. exists (String d pre). split; [now rewrite sapp_cons, <- Hs|].
      split; [exact Hno|]. right. split.
      * destruct Hshape as [[-> _] | [[p ->] _]];
          [now exists EmptyString | now exists (String d p)].
      * destruct Hshape as [[_ ->] | [_ H]]; simpl; lia.
    + destruct Hshape as [[-> Hone] | [[p ->] Hlen]].
      * rewrite Hone. cbn [List.last]. exists EmptyString.
        split; [reflexivity|]. split; [|now left].
        rewrite Hone in Hno. cbn [List.last] in Hno.
        rewrite str_in_cons, Hno. unfold startswith. rewrite prefix_cons.
        destruct (ascii_dec d c) as [->|_]; [|reflexivity].
        rewrite Ascii.eqb_refl in Hcd. discriminate Hcd.
      * destruct (split d s) as [|h [|h' t]] eqn:Hsp; [simpl in Hlen; lia..|].
        change (List.last (h :: h' :: t) EmptyString)
          with (List.last (h' :: t) EmptyString) in Hs, Hno.
        change (List.last (String c h :: h' :: t) EmptyString)
          with (List.last (h' :: t) EmptyString).
        exists (String c (p +:+ String d EmptyString)).
        split; [now rewrite sapp_cons, <- Hs|]. split; [exact Hno|].
        right. split; [now exists (String c p) | simpl; lia].
Qed.

(** X16.  An import line is never composed.  With an alias it binds the
    alias; without one it binds the text after the last dot of the module
    name, a text that holds no dot.  The line keeps the white space it had
    around it, and [kinda_import] is registered. *)
Theorem kinda_import_line (line module_name : string) (alias : option string)
    (uh : helpers) :
  strip line <> EmptyString ->
  startswith "#" (strip line) = false ->
  match_python_construct (strip line) = Some ("kinda_import", [Some module_name; alias]) ->
  (forall a, alias = Some a -> a <> EmptyString ->
   line_of line uh
   = (Returned [leading line
                +:+ (a +:+ " = kinda_import('" +:+ module_name +:+ "', alias='" +:+ a +:+ "')")
                +:+ trailing line],
      add "kinda_import" uh))
  /\ (truthy alias = false ->
      exists pre name,
        module_name = pre +:+ name
        /\ str_in "." name = false
        /\ (pre = EmptyString \/ exists p, pre = p +:+ ".")
        /\ line_of line uh
           = (Returned [leading line
                        +:+ (name +:+ " = kinda_import('" +:+ module_name +:+ "')")
                        +:+ trailing line],
              add "kinda_import" uh)).
Proof.
  intros Hne Hc Hm.
  assert (Hmain : main_construct (match_python_construct (strip line))
                  = Some ("kinda_import", [Some module_name; alias]))
    by now rewrite Hm.
  rewrite (transform_line_main _ _ _ line "kinda_import" _ uh Hne Hc Hmain).
  unfold process_groups. cbn [is_import String.eqb Ascii.eqb Bool.eqb orb fst snd].
  unfold substitute, transformed_code. cbn [String.eqb Ascii.eqb Bool.eqb].
  cbn [lookup list_lookup mjoin option_join option_bind].
  split.
  - intros a -> Ha. apply String.eqb_neq in Ha.
    cbn [mjoin option_join mbind option_bind truthy fmt default]. simpl. rewrite Ha. simpl.
    unfold bind, use, ret. cbn [fst snd].
    now rewrite (replace_stripped _ _ Hne).
  - intros Ht.
    destruct (last_part_split "." module_name) as [pre [Hs [Hno Hshape]]].
    exists pre, (last_part (split "." module_name)).
    split; [exact Hs|]. split; [exact Hno|]. split.
    + destruct Hshape as [[-> _] | [Hp _]]; [now left | now right].
    + simpl. replace (truthy alias) with false.
      unfold bind, use, ret, simple_name. cbn [fst snd fmt default].
      now rewrite (replace_stripped _ _ Hne).
Qed.

(** X17.  A line taken for a conditional header becomes one [if] line
    that calls the helper of its keyword on the condition, between the
    white space the line had around it: the brace is not kept, and the
    helper is registered.  The condition is composed as a text on its own
    and stripped; an empty condition gives a call without argument. *)
Theorem conditional_header_line (line key cond : string) (uh : helpers) :
  key = "sometimes" \/ key = "maybe" ->
  strip line <> EmptyString ->
  startswith "#" (strip line) = false ->
  match_python_construct (strip line) = Some (key, [Some cond]) ->
  let cond' := strip (composed cond uh).1 in
  line_of line uh
  = (Returned [leading line
               +:+ (if String.eqb cond' EmptyString then "if " +:+ key +:+ "():"
                    else "if " +:+ key +:+ "(" +:+ cond' +:+ "):")
               +:+ trailing line],
     add key (composed cond uh).2).
Proof.
  intros Hkey Hne Hc Hm cond'.
  assert (Hmain : main_construct (match_python_construct (strip line))
                  = Some (key, [Some cond]))
    by (rewrite Hm; destruct Hkey as [-> | ->]; reflexivity).
  rewrite (transform_line_main _ _ _ line key _ uh Hne Hc Hmain).
  rewrite process_groups_composed by (destruct Hkey as [-> | ->]; reflexivity).
  cbn [compose_groups]. unfold cond'.
  destruct (composed cond uh) as [c u1]. cbn [fst snd].
  unfold substitute.
  destruct Hkey as [-> | ->].
  - unfold transformed_code. cbn [String.eqb Ascii.eqb Bool.eqb].
    unfold bind, use, ret, stripped_group. cbn [fst snd lookup list_lookup].
    rewrite (replace_stripped _ _ Hne).
    now destruct (String.eqb (strip c) EmptyString).
  - unfold transformed_code. cbn [String.eqb Ascii.eqb Bool.eqb].
    unfold bind, use, ret, stripped_group. cbn [fst snd lookup list_lookup].
    rewrite (replace_stripped _ _ Hne).
    now destruct (String.eqb (strip c) EmptyString).
Qed.

(** X21.  A line that the matcher takes for a construct outside the
    nine that [transform_line] handles is returned as it is; its groups
    are composed all the same, and the helpers of their inline constructs
    are registered. *)
Theorem unhandled_construct_keeps_line (line key : string) (groups : list (option string))
    (uh : helpers) :
  strip line <> EmptyString ->
  startswith "#" (strip line) = false ->
  match_python_construct (strip line) = Some (key, groups) ->
  key <> EmptyString ->
  key ∉ ["kinda_int"; "kinda_binary"; "sorta_print"; "sometimes"; "maybe";
         "fuzzy_reassign"; "kinda_import"; "maybe_import"; "welp"] ->
  line_of line uh
  = (Returned [line], (compose_groups find_ish_constructs find_welp_constructs groups uh).2).
Proof.
  intros Hne Hc Hm Hkey Hk.
  assert (Hother : forall name,
             name ∈ ["kinda_int"; "kinda_binary"; "sorta_print"; "sometimes"; "maybe";
                     "fuzzy_reassign"; "kinda_import"; "maybe_import"; "welp"] ->
             String.eqb key name = false).
  { intros name Hin. apply String.eqb_neq. intros ->. contradiction. }
  assert (Hmain : main_construct (match_python_construct (strip line)) = Some (key, groups)).
  { rewrite Hm. unfold main_construct.
    rewrite (Hother "welp") by set_solver. cbn [andb].
    now rewrite (eqb_empty_false _ Hkey). }
  rewrite (transform_line_main _ _ _ line key groups uh Hne Hc Hmain).
  rewrite process_groups_composed;
    [| unfold is_import; rewrite (Hother "kinda_import"), (Hother "maybe_import");
       [reflexivity | set_solver | set_solver]
     | apply Hother; set_solver].
  destruct (compose_groups _ _ groups uh) as [gs u1]. cbn [fst snd].
  unfold substitute, transformed_code.
  rewrite (Hother "kinda_int"), (Hother "kinda_binary"), (Hother "sorta_print"),
    (Hother "sometimes"), (Hother "maybe"), (Hother "fuzzy_reassign"),
    (Hother "kinda_import"), (Hother "maybe_import"), (Hother "welp") by set_solver.
  unfold bind, ret. cbn [fst snd].
  rewrite (replace_stripped _ _ Hne).
  destruct (strip_split line) as [Hl _]. now rewrite <- Hl.
Qed.

End Constructs.

(** ** The patterns of the conditional headers *)

Section GrammarFacts.

Import PyStrFacts Grammar.

Lemma run_lit {A} (s rest : string) (pos : nat) (caps : captures)
    (k : string -> nat -> captures -> option A) :
  run (lit s) (s +:+ rest) pos caps k = k rest (pos + len s) caps.
Proof.
  revert pos. induction s as [|c s IH]; intros pos.
  - simpl. now rewrite Nat.add_0_r.
  - rewrite sapp_cons. cbn [lit run]. rewrite Ascii.eqb_refl, IH.
    replace (pos + len (String c s)) with (S pos + len s) by (unfold len; simpl; lia).
    reflexivity.
Qed.

(** One round of a greedy repetition of a character class. *)
Lemma run_star_cons {A} (p : ascii -> bool) (c : ascii) (rest : string) (pos : nat)
    (caps : captures) (k : string -> nat -> captures -> option A) :
  run (Rep true (Chr p)) (String c rest) pos caps k
  = match (if p c then run (Rep true (Chr p)) rest (S pos) caps k else None) with
    | Some x => Some x
    | None => k (String c rest) pos caps
    end.
Proof.
  cbn [run String.length]. destruct (p c); [|reflexivity].
  replace (S pos =? pos)%nat with false by (symmetry; apply Nat.eqb_neq; lia).
  reflexivity.
Qed.

Lemma run_star_nil {A} (p : ascii -> bool) (pos : nat) (caps : captures)
    (k : string -> nat -> captures -> option A) :
  run (Rep true (Chr p)) EmptyString pos caps k = k EmptyString pos caps.
Proof. reflexivity. Qed.

(** A greedy repetition of a character class takes all the characters of
    the class in front of a character outside it, when the rest of the
    pattern matches from there. *)
Lemma run_star_greedy {A} (p : ascii -> bool) (body rest : string) (pos : nat)
    (caps : captures) (k : string -> nat -> captures -> option A) (x : A) :
  forallb p (list_ascii_of_string body) = true ->
  match rest with String c _ => p c = false | EmptyString => True end ->
  k rest (pos + len body) caps = Some x ->
  run (Rep true (Chr p)) (body +:+ rest) pos caps k = Some x.
Proof.
  revert pos. induction body as [|c body IH]; intros pos Hbody Hrest Hk.
  - rewrite sapp_nil_l. unfold len in Hk. simpl in Hk. rewrite Nat.add_0_r in Hk.
    destruct rest as [|c rest]; [exact Hk|].
    rewrite run_star_cons, Hrest. exact Hk.
  - simpl in Hbody. apply andb_true_iff in Hbody as [Hc Hbody].
    rewrite sapp_cons, run_star_cons, Hc.
    rewrite (IH (S pos) Hbody Hrest); [reflexivity|].
    replace (S pos + len body) with (pos + len (String c body))
      by (unfold len; simpl; lia).
    exact Hk.
Qed.

(** A greedy repetition of a character class in front of a pattern that
    always matches, and sets no group, always matches. *)
Lemma run_star_total (p : ascii -> bool) (caps : captures)
    (k : string -> nat -> captures -> option (nat * captures)) (rest : string) (pos : nat) :
  (forall rest pos, exists e, k rest pos caps = Some (e, caps)) ->
  exists e, run (Rep true (Chr p)) rest pos caps k = Some (e, caps).
Proof.
  intros Hk. revert pos. induction rest as [|c rest IH]; intros pos.
  - rewrite run_star_nil. apply Hk.
  - rewrite run_star_cons. destruct (p c).
    + destruct (IH (S pos)) as [e He]. rewrite He. now exists e.
    + apply Hk.
Qed.

Lemma blank_forallb (ws : string) :
  blank ws = true -> forallb isspace (list_ascii_of_string ws) = true.
Proof.
  induction ws as [|c ws IH]; simpl; [reflexivity|].
  intros H. apply andb_true_iff in H as [Hc Hws]. now rewrite Hc, IH.
Qed.

Lemma no_parenthesis_forallb (cond : string) :
  str_in ")" cond = false ->
  forallb (none_of ")") (list_ascii_of_string cond) = true.
Proof.
  induction cond as [|c cond IH]; [reflexivity|].
  rewrite str_in_cons. intros H. apply orb_false_iff in H as [Hp Hrest].
  cbn [list_ascii_of_string forallb]. rewrite (IH Hrest), andb_true_r.
  unfold none_of, one_of. cbn [list_ascii_of_string existsb]. rewrite orb_false_r.
  destruct (Ascii.eqb c ")") eqn:Hc; [|reflexivity].
  apply Ascii.eqb_eq in Hc. subst c.
  pose proof (startswith_app ")" cond) as Hs. rewrite sapp_cons, sapp_nil_l in Hs.
  congruence.
Qed.

Lemma substring_app (a b c : string) :
  String.substring (len a) (len b) (a +:+ b +:+ c) = b.
Proof.
  induction a as [|x a IH]; [|exact IH].
  rewrite sapp_nil_l. unfold len. simpl.
  induction b as [|y b IHb]; [now destruct c|].
  rewrite sapp_cons. simpl. now rewrite IHb.
Qed.

(** The tail shared by the two patterns: blanks and an optional opening
    brace; it always matches. *)
Lemma header_tail_total (caps : captures) (rest : string) (pos : nat) :
  exists e,
    run (Seq (star sp) (opt (lit "{"))) rest pos caps (fun _ e caps => Some (e, caps))
    = Some (e, caps).
Proof.
  cbn [run star sp]. apply run_star_total. clear rest pos. intros rest pos.
  unfold opt. cbn [run lit].
  destruct rest as [|c rest]; [now eexists|].
  destruct (Ascii.eqb "{" c); now eexists.
Qed.

(** The pattern of a conditional header on its keyword, blanks, and a
    parenthesis closed after a text without closing parenthesis. *)
Lemma header_pattern (keyword ws cond tail : string) :
  blank ws = true ->
  str_in ")" cond = false ->
  let pattern :=
    seqs [lit keyword; star sp; lit "("; Grp 1 (star (Chr (none_of ")")));
          lit ")"; star sp; opt (lit "{")] in
  let line := keyword +:+ ws +:+ "(" +:+ cond +:+ ")" +:+ tail in
  exists e caps,
    match_at pattern line 0 = Some (e, caps)
    /\ groups_of line caps 1 = [Some cond].
Proof.
  intros Hws Hcond pattern line.
  set (a := len keyword + len ws + 1).
  destruct (header_tail_total [(1, (a, a + len cond))] tail (a + len cond + 1)) as [e He].
  exists e, [(1, (a, a + len cond))]. split.
  - unfold match_at. change (slice_from 0 line) with line.
    unfold pattern, line. cbn [seqs]. cbn [run].
    rewrite run_lit. unfold star, sp.
    apply run_star_greedy; [now apply blank_forallb | reflexivity |].
    rewrite (run_lit "(").
    apply run_star_greedy; [now apply no_parenthesis_forallb | reflexivity |].
    rewrite (run_lit ")").
    change (len "(") with 1. change (len ")") with 1.
    replace (0 + len keyword + len ws + 1) with a by (unfold a; lia).
    exact He.
  - unfold groups_of, group_text. cbn [seq map span_of Nat.eqb].
    replace (a + len cond - a) with (len cond) by lia.
    unfold line, a.
    replace (len keyword + len ws + 1) with (len (keyword +:+ ws +:+ "("))
      by (rewrite !len_app; change (len "(") with 1; lia).
    replace (keyword +:+ ws +:+ "(" +:+ cond +:+ ")" +:+ tail)
      with ((keyword +:+ ws +:+ "(") +:+ cond +:+ ")" +:+ tail)
      by (now rewrite !sapp_assoc).
    now rewrite substring_app.
Qed.

(** X18.  The patterns of [~sometimes] and [~maybe] match a line that
    starts with the keyword, optional blanks and a parenthesis, and they
    capture the condition up to the first closing parenthesis only,
    whatever follows it on the line. *)
Theorem conditional_patterns_stop_at_parenthesis (ws cond tail : string) :
  blank ws = true ->
  str_in ")" cond = false ->
  (exists e caps,
     match_at sometimes.1 ("~sometimes" +:+ ws +:+ "(" +:+ cond +:+ ")" +:+ tail) 0
     = Some (e, caps)
     /\ groups_of ("~sometimes" +:+ ws +:+ "(" +:+ cond +:+ ")" +:+ tail) caps sometimes.2
        = [Some cond])
  /\ (exists e caps,
        match_at maybe.1 ("~maybe" +:+ ws +:+ "(" +:+ cond +:+ ")" +:+ tail) 0
        = Some (e, caps)
        /\ groups_of ("~maybe" +:+ ws +:+ "(" +:+ cond +:+ ")" +:+ tail) caps maybe.2
           = [Some cond]).
Proof.
  intros Hws Hcond. split.
  - exact (header_pattern "~sometimes" ws cond tail Hws Hcond).
  - exact (header_pattern "~maybe" ws cond tail Hws Hcond).
Qed.

End GrammarFacts.

(** ** The name of the output file *)

Section Naming.

Import PyStrFacts.

Lemma endswith_app (p s : string) : endswith s (p +:+ s) = true.
Proof.
  unfold endswith. rewrite len_app.
  replace (len p + len s - len s) with (len p) by lia.
  rewrite slice_from_app, String.eqb_refl, andb_true_r.
  apply Nat.leb_le. lia.
Qed.

Lemma endswith_spec (p s : string) : endswith p s = true <-> exists a, s = a +:+ p.
Proof.
  split.
  - unfold endswith. intros H. apply andb_true_iff in H as [_ H].
    apply String.eqb_eq in H. exists (slice_to (len s - len p) s).
    transitivity (slice_to (len s - len p) s +:+ slice_from (len s - len p) s);
      [symmetry; apply slice_to_from | now f_equal].
  - intros [a ->]. apply endswith_app.
Qed.

(** No occurrence of [.py.knda] starts before the end of a text and runs
    into a copy of [.py.knda] put after it. *)
Lemma suffix_starts_late (p : string) :
  p <> EmptyString -> str_in ".py.knda" p = false ->
  startswith ".py.knda" (p +:+ ".py.knda") = false.
Proof.
  intros Hne Hin.
  destruct (startswith ".py.knda" (p +:+ ".py.knda")) eqn:Hs; [|reflexivity].
  exfalso. apply startswith_spec in Hs as [t Ht].
  destruct p as [|c1 p]; [contradiction|].
  rewrite sapp_cons in Ht. injection Ht as -> Ht.
  destruct p as [|c2 p]; [discriminate Ht|]. rewrite sapp_cons in Ht. injection Ht as -> Ht.
  destruct p as [|c3 p]; [discriminate Ht|]. rewrite sapp_cons in Ht. injection Ht as -> Ht.
  destruct p as [|c4 p]; [discriminate Ht|]. rewrite sapp_cons in Ht. injection Ht as -> Ht.
  destruct p as [|c5 p]; [discriminate Ht|]. rewrite sapp_cons in Ht. injection Ht as -> Ht.
  destruct p as [|c6 p]; [discriminate Ht|]. rewrite sapp_cons in Ht. injection Ht as -> Ht.
  destruct p as [|c7 p]; [discriminate Ht|]. rewrite sapp_cons in Ht. injection Ht as -> Ht.
  destruct p as [|c8 p]; [discriminate Ht|]. rewrite sapp_cons in Ht. injection Ht as -> Ht.
  rewrite str_in_cons in Hin. apply orb_false_iff in Hin as [Hin _].
  change (startswith ".py.knda" (".py.knda" +:+ p) = false) in Hin.
  rewrite startswith_app in Hin. discriminate Hin.
Qed.

Lemma replace_suffix (p : string) :
  str_in ".py.knda" p = false ->
  replace_from ".py.knda" ".py" 0 (p +:+ ".py.knda") = p +:+ ".py".
Proof.
  induction p as [|c p IH]; intros Hin; [reflexivity|].
  pose proof (suffix_starts_late (String c p) ltac:(discriminate) Hin) as Hs.
  rewrite str_in_cons in Hin. apply orb_false_iff in Hin as [_ Hin].
  rewrite sapp_cons in *. cbn [replace_from].
  unfold startswith in Hs. rewrite Hs. now rewrite (IH Hin), sapp_cons.
Qed.

Lemma rfind_suffix (p : string) : rfind "." (p +:+ ".knda") = Some (len p).
Proof.
  induction p as [|c p IH]; [reflexivity|].
  rewrite sapp_cons. cbn [rfind]. now rewrite IH.
Qed.

Lemma endswith_longer (p : string) :
  endswith ".py.knda" (p +:+ ".knda") = endswith ".py" p.
Proof.
  destruct (endswith ".py" p) eqn:Hp.
  - apply endswith_spec in Hp as [a ->]. apply endswith_spec. exists a.
    now rewrite sapp_assoc.
  - destruct (endswith ".py.knda" (p +:+ ".knda")) eqn:Hq; [|reflexivity].
    apply endswith_spec in Hq as [a Ha].
    assert (Hpa : p = a +:+ ".py").
    { change ".py.knda" with (".py" +:+ ".knda") in Ha.
      rewrite <- sapp_assoc in Ha.
      assert (H1 : slice_to (len p) (p +:+ ".knda") = p) by apply slice_to_app.
      assert (Hl : len p = len (a +:+ ".py")).
      { apply (f_equal len) in Ha. rewrite !len_app in *.
        change (len ".knda") with 5 in Ha. lia. }
      rewrite Ha, Hl, slice_to_app in H1. now symmetry. }
    assert (He : endswith ".py" p = true) by (apply endswith_spec; now exists a).
    congruence.
Qed.

(** X19.  The output file of [name.py.knda] is [name.py], when
    [.py.knda] occurs nowhere in [name]; the output file of any other
    [name.knda] is [name.py]. *)
Theorem output_file_name (p : string) :
  (str_in ".py.knda" p = false -> new_name (p +:+ ".py.knda") = p +:+ ".py")
  /\ (p <> EmptyString -> endswith ".py" p = false ->
      new_name (p +:+ ".knda") = p +:+ ".py").
Proof.
  unfold new_name. split.
  - intros Hin. rewrite endswith_app. now apply replace_suffix.
  - intros Hne Hpy. rewrite endswith_longer, Hpy.
    unfold stem. rewrite rfind_suffix, len_app.
    assert (H0 : 0 < len p) by (destruct p; [contradiction | unfold len; simpl; lia]).
    replace (0 <? len p)%nat with true by (symmetry; apply Nat.ltb_lt; lia).
    replace (len p <? len p + len ".knda" - 1)%nat with true
      by (symmetry; apply Nat.ltb_lt; change (len ".knda") with 5; lia).
    cbn [andb]. now rewrite slice_to_app.
Qed.

(** X20.  [detect_language] never reads the path: it returns the forced
    language when there is a non-empty one, and [python] for every path
    otherwise. *)
Theorem detect_language_ignores_path (path : string) (forced : option string) :
  (forall path', detect_language path forced = detect_language path' forced)
  /\ (truthy forced = false -> detect_language path forced = "python")
  /\ (forall lang, forced = Some lang -> lang <> EmptyString ->
      detect_language path forced = lang).
Proof.
  unfold detect_language. split; [|split].
  - intros path'. destruct (truthy forced); [reflexivity|].
    now destruct (_ || _), (_ || _).
  - intros ->. now destruct (_ || _).
  - intros lang -> Hne. apply String.eqb_neq in Hne. simpl. now rewrite Hne.
Qed.

End Naming.

(** ** The further statements on concrete lines *)

Section MoreExamples.

Import PyStrFacts Matchers.

Local Abbreviation mpc := Matchers.match_python_construct.
Local Abbreviation fic := Matchers.find_ish_constructs.
Local Abbreviation fwc := Matchers.find_welp_constructs.

(** The lines used as block bodies below return for every helper set. *)
Lemma sample_lines_return (l : string) (u : helpers) :
  l ∈ ["    ~kinda int a = 1"; "    # note"; "        a = 1"; "    b = 2"] ->
  exists o u', run_line l u = (Returned o, u').
Proof.
  intros Hl. repeat (apply elem_of_cons in Hl as [-> | Hl]).
  - eexists _, _.
    apply (kinda_int_line mpc fic fwc "    ~kinda int a = 1" "a" "1" u);
      vm_compute; reflexivity.
  - eexists _, _. reflexivity.
  - eexists _, _. apply transform_line_inline.
    + vm_compute. discriminate.
    + vm_compute. reflexivity.
    + vm_compute. reflexivity.
  - eexists _, _. apply transform_line_inline.
    + vm_compute. discriminate.
    + vm_compute. reflexivity.
    + vm_compute. reflexivity.
  - now apply elem_of_nil in Hl.
Qed.

(** X2, on [~kinda binary flag], whose second group is missing. *)
Lemma transform_line_returns_witness :
  exists text uh', run_line "~kinda binary flag" ∅ = (Returned [text], uh').
Proof.
  apply (transform_line_returns mpc fic fwc "~kinda binary flag" ∅).
  intros key groups H. vm_compute in H. injection H as <- <-.
  split; [discriminate | intros H; discriminate H].
Defined.

(** X6, on a header with a brace, two lines of block, the closing brace
    and a line after it. *)
Lemma brace_block_ends_at_brace_witness :
  let lines :=
    ["~sometimes (x > 0) {"; "    ~kinda int a = 1"; "    # note"; "}"; "b = 2"] in
  let body := ["    ~kinda int a = 1"; "    # note"] in
  let uh1 := add "sometimes" ∅ in
  let block_out :=
    (([] ++ ["if sometimes(x > 0):"])
     ++ map (String.append "    ") (block_lines mpc fic fwc body uh1).1)%list in
  _process_conditional_block mpc fic fwc 5 lines (0 + 1) ([] ++ ["if sometimes(x > 0):"])%list
    "    " uh1
  = (Returned (0 + 1 + length body + 1, block_out), (block_lines mpc fic fwc body uh1).2)
  /\ transform_lines mpc fic fwc 6 lines 0 [] ∅
     = transform_lines mpc fic fwc 5 lines (0 + 1 + length body + 1) block_out
         (block_lines mpc fic fwc body uh1).2.
Proof.
  apply (brace_block_ends_at_brace mpc fic fwc 5
           ["~sometimes (x > 0) {"; "    ~kinda int a = 1"; "    # note"; "}"; "b = 2"]
           ["    ~kinda int a = 1"; "    # note"] ["b = 2"]
           "~sometimes (x > 0) {" "}" 0 [] ["if sometimes(x > 0):"] ∅ (add "sometimes" ∅)).
  - reflexivity.
  - vm_compute. reflexivity.
  - vm_compute. reflexivity.
  - vm_compute. reflexivity.
  - reflexivity.
  - vm_compute. reflexivity.
  - constructor; [split; [vm_compute; discriminate | right; right; vm_compute; auto]|].
    constructor; [split; [vm_compute; discriminate | right; left; vm_compute; auto]|].
    constructor.
  - vm_compute. reflexivity.
  - intros l u Hl. apply sample_lines_return.
    repeat (apply elem_of_cons in Hl as [-> | Hl]);
      [set_solver | set_solver | now apply elem_of_nil in Hl].
  - simpl. lia.
Defined.

(** X7, on a block of two lines that is never closed. *)
Lemma unclosed_brace_block_is_accepted_witness :
  let lines := ["~sometimes (x > 0) {"; "    ~kinda int a = 1"; "    # note"] in
  let body := ["    ~kinda int a = 1"; "    # note"] in
  _process_conditional_block mpc fic fwc 3 lines 1 ["if sometimes(x > 0):"] "    " ∅
  = (Returned (length lines,
               (["if sometimes(x > 0):"]
                ++ map (String.append "    ") (block_lines mpc fic fwc body ∅).1)%list),
     (block_lines mpc fic fwc body ∅).2).
Proof.
  apply (unclosed_brace_block_is_accepted mpc fic fwc 3
           ["~sometimes (x > 0) {"; "    ~kinda int a = 1"; "    # note"]
           ["    ~kinda int a = 1"; "    # note"] 1 ["if sometimes(x > 0):"] "    " ∅).
  - simpl. lia.
  - reflexivity.
  - constructor; [split; [vm_compute; discriminate | right; right; vm_compute; auto]|].
    constructor; [split; [vm_compute; discriminate | right; left; vm_compute; auto]|].
    constructor.
  - intros l u Hl. apply sample_lines_return.
    repeat (apply elem_of_cons in Hl as [-> | Hl]);
      [set_solver | set_solver | now apply elem_of_nil in Hl].
  - simpl. lia.
Defined.

(** X8, on a [~maybe] block nested in a [~sometimes] block. *)
Lemma nested_brace_block_witness :
  let lines :=
    ["~sometimes (x > 0) {"; "    ~maybe (y) {"; "        a = 1"; "    }"; "    b = 2";
     "}"; "c = 3"] in
  let uh1 := add "maybe" ∅ in
  let uh2 := (block_lines mpc fic fwc ["        a = 1"] uh1).2 in
  _process_conditional_block mpc fic fwc 7 lines 1 ["if sometimes(x > 0):"] "    " ∅
  = (Returned (1 + 1 + length ["        a = 1"] + 1 + length ["    b = 2"] + 1,
               (["if sometimes(x > 0):"]
                ++ map (String.append "    ") ["    if maybe(y):"]
                ++ map (String.append ("    " +:+ "    "))
                     (block_lines mpc fic fwc ["        a = 1"] uh1).1
                ++ map (String.append "    ")
                     (block_lines mpc fic fwc ["    b = 2"] uh2).1)%list),
     (block_lines mpc fic fwc ["    b = 2"] uh2).2).
Proof.
  apply (nested_brace_block mpc fic fwc 7
           ["~sometimes (x > 0) {"; "    ~maybe (y) {"; "        a = 1"; "    }";
            "    b = 2"; "}"; "c = 3"]
           ["        a = 1"] ["    b = 2"] ["c = 3"]
           "    ~maybe (y) {" "    }" "}" 1 ["if sometimes(x > 0):"] ["    if maybe(y):"]
           "    " ∅ (add "maybe" ∅)).
  - reflexivity.
  - vm_compute. reflexivity.
  - vm_compute. reflexivity.
  - vm_compute. reflexivity.
  - vm_compute. reflexivity.
  - constructor; [split; [vm_compute; discriminate | right; right; vm_compute; auto]|].
    constructor.
  - constructor; [split; [vm_compute; discriminate | right; right; vm_compute; auto]|].
    constructor.
  - vm_compute. reflexivity.
  - intros l u Hl. apply sample_lines_return.
    repeat (apply elem_of_cons in Hl as [-> | Hl]);
      [set_solver | set_solver | now apply elem_of_nil in Hl].
  - simpl. lia.
Defined.

(** X9, on a line with [5~ish] and [10.5~ish]. *)
Lemma ish_rewrites_in_place_witness :
  (run_ish "a = 5~ish + 10.5~ish" ∅).1
  = rewritten "a = 5~ish + 10.5~ish" 0 (fic "a = 5~ish + 10.5~ish").
Proof.
  apply (ish_rewrites_in_place fic "a = 5~ish + 10.5~ish" ∅).
  vm_compute. repeat split; lia.
Defined.

(** X10, on a line with one fallback construct whose sides hold
    approximate values. *)
Lemma welp_rewrites_in_place_witness :
  (_transform_welp_constructs fic fwc "x = 5~ish ~welp 0~ish" ∅).1
  = welp_rewritten fic "x = 5~ish ~welp 0~ish" 0 (fwc "x = 5~ish ~welp 0~ish").
Proof.
  apply (welp_rewrites_in_place fic fwc "x = 5~ish ~welp 0~ish" ∅).
  vm_compute. repeat split; lia.
Defined.

(** What the right-hand side above is. *)
Lemma welp_rewritten_example :
  welp_rewritten fic "x = 5~ish ~welp 0~ish" 0 (fwc "x = 5~ish ~welp 0~ish")
  = "welp_fallback(lambda: x = ish_value(5), ish_value(0))".
Proof. vm_compute. reflexivity. Qed.

(** X11, on a file with a plain line, an empty line, a comment that
    holds a construct, a line of blanks and another plain line. *)
Lemma plain_file_is_kept_witness :
  let content :=
    "a = 1" +:+ newline +:+ newline +:+ "# ~kinda int x = 3" +:+ newline +:+ "   "
    +:+ newline +:+ "b = 2" in
  run_file content "python" (add "kinda_int" ∅)
  = (Returned (import_header "python" (add "kinda_int" ∅)
               +:+ join newline (map kept (splitlines content))),
     add "kinda_int" ∅).
Proof.
  apply (plain_file_is_kept mpc fic fwc
           ("a = 1" +:+ newline +:+ newline +:+ "# ~kinda int x = 3" +:+ newline +:+ "   "
            +:+ newline +:+ "b = 2") "python" (add "kinda_int" ∅)).
  change (Forall (plain_line mpc fic fwc)
            ["a = 1"; EmptyString; "# ~kinda int x = 3"; "   "; "b = 2"]).
  constructor; [right; right; vm_compute; auto|].
  constructor; [left; reflexivity|].
  constructor; [right; left; vm_compute; reflexivity|].
  constructor; [left; reflexivity|].
  constructor; [right; right; vm_compute; auto | constructor].
Defined.

(** X12, on a file whose second line is [~sometimes {]. *)
Lemma header_without_parenthesis_fails_witness :
  exists advice,
    run_file ("a = 1" +:+ newline +:+ "  ~sometimes {" +:+ newline +:+ "b = 2") "python" ∅
    = (Raised (KindaParseError
                 (Because "Transform failed: "
                    (KindaParseError (Text advice) (length ["a = 1"] + 1)
                       (strip "  ~sometimes {")))
                 (length ["a = 1"] + 1) "  ~sometimes {"),
       ∅).
Proof.
  apply (header_without_parenthesis_fails mpc fic fwc
           ("a = 1" +:+ newline +:+ "  ~sometimes {" +:+ newline +:+ "b = 2") "python"
           ["a = 1"] ["b = 2"] "  ~sometimes {" ∅).
  - vm_compute. reflexivity.
  - constructor; [right; right; vm_compute; auto | constructor].
  - vm_compute. reflexivity.
  - vm_compute. reflexivity.
  - vm_compute. reflexivity.
Defined.

(** X13, on a file with a declaration and an approximate value. *)
Lemma header_lists_helpers_witness :
  let content := "~kinda int x = 1" +:+ newline +:+ "y = 2~ish" in
  let out :=
    "from kinda.langs.python.runtime.fuzzy import ish_value, kinda_int" +:+ newline
    +:+ newline +:+ "x = kinda_int(1)" +:+ newline +:+ "y = ish_value(2)" in
  let uh' := add "ish_value" (add "kinda_int" ∅) in
  exists output_lines,
    transform_lines mpc fic fwc (S (length (splitlines content))) (splitlines content) 0 [] ∅
    = (Returned output_lines, uh')
    /\ (uh' = ∅ -> out = join newline output_lines)
    /\ (uh' <> ∅ ->
        exists names,
          out = "from kinda.langs." +:+ "python" +:+ ".runtime.fuzzy import "
                +:+ join ", " names +:+ newline +:+ newline +:+ join newline output_lines
          /\ StronglySorted String.le names
          /\ NoDup names
          /\ forall h, h ∈ names <-> h ∈ uh').
Proof.
  apply (header_lists_helpers mpc fic fwc
           ("~kinda int x = 1" +:+ newline +:+ "y = 2~ish") "python"
           ("from kinda.langs.python.runtime.fuzzy import ish_value, kinda_int" +:+ newline
            +:+ newline +:+ "x = kinda_int(1)" +:+ newline +:+ "y = ish_value(2)")
           ∅ (add "ish_value" (add "kinda_int" ∅))).
  vm_compute. reflexivity.
Defined.

(** X14, on the literal [41] and the draw 1. *)
Lemma kinda_assign_binds_witness :
  let env' :=
    Semantics.kinda_assign (fun (f : unit) (_ : Z) => f) eval_literal "x"
      (Semantics.PyStr "41") 1 ∅ in
  env' !! "x" = Some (Semantics.PyInt 42)
  /\ (forall other, other <> "x" -> env' !! other = (∅ : gmap string _) !! other).
Proof.
  pose proof (kinda_assign_binds unit (fun f _ => f) eval_literal "x"
                (Semantics.PyStr "41") (Semantics.PyInt 41) 1 ∅
                ltac:(vm_compute; reflexivity) ltac:(discriminate) ltac:(lia))
    as [H1 [H2 _]].
  split; [exact H1 | exact H2].
Defined.

(** A Boolean is stored as an integer. *)
Lemma kinda_assign_stores_true_as_integer :
  Semantics.kinda_assign (fun (f : unit) (_ : Z) => f) eval_literal "flag"
    (Semantics.PyStr "True") (-1) ∅ !! "flag"
  = Some (Semantics.PyInt 0).
Proof. vm_compute. reflexivity. Qed.

(** X15, on [risky ~welp 5~ish] between blanks. *)
Lemma welp_header_is_plain_call_witness :
  str_in "=" (strip "risky ") = false
  /\ run_line "  risky ~welp 5~ish  " ∅
     = (Returned [leading "  risky ~welp 5~ish  "
                  +:+ ("welp_fallback(lambda: " +:+ strip "risky " +:+ ", "
                       +:+ strip (run_ish "5~ish" ∅).1 +:+ ")")
                  +:+ trailing "  risky ~welp 5~ish  "],
        add "welp_fallback" (run_ish "5~ish" ∅).2).
Proof.
  apply (welp_header_is_plain_call mpc fic fwc "  risky ~welp 5~ish  " "risky " "5~ish" [] ∅).
  - vm_compute. discriminate.
  - vm_compute. reflexivity.
  - vm_compute. reflexivity.
Defined.

(** X16, on an import of [os.path], without and with an alias. *)
Lemma kinda_import_line_witness :
  run_line "  ~kinda import os.path as p" ∅
  = (Returned [leading "  ~kinda import os.path as p"
               +:+ ("p" +:+ " = kinda_import('" +:+ "os.path" +:+ "', alias='" +:+ "p" +:+ "')")
               +:+ trailing "  ~kinda import os.path as p"],
     add "kinda_import" ∅)
  /\ exists pre name,
       "os.path" = pre +:+ name
       /\ str_in "." name = false
       /\ (pre = EmptyString \/ exists p, pre = p +:+ ".")
       /\ run_line "  ~kinda import os.path" ∅
          = (Returned [leading "  ~kinda import os.path"
                       +:+ (name +:+ " = kinda_import('" +:+ "os.path" +:+ "')")
                       +:+ trailing "  ~kinda import os.path"],
             add "kinda_import" ∅).
Proof.
  split.
  - apply (proj1 (kinda_import_line mpc fic fwc "  ~kinda import os.path as p" "os.path"
                    (Some "p") ∅ ltac:(vm_compute; discriminate)
                    ltac:(vm_compute; reflexivity) ltac:(vm_compute; reflexivity))
             "p" eq_refl).
    discriminate.
  - apply (proj2 (kinda_import_line mpc fic fwc "  ~kinda import os.path" "os.path"
                    None ∅ ltac:(vm_compute; discriminate)
                    ltac:(vm_compute; reflexivity) ltac:(vm_compute; reflexivity))).
    reflexivity.
Defined.

(** X17, on a [~maybe] header whose condition is an approximate
    comparison: composed on its own, the condition becomes the
    assignment form. *)
Lemma conditional_header_line_witness :
  let cond' := strip (compose fic fwc "x ~ish 3" ∅).1 in
  run_line "  ~maybe (x ~ish 3) {" ∅
  = (Returned [leading "  ~maybe (x ~ish 3) {"
               +:+ (if String.eqb cond' EmptyString then "if " +:+ "maybe" +:+ "():"
                    else "if " +:+ "maybe" +:+ "(" +:+ cond' +:+ "):")
               +:+ trailing "  ~maybe (x ~ish 3) {"],
     add "maybe" (compose fic fwc "x ~ish 3" ∅).2).
Proof.
  apply (conditional_header_line mpc fic fwc "  ~maybe (x ~ish 3) {" "maybe" "x ~ish 3" ∅).
  - now right.
  - vm_compute. discriminate.
  - vm_compute. reflexivity.
  - vm_compute. reflexivity.
Defined.

(** What the line above becomes. *)
Lemma conditional_header_example :
  (run_line "  ~maybe (x ~ish 3) {" ∅).1 = Returned ["  if maybe(x = ish_value(x, 3)):"].
Proof. vm_compute. reflexivity. Qed.

(** X18, on a header whose condition holds a call: the captured
    condition stops inside the call. *)
Lemma conditional_patterns_stop_at_parenthesis_witness :
  (exists e caps,
     Grammar.match_at Grammar.sometimes.1
       ("~sometimes" +:+ " " +:+ "(" +:+ "f(x" +:+ ")" +:+ " > 0) {") 0
     = Some (e, caps)
     /\ Grammar.groups_of ("~sometimes" +:+ " " +:+ "(" +:+ "f(x" +:+ ")" +:+ " > 0) {")
          caps Grammar.sometimes.2
        = [Some "f(x"])
  /\ (exists e caps,
        Grammar.match_at Grammar.maybe.1
          ("~maybe" +:+ " " +:+ "(" +:+ "f(x" +:+ ")" +:+ " > 0) {") 0
        = Some (e, caps)
        /\ Grammar.groups_of ("~maybe" +:+ " " +:+ "(" +:+ "f(x" +:+ ")" +:+ " > 0) {")
             caps Grammar.maybe.2
           = [Some "f(x"]).
Proof.
  apply (conditional_patterns_stop_at_parenthesis " " "f(x" " > 0) {").
  - reflexivity.
  - vm_compute. reflexivity.
Defined.

(** What such a header becomes. *)
Lemma cut_condition_example :
  (run_line "~sometimes (f(x) > 0) {" ∅).1 = Returned ["if sometimes(f(x):"].
Proof. vm_compute. reflexivity. Qed.

(** X19, on [hello.py.knda] and on [notes.knda]. *)
Lemma output_file_name_witness :
  new_name ("hello" +:+ ".py.knda") = "hello" +:+ ".py"
  /\ new_name ("notes" +:+ ".knda") = "notes" +:+ ".py".
Proof.
  split.
  - apply (proj1 (output_file_name "hello")). vm_compute. reflexivity.
  - apply (proj2 (output_file_name "notes")).
    + discriminate.
    + vm_compute. reflexivity.
Defined.

(** Every occurrence of [.py.knda] in the name is replaced, not the last
    one only. *)
Lemma output_file_name_inner_occurrence :
  new_name "a.py.knda.py.knda" = "a.py.py".
Proof. vm_compute. reflexivity. Qed.

(** X21, with a matcher that takes [5~ish] for the construct
    [ish_value] of the table. *)
Lemma unhandled_construct_keeps_line_witness :
  transform_line (fun _ => Some ("ish_value", [Some "5"])) fic fwc "  5~ish" ∅
  = (Returned ["  5~ish"], (compose_groups fic fwc [Some "5"] ∅).2).
Proof.
  apply (unhandled_construct_keeps_line (fun _ => Some ("ish_value", [Some "5"])) fic fwc
           "  5~ish" "ish_value" [Some "5"] ∅).
  - vm_compute. discriminate.
  - vm_compute. reflexivity.
  - reflexivity.
  - discriminate.
  - intros Hin. repeat (apply elem_of_cons in Hin as [Hin | Hin]; [discriminate Hin|]).
    now apply elem_of_nil in Hin.
Defined.

(** X22, on a header and three lines of block at the end of a file. *)
Lemma indented_block_runs_to_end_of_file_witness :
  let lines := ["~sometimes(x)"; "    a = 1"; EmptyString; "    ~kinda int b = 2"] in
  let body := ["    a = 1"; EmptyString; "    ~kinda int b = 2"] in
  transform_lines mpc fic fwc 2 lines 0 [] ∅
  = (Returned (([] ++ ["if sometimes(x):"])
               ++ (block_lines mpc fic fwc body (add "sometimes" ∅)).1)%list,
     (block_lines mpc fic fwc body (add "sometimes" ∅)).2).
Proof.
  apply (indented_block_runs_to_end_of_file mpc fic fwc 0
           ["~sometimes(x)"; "    a = 1"; EmptyString; "    ~kinda int b = 2"]
           ["    a = 1"; EmptyString; "    ~kinda int b = 2"]
           "~sometimes(x)" 0 [] ["if sometimes(x):"] ∅ (add "sometimes" ∅)).
  - reflexivity.
  - vm_compute. reflexivity.
  - vm_compute. reflexivity.
  - vm_compute. reflexivity.
  - reflexivity.
  - constructor; [right; vm_compute; lia|].
    constructor; [left; reflexivity|].
    constructor; [right; vm_compute; lia | constructor].
  - vm_compute. reflexivity.
  - intros l u Hl.
    apply elem_of_cons in Hl as [-> | Hl]; [|apply elem_of_cons in Hl as [-> | Hl]];
      [| |apply list_elem_of_singleton in Hl as ->].
    + eexists _, _. apply transform_line_inline.
      * vm_compute. discriminate.
      * vm_compute. reflexivity.
      * vm_compute. reflexivity.
    + eexists _, _. reflexivity.
    + eexists _, _.
      apply (kinda_int_line mpc fic fwc "    ~kinda int b = 2" "b" "2" u);
        vm_compute; reflexivity.
Defined.

(** X23, on a block whose second line is [~maybe {]. *)
Lemma block_error_is_located_at_header_witness :
  let lines := ["~sometimes (x > 0) {"; "    ~kinda int a = 1"; "    ~maybe {"; "}"] in
  let inner_number := 0 + 1 + length ["    ~kinda int a = 1"] + 1 in
  exists advice,
    transform_lines mpc fic fwc 5 lines 0 [] ∅
    = (Raised
         (KindaParseError
            (Because "Transform failed: "
               (KindaParseError
                  (Because "Error in conditional block: "
                     (KindaParseError (Text advice) inner_number (strip "    ~maybe {")))
                  inner_number "    ~maybe {"))
            (0 + 1) "~sometimes (x > 0) {"),
       (block_lines mpc fic fwc ["    ~kinda int a = 1"] (add "sometimes" ∅)).2).
Proof.
  apply (block_error_is_located_at_header mpc fic fwc 4
           ["~sometimes (x > 0) {"; "    ~kinda int a = 1"; "    ~maybe {"; "}"]
           ["    ~kinda int a = 1"] ["}"] "~sometimes (x > 0) {" "    ~maybe {" 0 []
           ["if sometimes(x > 0):"] ∅ (add "sometimes" ∅)).
  - reflexivity.
  - vm_compute. reflexivity.
  - vm_compute. reflexivity.
  - vm_compute. reflexivity.
  - reflexivity.
  - constructor; [split; [vm_compute; discriminate | right; right; vm_compute; auto]|].
    constructor.
  - vm_compute. reflexivity.
  - intros l u Hl. apply sample_lines_return.
    apply list_elem_of_singleton in Hl as ->. set_solver.
  - vm_compute. reflexivity.
  - vm_compute. reflexivity.
  - vm_compute. reflexivity.
  - simpl. lia.
Defined.

End MoreExamples.

(** ** The runtime function [kinda_binary] *)

Section RuntimeFacts.

Import Runtime.

(** A float that equals zero is one of the two zeros. *)
Lemma zero_cases (t : float) :
  PrimFloat.eqb t 0%float = true -> t = 0%float \/ t = (-0)%float.
Proof.
  rewrite FloatAxioms.eqb_spec. intros H.
  assert (E : exists s, Prim2SF t = S754_zero s).
  { destruct (Prim2SF t) as [s| s | |s m e]; try (now exists s); try discriminate H.
    - unfold SFeqb in H. simpl in H. destruct s; discriminate H.
    - unfold SFeqb in H. simpl in H. destruct s; discriminate H. }
  destruct E as [s E]. apply (f_equal SF2Prim) in E. rewrite SF2Prim_Prim2SF in E.
  destruct s; [right | left]; exact E.
Qed.

(** A total of zero is always off by more than the tolerance. *)
Lemma zero_total_is_off (t : float) :
  PrimFloat.eqb t 0%float = true ->
  PrimFloat.ltb tolerance (PrimFloat.abs (PrimFloat.sub t 1%float)) = true.
Proof. intros H. destruct (zero_cases t H) as [-> | ->]; vm_compute; reflexivity. Qed.

Lemma grid_checked : grid_normalized_well = true.
Proof. vm_compute. reflexivity. Qed.


End RuntimeFacts.

Section FurtherExamples.

Import PyStrFacts Matchers Runtime.

Local Abbreviation mpc := Matchers.match_python_construct.
Local Abbreviation fic := Matchers.find_ish_constructs.
Local Abbreviation fwc := Matchers.find_welp_constructs.



(** On these weights the quotients sum to 1.0 within 2 to the power -50,
    the first quotient is 0.5, and the result for the draw 0.625 is -1. *)
Lemma normalized_weights_example :
  let p := PrimFloat.div 0.75%float 1.5%float in
  let n := PrimFloat.div 0.5%float 1.5%float in
  let u := PrimFloat.div 0.25%float 1.5%float in
  p = 0.5%float
  /\ PrimFloat.ltb (PrimFloat.abs (PrimFloat.sub (PrimFloat.add (PrimFloat.add p n) u) 1%float))
       0x1p-50%float = true
  /\ draw 0.625%float p n = (-1)%Z.
Proof. vm_compute. repeat split. Qed.


End FurtherExamples.
